(** * Koules: the physics, control and goal layer of demos/Koules.cpp

    A shallow embedding of the Koules demo.  A C++ [double] is read as a
    real number (the arithmetic of the demo is the arithmetic of [R], the
    library functions [sqrt], [cos], [sin], [atan2], [ceil], [fmod] are the
    mathematical ones), a [std::vector<double>] as a [list R] that is read
    with [q !!! i] and written with [<[i:=x]> q], and the loops of the
    source as folds over the index range they run through.

    A state of the [KoulesStateSpace] is represented by its flat vector of
    reals, the one [copyToReals] produces:
    [(... x_i y_i vx_i vy_i ... x_s y_s vx_s vy_s theta_s)].

    The [assert] statements of [checkCollision] are not executed by the
    model; what they assert is stated as [momentumPreserved] and
    [kineticEnergyPreserved] and proved of every reported collision. *)

From Stdlib Require Import Reals Lra Lia ZArith QArith Qreals.
From stdpp Require Import base decidable list functions.

#[local] Open Scope R_scope.

(** ** Reals as the carrier of [double] *)

#[global] Instance R_inhabited : Inhabited R := populate 0.
#[global] Instance Rlt_decision (x y : R) : Decision (x < y) := Rlt_dec x y.
#[global] Instance Rle_decision (x y : R) : Decision (x <= y) := Rle_dec x y.
#[global] Instance Rgt_decision (x y : R) : Decision (x > y) := Rgt_dec x y.
#[global] Instance Rge_decision (x y : R) : Decision (x >= y) := Rge_dec x y.

(** [q[k] += d] on a vector. *)
Definition incr (q : list R) (k : nat) (d : R) : list R :=
  <[k := q !!! k + d]> q.

(** [ceil] of the C library, as an integer. *)
Definition ceil (x : R) : Z := (1 - up (- x))%Z.

(** [atan2 y x] of the C library: the angle of the point [(x, y)], in
    (-pi, pi]. *)
Definition atan2 (y x : R) : R :=
  if decide (0 < x) then atan (y / x)
  else if decide (x < 0) then
    (if decide (0 <= y) then atan (y / x) + PI else atan (y / x) - PI)
  else if decide (0 < y) then PI / 2
  else if decide (y < 0) then - (PI / 2)
  else 0.

(** [fmod x y] of the C library: [x - n * y] where [n] is [x / y] with its
    fractional part cut off (rounded toward zero). *)
Definition truncate (x : R) : Z :=
  if decide (0 <= x) then Int_part x else (- Int_part (- x))%Z.

Definition fmod (x y : R) : R := x - IZR (truncate (x / y)) * y.

(** ** Constants (lines 81-103) *)

(* size of the square that defines workspace *)
Definition sideLength : R := 1.
(* koule properties *)
Definition kouleMass : R := 0.5.
Definition kouleRadius : R := 0.015.
(* ship properties *)
Definition shipAcceleration : R := 1.
Definition shipRotVel : R := PI.
Definition shipMass : R := 0.75.
Definition shipRadius : R := 0.03.
Definition shipVmax : R := 0.5 / shipAcceleration.
Definition shipVmin : R := 0.1 * shipVmax.
(* dynamics, propagation, integration, control constants *)
Definition lambda_c : R := 4.
Definition h : R := 0.05.
Definition integrationStepSize : R := 1e-2.
Definition propagationStepSize : R := 0.05.
Definition propagationMinSteps : nat := 1.
Definition propagationMaxSteps : nat := 100.
Definition shipDelta : R := 0.5 * shipAcceleration * propagationStepSize.
Definition shipEps : R := 0.5 * shipRotVel * propagationStepSize.
(* number of attempts at each level when solving n-level koules *)
Definition numAttempts : nat := 1.

(** [std::numeric_limits<float>::epsilon()], which is 2^-23. *)
Definition float_epsilon : R := / 2 ^ 23.

(** lightweight signed SO(2) distance; assumes x and y are in [-pi,pi] *)
Definition signedSO2Distance (x y : R) : R :=
  let d0 := x - y in
  if decide (d0 < - PI) then d0 + 2 * PI
  else if decide (d0 > PI) then d0 - 2 * PI
  else d0.

(** ** KoulesProjection (lines 123-162) *)

Section Projection.
(** [space_->getDimension()] *)
Variable spaceDimension : nat.

(** The constructor: the value [numDimensions_] ends with, for the
    requested [numDimensions]. *)
Definition KoulesProjection (numDimensions : nat) : nat :=
  let n := ((spaceDimension - 1) / 2 + 1)%nat in
  if decide (n < numDimensions)%nat then n
  else if decide (numDimensions < 3)%nat then 3%nat
  else numDimensions.

(** The dimension [registerProjections] asks for the projection it
    registers as "PDSTProjection"; the default projection asks for 3. *)
Definition pdstDimension : nat := ((spaceDimension - 1) / 2 + 1)%nat.

(** [project]: writes into the vector [projection]; [xv] are the real
    values of the state and [theta] the value of its SO(2) part. *)
Definition project (numDimensions_ : nat) (state : list R) (projection : list R) : list R :=
  let xv := state in
  let theta := state !!! (spaceDimension - 1)%nat in
  let numKoules := ((numDimensions_ - 3) / 2)%nat in
  (* projection with coordinates in the same order as described in Andrew Ladd's thesis *)
  let projection := <[0%nat := xv !!! (4 * numKoules)%nat]> projection in
  let projection := <[1%nat := xv !!! (4 * numKoules + 1)%nat]> projection in
  let projection := <[2%nat := theta]> projection in
  foldl (fun projection i =>
           let projection := <[(2 * i + 3)%nat := xv !!! (4 * i)%nat]> projection in
           <[(2 * i + 4)%nat := xv !!! (4 * i + 1)%nat]> projection)
        projection (seq 0 numKoules).
End Projection.

(** ** KoulesStateSpace (lines 164-226) *)

Section StateSpace.
Variable numKoules : nat.

(** [getDimension()] of the compound space: 4 reals per body and the
    ship's heading. *)
Definition numDimensions : nat := 4 * (numKoules + 1) + 1.

(** [mass_(numKoules + 1, kouleMass)] then [mass_[numKoules] = shipMass]. *)
Definition mass_ : list R :=
  <[numKoules := shipMass]> (replicate (numKoules + 1) kouleMass).
Definition radius_ : list R :=
  <[numKoules := shipRadius]> (replicate (numKoules + 1) kouleRadius).

Definition getMass (i : nat) : R := mass_ !!! i.
Definition getRadius (i : nat) : R := radius_ !!! i.

(** The bounds the constructor sets on the real vector part: a pair
    (low, high) per coordinate. *)
Definition kouleBounds : list (R * R) :=
  [ (- kouleRadius, sideLength + kouleRadius);
    (- kouleRadius, sideLength + kouleRadius);
    (- 10, 10); (- 10, 10) ].
Definition shipBounds : list (R * R) :=
  [ (shipRadius, sideLength - shipRadius);
    (shipRadius, sideLength - shipRadius);
    (- 10, 10); (- 10, 10) ].
Definition bounds : list (R * R) :=
  mjoin (replicate numKoules kouleBounds) ++ shipBounds.
End StateSpace.

(** Modelled from the spec: [SO2StateSpace::enforceBounds], which is not
    part of the demo; the spec has it re-normalize the ship heading into
    (-pi, pi].  The angle is first reduced with [fmod] to less than a full
    turn and then moved by one turn when it is outside (-pi, pi]. *)
Definition enforceBounds (value : R) : R :=
  let v := fmod value (2 * PI) in
  if decide (v <= - PI) then v + 2 * PI
  else if decide (v > PI) then v - 2 * PI
  else v.

(** ** KoulesStatePropagator (lines 374-537) *)

Section StatePropagator.
Variable numKoules_ : nat.

Definition timeStep_ : R := integrationStepSize.

(** The bang-bang controller at the head of [propagate] (lines 395-409):
    the command [u] derived from the control [cval] and the ship entries
    of [q]. *)
Definition bangBang (cval : R * R) (q : list R) : R * R * R :=
  let offset := (4 * numKoules_)%nat in
  let v0 := fst cval - q !!! (offset + 2)%nat in
  let v1 := snd cval - q !!! (offset + 3)%nat in
  let deltaTheta := signedSO2Distance (atan2 v1 v0) (q !!! (offset + 4)%nat) in
  if decide (v0 * v0 + v1 * v1 > shipDelta * shipDelta) then
    if decide (Rabs deltaTheta < shipEps) then
      (shipAcceleration * cos (q !!! (offset + 4)%nat),
       shipAcceleration * sin (q !!! (offset + 4)%nat),
       0)
    else if decide (deltaTheta > 0) then (0, 0, shipRotVel)
    else (0, 0, - shipRotVel)
  else (0, 0, 0).

(** [ode]: fills [qdot] from [q] and the command [u]. *)
Definition ode_koule (q : list R) (qdot : list R) (k : nat) : list R :=
  let i := (4 * k)%nat in
  let qdot := <[i := q !!! (i + 2)%nat]> qdot in
  let qdot := <[(i + 1)%nat := q !!! (i + 3)%nat]> qdot in
  let qdot := <[(i + 2)%nat :=
                 (0.5 * sideLength - q !!! i) * lambda_c - q !!! (i + 2)%nat * h]> qdot in
  <[(i + 3)%nat :=
     (0.5 * sideLength - q !!! (i + 1)%nat) * lambda_c - q !!! (i + 3)%nat * h]> qdot.

Definition ode (u : R * R * R) (q qdot : list R) : list R :=
  let offset := (4 * numKoules_)%nat in
  let qdot := foldl (ode_koule q) qdot (seq 0 numKoules_) in
  let qdot := <[offset := q !!! (offset + 2)%nat]> qdot in
  let qdot := <[(offset + 1)%nat := q !!! (offset + 3)%nat]> qdot in
  let qdot := <[(offset + 2)%nat := u.1.1]> qdot in
  let qdot := <[(offset + 3)%nat := u.1.2]> qdot in
  <[(offset + 4)%nat := u.2]> qdot.

(** The static tolerance of [checkCollision]; the source declares it a
    [float], it is read as the real number 1e-5. *)
Definition delta : R := 1e-5.

(** The test at the head of [checkCollision] (line 474): close enough and
    moving closer. *)
Definition colliding (i j : nat) (q : list R) : Prop :=
  let a k := q !!! (4 * i + k)%nat in
  let b k := q !!! (4 * j + k)%nat in
  let dx := a 0%nat - b 0%nat in
  let dy := a 1%nat - b 1%nat in
  let dist := dx * dx + dy * dy in
  let minDist := getRadius numKoules_ i + getRadius numKoules_ j + delta in
  dist < minDist * minDist /\
  (b 2%nat - a 2%nat) * dx + (b 3%nat - a 3%nat) * dy > 0.

#[global] Instance colliding_decision i j q : Decision (colliding i j q).
Proof. unfold colliding. apply _. Defined.

(** The elastic response (lines 477-502): the new velocities of [a] and
    [b], as [(aNewVel, bNewVel)]. *)
Definition newVelocities (i j : nat) (q : list R) : (R * R) * (R * R) :=
  let a k := q !!! (4 * i + k)%nat in
  let b k := q !!! (4 * j + k)%nat in
  let dx := a 0%nat - b 0%nat in
  let dy := a 1%nat - b 1%nat in
  let dist := dx * dx + dy * dy in
  let dist := sqrt dist in
  (* compute unit normal and tangent vectors *)
  let normal := (dx / dist, dy / dist) in
  let tangent := (- normal.2, normal.1) in
  (* compute scalar projections of velocities onto normal and tangent vectors *)
  let aNormal := normal.1 * a 2%nat + normal.2 * a 3%nat in
  let aTangentPrime := tangent.1 * a 2%nat + tangent.2 * a 3%nat in
  let bNormal := normal.1 * b 2%nat + normal.2 * b 3%nat in
  let bTangentPrime := tangent.1 * b 2%nat + tangent.2 * b 3%nat in
  (* one-dimensional elastic collision in the normal direction *)
  let massA := getMass numKoules_ i in
  let massB := getMass numKoules_ j in
  let aNormalPrime := (aNormal * (massA - massB) + 2 * massB * bNormal) / (massA + massB) in
  let bNormalPrime := (bNormal * (massB - massA) + 2 * massA * aNormal) / (massA + massB) in
  (* compute new normal and tangential velocity vectors *)
  let aNewNormalVel := (normal.1 * aNormalPrime, normal.2 * aNormalPrime) in
  let aNewTangentVel := (tangent.1 * aTangentPrime, tangent.2 * aTangentPrime) in
  let bNewNormalVel := (normal.1 * bNormalPrime, normal.2 * bNormalPrime) in
  let bNewTangentVel := (tangent.1 * bTangentPrime, tangent.2 * bTangentPrime) in
  (* compute new velocities *)
  let bNewVel := (bNewNormalVel.1 + bNewTangentVel.1, bNewNormalVel.2 + bNewTangentVel.2) in
  let aNewVel := (aNewNormalVel.1 + aNewTangentVel.1, aNewNormalVel.2 + aNewTangentVel.2) in
  (aNewVel, bNewVel).

(** check collision among object i and j;
    compute elastic collision response if i and j collide.
    The vector [q] is updated in place through the pointers
    [a = &q[4 * i]] and [b = &q[4 * j]]. *)
Definition checkCollision (i j : nat) (dt : R) (q : list R) : bool * list R :=
  if decide (colliding i j q) then
    let '(aNewVel, bNewVel) := newVelocities i j q in
    (* update state if collision happens *)
    let q := incr q (4 * i) (aNewVel.1 * dt) in
    let q := incr q (4 * i + 1) (aNewVel.2 * dt) in
    let q := <[(4 * i + 2)%nat := aNewVel.1]> q in
    let q := <[(4 * i + 3)%nat := aNewVel.2]> q in
    let q := incr q (4 * j) (bNewVel.1 * dt) in
    let q := incr q (4 * j + 1) (bNewVel.2 * dt) in
    let q := <[(4 * j + 2)%nat := bNewVel.1]> q in
    let q := <[(4 * j + 3)%nat := bNewVel.2]> q in
    (true, q)
  else (false, q).

(** The three assertions of [checkCollision] (lines 505-509), on the
    velocities before the collision and the new ones. *)
Definition momentumPreserved (massA massB : R) (a b aNewVel bNewVel : R * R) : Prop :=
  Rabs (massA * (a.1 - aNewVel.1) + massB * (b.1 - bNewVel.1)) < 1e-6 /\
  Rabs (massA * (a.2 - aNewVel.2) + massB * (b.2 - bNewVel.2)) < 1e-6.

Definition kineticEnergyPreserved (massA massB : R) (a b aNewVel bNewVel : R * R) : Prop :=
  Rabs (massA * (a.1 * a.1 + a.2 * a.2 - aNewVel.1 * aNewVel.1 - aNewVel.2 * aNewVel.2)
        + massB * (b.1 * b.1 + b.2 * b.2 - bNewVel.1 * bNewVel.1 - bNewVel.2 * bNewVel.2))
  < 1e-6.

(** [update]: the scratch state it works on is the pair of [q] and the
    flags [hasCollision]. *)
Definition collidePair (dt : R) (i : nat) (st : list R * list bool) (j : nat)
  : list R * list bool :=
  let '(q, hasCollision) := st in
  let '(hit, q) := checkCollision i j dt q in
  if hit then (q, <[j := true]> (<[i := true]> hasCollision))
  else (q, hasCollision).

Definition collideRow (dt : R) (st : list R * list bool) (i : nat)
  : list R * list bool :=
  foldl (collidePair dt i) st (seq (i + 1) (numKoules_ - i)).

Definition eulerBody (qdot : list R) (dt : R) (k : nat) (width : nat) (q : list R)
  : list R :=
  foldl (fun q j => incr q (4 * k + j) (qdot !!! (4 * k + j)%nat * dt)) q (seq 0 width).

Definition update (dt : R) (qdot : list R) (st : list R * list bool)
  : list R * list bool :=
  let '(q, hasCollision) := st in
  (* update collisions *)
  let hasCollision := replicate (length hasCollision) false in
  let '(q, hasCollision) := foldl (collideRow dt) (q, hasCollision) (seq 0 numKoules_) in
  (* update objects with no collision according to qdot *)
  let q := foldl (fun q i => if negb (hasCollision !!! i) then eulerBody qdot dt i 4 q else q)
                 q (seq 0 numKoules_) in
  let q := if negb (hasCollision !!! numKoules_) then eulerBody qdot dt numKoules_ 5 q else q in
  (q, hasCollision).

(** One pass of the loop of [propagate]: [ode(u); update(dt)], on the
    scratch vectors [(q, qdot, hasCollision)]. *)
Definition Scratch : Type := list R * list R * list bool.

Definition substep (u : R * R * R) (dt : R) (sc : Scratch) : Scratch :=
  let '(q, qdot, hasCollision) := sc in
  let qdot := ode u q qdot in
  let '(q, hasCollision) := update dt qdot (q, hasCollision) in
  (q, qdot, hasCollision).

(** [propagate].  The scratch vectors [qdot] and [hasCollision] have the
    sizes the constructor gave them; [q] receives the start state. *)
Definition propagate (start : list R) (control : R * R) (duration : R) : list R :=
  let numSteps := Z.to_nat (ceil (duration / timeStep_)) in
  let offset := (4 * numKoules_)%nat in
  let dt := duration / INR numSteps in
  let q := start in
  let u := bangBang control q in
  let '(q, _, _) :=
    Nat.iter numSteps (substep u dt)
      (q, replicate (numDimensions numKoules_) 0, replicate (numKoules_ + 1) false) in
  (* Normalize orientation between -pi and pi *)
  <[(offset + 4)%nat := enforceBounds (q !!! (offset + 4)%nat)]> q.

End StatePropagator.

(** ** KoulesStatePropagator::propagate on the scratch it finds *)

(** [propagate] as the object runs it: [qdot] and [hasCollision] hold
    what the previous call left in them. *)
Definition propagateOn (numKoules_ : nat) (qdot : list R) (hasCollision : list bool)
  (start : list R) (control : R * R) (duration : R) : list R * Scratch :=
  let numSteps := Z.to_nat (ceil (duration / timeStep_)) in
  let offset := (4 * numKoules_)%nat in
  let dt := duration / INR numSteps in
  let q := start in
  let u := bangBang numKoules_ control q in
  let sc := Nat.iter numSteps (substep numKoules_ u dt) (q, qdot, hasCollision) in
  (<[(offset + 4)%nat := enforceBounds (sc.1.1 !!! (offset + 4)%nat)]> sc.1.1, sc).

(** ** Random numbers *)

(** Modelled from the spec: [ompl::RNG], which is not part of the demo.  A
    generator is the sequence of the unit variates it will still produce;
    a draw from [[lo, hi]] scales the next variate into the interval, a
    draw of a count in [[lo, hi]] rounds a real draw down. *)
Definition RNG : Type := nat -> R.

Definition rng_ok (g : RNG) : Prop := forall k, 0 <= g k < 1.

Definition uniform01 (g : RNG) : R * RNG := (g 0%nat, fun k => g (S k)).

Definition uniformReal (lower_bound upper_bound : R) (g : RNG) : R * RNG :=
  let '(u, g) := uniform01 g in
  ((upper_bound - lower_bound) * u + lower_bound, g).

Definition uniformInt (lower_bound upper_bound : nat) (g : RNG) : nat * RNG :=
  let '(x, g) := uniformReal (INR lower_bound) (INR upper_bound + 1) g in
  let r := Z.to_nat (Int_part x) in
  (if decide (upper_bound < r)%nat then upper_bound else r, g).

(** Modelled from the spec: [ompl::RNG::uniformBool], which is not part of
    the demo: a fair choice, made on the next variate. *)
Definition uniformBool (g : RNG) : bool * RNG :=
  let '(u, g) := uniform01 g in (bool_decide (u <= 0.5), g).

(** ** KoulesControlSampler (lines 229-282) *)

(** The sampler holds two generators: the one of [oc::ControlSampler], used
    by [sampleStepCount], and the member [rng_] the class declares itself,
    used by [sample] and [steer]. *)
Record ControlSampler : Type := mkControlSampler {
  base_rng_ : RNG;
  rng_ : RNG
}.

Section ControlSampler.
(** [space_->getStateSpace()->getDimension()] *)
Variable dim : nat.

(** The bounds of the control space, as [koulesSetup] sets them. *)
Definition cbounds_low : R := shipVmin.
Definition cbounds_high : R := shipVmax.

(** Sample random velocity with magnitude between vmin and vmax and
    orientation uniformly random over [0, 2*pi]. *)
Definition sample (cs : ControlSampler) : (R * R) * ControlSampler :=
  let '(r, g) := uniformReal cbounds_low cbounds_high (rng_ cs) in
  let '(theta, g) := uniformReal 0 (2 * PI) g in
  ((r * cos theta, r * sin theta), mkControlSampler (base_rng_ cs) g).

Definition steer (state : list R) (x y : R) (cs : ControlSampler)
  : (R * R) * ControlSampler :=
  let r := state in
  let dx := x - r !!! (dim - 5)%nat in
  let dy := y - r !!! (dim - 4)%nat in
  let xNrm2 := dx * dx + dy * dy in
  if decide (xNrm2 > float_epsilon) then
    let '(m, g) := uniformReal cbounds_low cbounds_high (rng_ cs) in
    let v := m / sqrt xNrm2 in
    ((v * dx, v * dy), mkControlSampler (base_rng_ cs) g)
  else sample cs.

(** Modelled from the spec: [oc::ControlSampler::sampleStepCount], which is
    not part of the demo: a randomly sampled count in [[minSteps, maxSteps]]. *)
Definition sampleStepCount (minSteps maxSteps : nat) (cs : ControlSampler)
  : nat * ControlSampler :=
  let '(n, g) := uniformInt minSteps maxSteps (base_rng_ cs) in
  (n, mkControlSampler g (rng_ cs)).
End ControlSampler.

(** ** KoulesControlSampler::sample with a state (lines 251-258) *)

(** [steer] toward a random point of the workspace.  The two draws are
    arguments of one call, so the order in which they are made is the
    compiler's choice: [xFirst] tells whether [x] is drawn first. *)
Definition sampleFrom (dim : nat) (xFirst : bool) (state : list R) (cs : ControlSampler)
  : (R * R) * ControlSampler :=
  let '(a, g) := uniformReal 0 sideLength (rng_ cs) in
  let '(b, g) := uniformReal 0 sideLength g in
  let cs := mkControlSampler (base_rng_ cs) g in
  if xFirst then steer dim state a b cs else steer dim state b a cs.

(** ** KoulesGoal (lines 541-599) *)

Section Goal.
Variable numKoules_ : nat.

Definition threshold_ : R := 0.01.

Definition distanceGoal (st : list R) : R :=
  let v := st in
  (* the shortest distance between any koule and an edge *)
  let minDist :=
    foldl (fun minDist i =>
             let minX := Rmin (v !!! (4 * i)%nat) (sideLength - v !!! (4 * i)%nat) in
             let minY := Rmin (v !!! (4 * i + 1)%nat) (sideLength - v !!! (4 * i + 1)%nat) in
             Rmin minDist (Rmin minX minY - kouleRadius + threshold_))
          sideLength (seq 0 numKoules_) in
  if decide (minDist < 0) then 0 else minDist.

(** Modelled from the spec: [ob::GoalRegion::isSatisfied], which is not part
    of the demo: the goal is satisfied when the distance to the goal is
    within the goal threshold. *)
Definition isSatisfied (st : list R) : bool :=
  bool_decide (distanceGoal st <= threshold_).

(** Modelled from the spec: [si->satisfiesBounds], which is not part of the
    demo: all coordinates within the configured bounds. *)
Definition isStateValid (state : list R) : bool :=
  bool_decide (Forall2 (fun x b => b.1 <= x <= b.2)
                       (take (4 * (numKoules_ + 1)) state) (bounds numKoules_)).
End Goal.

(** ** KoulesGoal::sampleGoal (lines 574-593) *)

(** [sampleGoal], on the state [sampled] that [sampleUniform] produced. *)
Definition sampleGoal (numKoules_ : nat) (sampled : list R) (rng_ : RNG) : list R * RNG :=
  foldl (fun '(v, rng_) i =>
           (* randomly pick an edge for each koule to collide *)
           let '(b, rng_) := uniformBool rng_ in
           if b then
             let '(c, rng_) := uniformBool rng_ in
             let v := <[(4 * i)%nat := if c then 0 else sideLength]> v in
             let '(y, rng_) := uniformReal 0 sideLength rng_ in
             (<[(4 * i + 1)%nat := y]> v, rng_)
           else
             let '(x, rng_) := uniformReal 0 sideLength rng_ in
             let v := <[(4 * i)%nat := x]> v in
             let '(c, rng_) := uniformBool rng_ in
             (<[(4 * i + 1)%nat := if c then 0 else sideLength]> v, rng_))
        (sampled, rng_) (seq 0 numKoules_).

(** ** States on the heap *)

(** [sampleTo] works on states through pointers that may alias.  A heap
    maps an address to the state stored there; the addresses below [next]
    are in use, [allocState] hands out the next one and [freeState] is
    not modelled (an address is never used again). *)
Record Heap : Type := mkHeap {
  cells : nat -> list R;
  next : nat
}.

Definition load (hp : Heap) (p : nat) : list R := cells hp p.

Definition store (hp : Heap) (p : nat) (s : list R) : Heap :=
  mkHeap (<[p := s]> (cells hp)) (next hp).

Definition copyState (hp : Heap) (destination source : nat) : Heap :=
  store hp destination (load hp source).

Definition allocState (dim : nat) (hp : Heap) : nat * Heap :=
  (next hp, mkHeap (<[next hp := replicate dim 0]> (cells hp)) (S (next hp))).

(** ** KoulesDirectedControlSampler (lines 285-361) *)

Section DirectedControlSampler.
(** The collaborators [sampleTo] calls through [si_], [goal_] and
    [statePropagator_]. *)
Variable dim : nat.
Variable getPropagationStepSize : R.
Variable getMinControlDuration getMaxControlDuration : nat.
Variable propagate : list R -> R * R -> R -> list R.
Variable goal_isSatisfied : list R -> bool.
Variable si_isValid : list R -> bool.
Variable propagateMax_ : bool.

Section Loop.
Variable control : R * R.
Variable stepSize : R.
Variable steps : nat.
Variable dest : nat.

(** After the loop (lines 334-339): make sure [dest] holds the last valid
    state, which is [temp1]. *)
Definition sampleTo_finish (r : nat) (temp1 : nat) (hp : Heap) : nat * Heap :=
  (r, if decide (dest <> temp1) then copyState hp dest temp1 else hp).

(** The for-loop (lines 316-333), entered with counter [i] and [fuel]
    passes left to run. *)
Fixpoint sampleTo_loop (fuel i : nat) (temp1 temp2 : nat) (hp : Heap) : nat * Heap :=
  match fuel with
  | O => sampleTo_finish steps temp1 hp
  | S fuel =>
      let hp := store hp temp2 (propagate (load hp temp1) control stepSize) in
      if goal_isSatisfied (load hp dest) then
        (i + 1, copyState hp dest temp2)%nat
      else if si_isValid (load hp temp2) then
        sampleTo_loop fuel (S i) temp2 temp1 hp
      else
        (* the last valid state is temp1 *)
        sampleTo_finish i temp1 hp
  end.
End Loop.

Definition sampleTo (cs_ : ControlSampler) (hp : Heap) (source dest : nat)
  : nat * (R * R) * Heap * ControlSampler :=
  let dstPos := load hp dest in
  let stepSize := getPropagationStepSize in
  let '(steps, cs_) :=
    if propagateMax_ then (getMaxControlDuration, cs_)
    else sampleStepCount getMinControlDuration getMaxControlDuration cs_ in
  let '(control, cs_) :=
    steer dim (load hp source) (dstPos !!! (dim - 5)%nat) (dstPos !!! (dim - 4)%nat) cs_ in
  (* perform the first step of propagation *)
  let hp := store hp dest (propagate (load hp source) control stepSize) in
  (* if we reached the goal, we're done *)
  if goal_isSatisfied (load hp dest) then (1%nat, control, hp, cs_)
  (* if we found a valid state after one step, we can go on *)
  else if si_isValid (load hp dest) then
    let temp1 := dest in
    let '(temp2, hp) := allocState dim hp in
    let '(r, hp) := sampleTo_loop control stepSize steps dest (steps - 1) 1 temp1 temp2 hp in
    (r, control, hp, cs_)
  (* if the first propagation step produced an invalid step, return 0 steps
     the last valid state is the starting one (assumed to be valid) *)
  else
    let hp := if decide (dest <> source) then copyState hp dest source else hp in
    (0%nat, control, hp, cs_).
End DirectedControlSampler.

(** The directed sampler of a Koules problem with [numKoules] koules, as
    [koulesSetup] wires it. *)
Definition koulesSampleTo (numKoules : nat) (propagateMax : bool) :=
  sampleTo (numDimensions numKoules) propagationStepSize
           propagationMinSteps propagationMaxSteps
           (propagate numKoules) (isSatisfied numKoules) (isStateValid numKoules)
           propagateMax.

(** ** koulesSetup (lines 627-698): the start state *)

(** Pick koule positions evenly radially distributed, but at a linearly
    increasing distance from the center. The ship's initial position is
    at the center. Initial velocities are 0. *)
Definition defaultStart (numKoules : nat) : list R :=
  let startVec := replicate (numDimensions numKoules) 0 in
  let theta := PI in
  let delta := 2 * theta / INR numKoules in
  let '(startVec, theta) :=
    foldl (fun '(startVec, theta) i =>
             let r := 0.1 + INR i * 0.1 / INR numKoules in
             let startVec := <[(4 * i)%nat := 0.5 * sideLength + r * cos theta]> startVec in
             let startVec := <[(4 * i + 1)%nat := 0.5 * sideLength + r * sin theta]> startVec in
             (startVec, theta + delta))
          (startVec, theta) (seq 0 numKoules) in
  let startVec := <[(4 * numKoules)%nat := 0.5 * sideLength]> startVec in
  let startVec := <[(4 * numKoules + 1)%nat := 0.5 * sideLength]> startVec in
  <[(4 * numKoules + 4)%nat := 0.5 * delta]> startVec.

(** The start state [koulesSetup] sets: [stateVec] when it has the
    dimension of the space, the default layout otherwise. *)
Definition startState (numKoules : nat) (stateVec : list R) : list R :=
  if decide (length stateVec = numDimensions numKoules) then stateVec
  else defaultStart numKoules.

(** The second [koulesSetup]: the default start with a velocity of
    magnitude [kouleVel] in a random direction for each koule. *)
Definition startStateWithVelocity (numKoules : nat) (kouleVel : R) (rng : RNG)
  : list R * RNG :=
  foldl (fun '(state, rng) i =>
           let '(theta, rng) := uniformReal 0 (2 * PI) rng in
           let state := <[(4 * i + 2)%nat := kouleVel * cos theta]> state in
           let state := <[(4 * i + 3)%nat := kouleVel * sin theta]> state in
           (state, rng))
        (startState numKoules [], rng) (seq 0 numKoules).

(** ** planAllLevelsRecursive (lines 771-784) *)

(** include koule in next state if it is within workspace *)
Definition withinWorkspace (s : list R) (j : nat) : Prop :=
  Rmin (s !!! j) (s !!! (j + 1)%nat) > kouleRadius /\
  Rmax (s !!! j) (s !!! (j + 1)%nat) < sideLength - kouleRadius.

#[global] Instance withinWorkspace_decision s j : Decision (withinWorkspace s j).
Proof. unfold withinWorkspace. apply _. Defined.

(** The start vector of the next level, from the final state [s] of the
    solution path.  The first loop runs over [j = 0, 4, 8, ...] below
    [s.size() - 5]. *)
Definition nextStart (s : list R) : list R :=
  let nextStart :=
    foldl (fun nextStart i =>
             let j := (4 * i)%nat in
             if decide (withinWorkspace s j) then
               foldl (fun nextStart k => nextStart ++ [s !!! (j + k)%nat]) nextStart (seq 0 4)
             else nextStart)
          [] (seq 0 ((length s - 5 + 3) / 4)) in
  (* add ship's state *)
  foldl (fun nextStart j => nextStart ++ [s !!! j]) nextStart (seq (length s - 5) 5).

(** [(v.size() - 5) / 4]: the number of koules of a state vector. *)
Definition numKoulesOf (v : list R) : nat := (length v - 5) / 4.

(** * Vocabulary of the properties *)

(** The three cases of the bang-bang command, for a reading [below] of
    "the magnitude of the velocity error is below the threshold". *)
Definition commandCases (below : R -> R -> Prop) (numKoules : nat)
  (cval : R * R) (q : list R) : Prop :=
  let offset := (4 * numKoules)%nat in
  let heading := q !!! (offset + 4)%nat in
  let v := (cval.1 - q !!! (offset + 2)%nat, cval.2 - q !!! (offset + 3)%nat) in
  let magnitude := sqrt (v.1 * v.1 + v.2 * v.2) in
  let deltaTheta := signedSO2Distance (atan2 v.2 v.1) heading in
  let u := bangBang numKoules cval q in
  (below magnitude shipDelta /\ u = (0, 0, 0)) \/
  (~ below magnitude shipDelta /\ Rabs deltaTheta < shipEps /\
   u = (shipAcceleration * cos heading, shipAcceleration * sin heading, 0)) \/
  (~ below magnitude shipDelta /\ ~ Rabs deltaTheta < shipEps /\
   ((0 < deltaTheta /\ u = (0, 0, shipRotVel)) \/
    (deltaTheta < 0 /\ u = (0, 0, - shipRotVel)))).

(** A koule's distance to the nearest of the four edges of the arena,
    minus its radius, plus the threshold. *)
Definition edgeDistance (v : list R) (i : nat) : R :=
  let x := v !!! (4 * i)%nat in
  let y := v !!! (4 * i + 1)%nat in
  Rmin (Rmin x (sideLength - x)) (Rmin y (sideLength - y)) - kouleRadius + threshold_.

(** The length of a vector and the vector scaled to length one. *)
Definition norm2 (w : R * R) : R := sqrt (w.1 * w.1 + w.2 * w.2).
Definition normalized (w : R * R) : R * R := (w.1 / norm2 w, w.2 / norm2 w).

(** What a vector keeps of the vector [q0] it stems from: its length and
    the entry [k]. *)
Definition keeps (q0 : list R) (k : nat) (q : list R) : Prop :=
  length q = length q0 /\ q !!! k = q0 !!! k.

(** The step budget and the control [sampleTo] draws. *)
Definition stepBudget (minDuration maxDuration : nat) (propagateMax : bool)
  (cs : ControlSampler) : nat * ControlSampler :=
  if propagateMax then (maxDuration, cs)
  else sampleStepCount minDuration maxDuration cs.

Definition steeredControl (dim minDuration maxDuration : nat) (propagateMax : bool)
  (cs : ControlSampler) (hp : Heap) (source dest : nat) : (R * R) * ControlSampler :=
  steer dim (load hp source) (load hp dest !!! (dim - 5)%nat)
        (load hp dest !!! (dim - 4)%nat)
        (stepBudget minDuration maxDuration propagateMax cs).2.

(** The state after [k] propagation steps from [x0] under [control]. *)
Definition stateAfter (stepSize : R) (propagate : list R -> R * R -> R -> list R)
  (control : R * R) (x0 : list R) (k : nat) : list R :=
  Nat.iter k (fun s => propagate s control stepSize) x0.

(** What the three ways to draw a control have in common: a magnitude
    within the speed limits of the ship, a generator that is as good as
    before, and the generator of the base class untouched. *)
Definition speedWithinLimits (cs : ControlSampler) (res : (R * R) * ControlSampler) : Prop :=
  shipVmin <= norm2 res.1 <= shipVmax /\
  rng_ok (rng_ res.2) /\ base_rng_ res.2 = base_rng_ cs.

(** No state of the trajectory [x] that is reached through valid states
    within [steps] steps satisfies the goal. *)
Definition goalFree (isSatisfied isValid : list R -> bool) (x : nat -> list R)
  (steps : nat) : Prop :=
  forall j, (1 <= j <= steps)%nat ->
    (forall k, (1 <= k < j)%nat -> isValid (x k) = true) ->
    isSatisfied (x j) = false.

(** What a run of [sampleTo] guarantees about the count [r] it returns and
    the heap [hp'] it leaves, from the heap [hp], along the trajectory
    [x], when the loop is entered with counter [i] and uses the address
    [temp] besides [dest]. *)
Definition loopResult (isSatisfied isValid : list R -> bool) (x : nat -> list R)
  (steps dest temp i : nat) (hp : Heap) (res : nat * Heap) : Prop :=
  (i <= res.1 <= steps)%nat /\
  load res.2 dest = x res.1 /\
  (forall j, (1 <= j < res.1)%nat -> isValid (x j) = true) /\
  (forall p, p <> dest -> p <> temp -> load res.2 p = load hp p) /\
  (goalFree isSatisfied isValid x steps ->
   isValid (x res.1) = true /\ (res.1 < steps -> isValid (x (S res.1)) = false)%nat).

(** The four entries of the body that starts at entry [4 * i] of [s]. *)
Definition block (s : list R) (i : nat) : list R :=
  [s !!! (4 * i)%nat; s !!! (4 * i + 1)%nat; s !!! (4 * i + 2)%nat; s !!! (4 * i + 3)%nat].

(** The koules of a state with [n] koules that are within the workspace,
    in the order of the state. *)
Definition kept (n : nat) (s : list R) : list nat :=
  filter (fun i => withinWorkspace s (4 * i)) (seq 0 n).

(** Koule [i] of [s] is within the bounds the state space sets for a
    koule; the ship of a state with [n] koules is within its bounds. *)
Definition kouleInBounds (s : list R) (i : nat) : Prop :=
  (- kouleRadius <= s !!! (4 * i)%nat <= sideLength + kouleRadius /\
   - kouleRadius <= s !!! (4 * i + 1)%nat <= sideLength + kouleRadius) /\
  (- 10 <= s !!! (4 * i + 2)%nat <= 10 /\ - 10 <= s !!! (4 * i + 3)%nat <= 10).

Definition shipInBounds (n : nat) (s : list R) : Prop :=
  (shipRadius <= s !!! (4 * n)%nat <= sideLength - shipRadius /\
   shipRadius <= s !!! (4 * n + 1)%nat <= sideLength - shipRadius) /\
  (- 10 <= s !!! (4 * n + 2)%nat <= 10 /\ - 10 <= s !!! (4 * n + 3)%nat <= 10).

(** Where [koulesSetup] puts koule [i] of [n] by default: at the distance
    [defaultRadius] from the center, in the direction [defaultAngle]. *)
Definition defaultRadius (n i : nat) : R := 0.1 + INR i * 0.1 / INR n.
Definition defaultAngle (n i : nat) : R := PI + INR i * (2 * PI / INR n).

(** Koule [i] of [v] sits on an edge of the workspace, at a point of that
    edge. *)
Definition onEdge (v : list R) (i : nat) : Prop :=
  let x := v !!! (4 * i)%nat in
  let y := v !!! (4 * i + 1)%nat in
  ((x = 0 \/ x = sideLength) /\ 0 <= y <= sideLength) \/
  (0 <= x <= sideLength /\ (y = 0 \/ y = sideLength)).

(** The derivative of koule [i], as [ode] writes it. *)
Definition kouleDerivative (q qdot : list R) (i : nat) : Prop :=
  qdot !!! (4 * i)%nat = q !!! (4 * i + 2)%nat /\
  qdot !!! (4 * i + 1)%nat = q !!! (4 * i + 3)%nat /\
  qdot !!! (4 * i + 2)%nat
  = (0.5 * sideLength - q !!! (4 * i)%nat) * lambda_c - q !!! (4 * i + 2)%nat * h /\
  qdot !!! (4 * i + 3)%nat
  = (0.5 * sideLength - q !!! (4 * i + 1)%nat) * lambda_c - q !!! (4 * i + 3)%nat * h.

(** The derivative of the ship under the command [u]. *)
Definition shipDerivative (n : nat) (u : R * R * R) (q qdot : list R) : Prop :=
  qdot !!! (4 * n)%nat = q !!! (4 * n + 2)%nat /\
  qdot !!! (4 * n + 1)%nat = q !!! (4 * n + 3)%nat /\
  qdot !!! (4 * n + 2)%nat = u.1.1 /\
  qdot !!! (4 * n + 3)%nat = u.1.2 /\
  qdot !!! (4 * n + 4)%nat = u.2.

(** No two bodies of [q] collide. *)
Definition collisionFree (n : nat) (q : list R) : Prop :=
  forall i j, (i < j <= n)%nat -> ~ colliding n i j q.

(** Of a state [st] of the collision loops of [update], started from [q]:
    the vectors have their sizes, and a body that is not flagged has the
    position and velocity it has in [q]. *)
Definition unflaggedAsIn (n : nat) (q : list R) (st : list R * list bool) : Prop :=
  length st.1 = length q /\ length st.2 = (n + 1)%nat /\
  forall b, (b <= n)%nat -> st.2 !!! b = false ->
    forall c, (c < 4)%nat -> st.1 !!! (4 * b + c)%nat = q !!! (4 * b + c)%nat.

(** ** Example states *)

(** A koule at the center that runs into the ship. *)
Definition head_on : list R := [0.5; 0.5; 1; 0; 0.54; 0.5; 0; 0; 0].

(** A koule and the ship far apart. *)
Definition far_apart : list R := [0.2; 0.5; 0; 0; 0.8; 0.5; 0; 0; 0].

(** The ship alone, flying along its heading at 0.275, asked for 0.3: the
    velocity error is exactly [shipDelta]. *)
Definition at_threshold : list R := [0.5; 0.5; 0.275; 0; 0].

(** One koule on the horizontal line through the center and the ship at
    cruise speed on that line, heading along it: the koule is at [x] with
    speed [v], the ship at [s]. *)
Definition cruise (p : R * R * R) : list R :=
  [p.1.1; 0.5; p.1.2; 0; p.2; 0.5; 0.05; 0; 0].

(** One Euler step of size 0.01 of that system when nothing collides and
    the ship does not thrust. *)
Definition flight (p : R * R * R) : R * R * R :=
  (p.1.1 + p.1.2 * 0.01,
   p.1.2 + ((0.5 - p.1.1) * 4 - p.1.2 * 0.05) * 0.01,
   p.2 + 0.05 * 0.01).

(** The five Euler steps of one propagation step. *)
Definition leg (p : R * R * R) : R * R * R := Nat.iter 5 flight p.

(** The koule is well to the right of the ship. *)
Definition apart (p : R * R * R) : Prop := 0.1 <= p.1.1 - p.2.

(** A scratch state of the propagator of a one-koule problem. *)
Definition scratch1 (sc : Scratch) : Prop :=
  length sc.1.2 = 9%nat /\ length sc.2 = 2%nat.

(** The start of the run: the koule at 0.96 moving to the right edge at
    speed 0.5, the ship at 0.2. *)
Definition p0 : R * R * R := (0.96, 0.5, 0.2).

(** A koule that crosses the arena to the left at the largest speed the
    bounds allow: after one step it is faster than that. *)
Definition speeding : R * R * R := (0.9, - 10, 0.2).

(** The koule has reached the right edge. *)
Definition escaped : R * R * R := (0.999, 0, 0.2).

(** A generator that only produces the variate 0: every draw returns the
    lower bound of its interval. *)
Definition cs0 : ControlSampler := mkControlSampler (fun _ => 0) (fun _ => 0).

(** The state the planner steers to: its ship is at the center. *)
Definition target : list R := [0.3; 0.3; 0; 0; 0.5; 0.5; 0; 0; 0].

(** The source state at address 0 and the target at address 1. *)
Definition heapOf (source : list R) : Heap :=
  store (store (mkHeap (fun _ => []) 2) 0 source) 1 target.

(** Evaluates the reads and writes of a vector that is given entry by
    entry, and leaves the reals alone. *)
Ltac vec_eval :=
  cbn [lookup_total list_lookup_total insert list_insert replicate length seq foldl
       incr Nat.mul Nat.add Nat.sub fst snd].

(** Names the result of the innermost [flight] of the goal and keeps its
    three defining equations. *)
Ltac fly :=
  repeat match goal with
  | |- context [flight (?x, ?v, ?s)] =>
      let a := fresh "x" in
      let b := fresh "v" in
      let c := fresh "s" in
      let E := fresh "E" in
      assert (E : flight (x, v, s)
                  = (x + v * 0.01, v + ((0.5 - x) * 4 - v * 0.05) * 0.01, s + 0.05 * 0.01))
        by reflexivity;
      remember (x + v * 0.01) as a in E;
      remember (v + ((0.5 - x) * 4 - v * 0.05) * 0.01) as b in E;
      remember (s + 0.05 * 0.01) as c in E;
      rewrite !E; clear E
  end.

(** * Properties *)

(** ** Vectors *)

Lemma length_incr q k d : length (incr q k d) = length q.
Proof. apply length_insert. Qed.

Lemma lookup_incr_eq q k d : (k < length q)%nat -> incr q k d !!! k = q !!! k + d.
Proof. intros Hk. unfold incr. by rewrite list_lookup_total_insert_eq. Qed.

Lemma lookup_incr_ne q k k' d : k <> k' -> incr q k d !!! k' = q !!! k'.
Proof. intros Hk. unfold incr. by rewrite list_lookup_total_insert_ne. Qed.

(** Reads through the writes of a vector. *)
Ltac vec_length := repeat first [rewrite length_insert | rewrite length_incr]; lia.

Ltac vec_simpl :=
  repeat first
    [ rewrite length_insert
    | rewrite length_incr
    | rewrite lookup_incr_ne by lia
    | rewrite list_lookup_total_insert_ne by lia
    | rewrite lookup_incr_eq by vec_length
    | rewrite list_lookup_total_insert_eq by vec_length ].

(** ** Masses and radii *)

Lemma getMass_koule n i : (i < n)%nat -> getMass n i = kouleMass.
Proof.
  intros Hi. unfold getMass, mass_.
  rewrite list_lookup_total_insert_ne by lia.
  apply lookup_total_replicate_2. lia.
Qed.

Lemma getMass_ship n : getMass n n = shipMass.
Proof.
  unfold getMass, mass_.
  apply list_lookup_total_insert_eq. rewrite length_replicate. lia.
Qed.

Lemma getMass_pos n i : (i <= n)%nat -> 0 < getMass n i.
Proof.
  intros Hi. destruct (decide (i = n)) as [->|Hne].
  - rewrite getMass_ship. unfold shipMass. lra.
  - rewrite getMass_koule by lia. unfold kouleMass. lra.
Qed.

Lemma getRadius_koule n i : (i < n)%nat -> getRadius n i = kouleRadius.
Proof.
  intros Hi. unfold getRadius, radius_.
  rewrite list_lookup_total_insert_ne by lia.
  apply lookup_total_replicate_2. lia.
Qed.

Lemma getRadius_ship n : getRadius n n = shipRadius.
Proof.
  unfold getRadius, radius_.
  apply list_lookup_total_insert_eq. rewrite length_replicate. lia.
Qed.

(** ** The elastic collision formula *)

(** The one-dimensional exchange preserves momentum and kinetic energy. *)
Lemma elastic_1d (mA mB aN bN : R) :
  mA + mB <> 0 ->
  let aN' := (aN * (mA - mB) + 2 * mB * bN) / (mA + mB) in
  let bN' := (bN * (mB - mA) + 2 * mA * aN) / (mA + mB) in
  mA * (aN - aN') + mB * (bN - bN') = 0 /\
  mA * (aN * aN - aN' * aN') + mB * (bN * bN - bN' * bN') = 0.
Proof. intros Hm aN' bN'. subst aN' bN'. split; field; assumption. Qed.

(** The normal of a collision is a unit vector. *)
Lemma unit_normal dx dy :
  0 < dx * dx + dy * dy ->
  let d := sqrt (dx * dx + dy * dy) in
  (dx / d) * (dx / d) + (dy / d) * (dy / d) = 1.
Proof.
  intros Hpos d.
  assert (Hd : 0 < d) by (apply sqrt_lt_R0; exact Hpos).
  assert (Hdd : d * d = dx * dx + dy * dy) by (apply sqrt_sqrt; lra).
  field_simplify_eq; [|lra]. lra.
Qed.

(** The response of [checkCollision], with the normal [(nx, ny)] and the
    tangent [(- ny, nx)]. *)
Lemma elastic_2d (mA mB nx ny ax ay bx by_ : R) :
  mA + mB <> 0 -> nx * nx + ny * ny = 1 ->
  let aN := nx * ax + ny * ay in
  let aT := - ny * ax + nx * ay in
  let bN := nx * bx + ny * by_ in
  let bT := - ny * bx + nx * by_ in
  let aN' := (aN * (mA - mB) + 2 * mB * bN) / (mA + mB) in
  let bN' := (bN * (mB - mA) + 2 * mA * aN) / (mA + mB) in
  let a'x := nx * aN' + - ny * aT in
  let a'y := ny * aN' + nx * aT in
  let b'x := nx * bN' + - ny * bT in
  let b'y := ny * bN' + nx * bT in
  mA * (ax - a'x) + mB * (bx - b'x) = 0 /\
  mA * (ay - a'y) + mB * (by_ - b'y) = 0 /\
  mA * (ax * ax + ay * ay - a'x * a'x - a'y * a'y)
  + mB * (bx * bx + by_ * by_ - b'x * b'x - b'y * b'y) = 0.
Proof.
  intros Hm Hu aN aT bN bT aN' bN' a'x a'y b'x b'y.
  destruct (elastic_1d mA mB aN bN Hm) as [H1 H2]. fold aN' bN' in H1, H2.
  assert (Eax : ax = nx * aN + - ny * aT).
  { subst aN aT. transitivity ((nx * nx + ny * ny) * ax); [rewrite Hu|]; ring. }
  assert (Eay : ay = ny * aN + nx * aT).
  { subst aN aT. transitivity ((nx * nx + ny * ny) * ay); [rewrite Hu|]; ring. }
  assert (Ebx : bx = nx * bN + - ny * bT).
  { subst bN bT. transitivity ((nx * nx + ny * ny) * bx); [rewrite Hu|]; ring. }
  assert (Eby : by_ = ny * bN + nx * bT).
  { subst bN bT. transitivity ((nx * nx + ny * ny) * by_); [rewrite Hu|]; ring. }
  clearbody aN aT bN bT aN' bN'. subst a'x a'y b'x b'y.
  split; [|split].
  - rewrite Eax, Ebx.
    transitivity (nx * (mA * (aN - aN') + mB * (bN - bN'))); [ring|rewrite H1; ring].
  - rewrite Eay, Eby.
    transitivity (ny * (mA * (aN - aN') + mB * (bN - bN'))); [ring|rewrite H1; ring].
  - rewrite Eax, Eay, Ebx, Eby.
    transitivity ((nx * nx + ny * ny) *
                  (mA * (aN * aN - aN' * aN') + mB * (bN * bN - bN' * bN'))).
    + ring.
    + rewrite H2. ring.
Qed.

(** ** checkCollision *)

(** Two bodies that are moving closer have distinct centers. *)
Lemma colliding_apart n i j q :
  colliding n i j q ->
  0 < (q !!! (4 * i)%nat - q !!! (4 * j)%nat) * (q !!! (4 * i)%nat - q !!! (4 * j)%nat)
    + (q !!! (4 * i + 1)%nat - q !!! (4 * j + 1)%nat)
      * (q !!! (4 * i + 1)%nat - q !!! (4 * j + 1)%nat).
Proof.
  unfold colliding. rewrite !Nat.add_0_r. intros [_ Happroach].
  set (dx := q !!! (4 * i)%nat - q !!! (4 * j)%nat) in *.
  set (dy := q !!! (4 * i + 1)%nat - q !!! (4 * j + 1)%nat) in *.
  destruct (Rle_lt_dec (dx * dx + dy * dy) 0) as [Hle|]; [|assumption].
  assert (dx = 0) by nra. assert (dy = 0) by nra.
  rewrite H, H0 in Happroach. lra.
Qed.

Lemma checkCollision_hit n i j dt q :
  colliding n i j q ->
  checkCollision n i j dt q =
    (true,
     let '(aNewVel, bNewVel) := newVelocities n i j q in
     <[(4 * j + 3)%nat := bNewVel.2]>
       (<[(4 * j + 2)%nat := bNewVel.1]>
          (incr (incr (<[(4 * i + 3)%nat := aNewVel.2]>
                         (<[(4 * i + 2)%nat := aNewVel.1]>
                            (incr (incr q (4 * i) (aNewVel.1 * dt))
                                  (4 * i + 1) (aNewVel.2 * dt))))
                      (4 * j) (bNewVel.1 * dt))
                (4 * j + 1) (bNewVel.2 * dt)))).
Proof.
  intros Hc. unfold checkCollision. rewrite decide_True by assumption.
  by destruct (newVelocities n i j q).
Qed.

Lemma checkCollision_miss n i j dt q :
  ~ colliding n i j q -> checkCollision n i j dt q = (false, q).
Proof. intros Hc. unfold checkCollision. by rewrite decide_False. Qed.

Lemma checkCollision_fst n i j dt q :
  (checkCollision n i j dt q).1 = true <-> colliding n i j q.
Proof.
  destruct (decide (colliding n i j q)) as [Hc|Hc].
  - rewrite checkCollision_hit by assumption. simpl. tauto.
  - rewrite checkCollision_miss by assumption. simpl. split; [discriminate|tauto].
Qed.

Lemma head_on_colliding : colliding 1 0 1 head_on.
Proof.
  unfold colliding. rewrite (getRadius_koule 1 0) by lia. rewrite (getRadius_ship 1).
  unfold head_on, kouleRadius, shipRadius, delta. vec_eval. split; lra.
Qed.

Lemma far_apart_not_colliding : ~ colliding 1 0 1 far_apart.
Proof.
  unfold colliding. rewrite (getRadius_koule 1 0) by lia. rewrite (getRadius_ship 1).
  unfold far_apart, kouleRadius, shipRadius, delta. vec_eval. intros [H1 H2]. lra.
Qed.

(** C6: [checkCollision] reports a collision if and only if the squared
    distance of the centers is less than [(radiusA + radiusB + 1e-5)^2] and
    the relative velocity projected onto the separation of the centers is
    negative; when it reports none, the state is unchanged. *)
Theorem checkCollision_detects n i j dt q :
  let pa := (q !!! (4 * i)%nat, q !!! (4 * i + 1)%nat) in
  let pb := (q !!! (4 * j)%nat, q !!! (4 * j + 1)%nat) in
  let va := (q !!! (4 * i + 2)%nat, q !!! (4 * i + 3)%nat) in
  let vb := (q !!! (4 * j + 2)%nat, q !!! (4 * j + 3)%nat) in
  let squaredDistance := (pa.1 - pb.1) ^ 2 + (pa.2 - pb.2) ^ 2 in
  let closing := (va.1 - vb.1) * (pa.1 - pb.1) + (va.2 - vb.2) * (pa.2 - pb.2) in
  ((checkCollision n i j dt q).1 = true <->
   squaredDistance < (getRadius n i + getRadius n j + 1e-5) ^ 2 /\ closing < 0) /\
  ((checkCollision n i j dt q).1 = false -> (checkCollision n i j dt q).2 = q).
Proof.
  intros pa pb va vb squaredDistance closing. split.
  - rewrite checkCollision_fst. unfold colliding, delta.
    subst pa pb va vb squaredDistance closing. cbn [fst snd].
    rewrite !Nat.add_0_r. split; intros [H1 H2]; split; nra.
  - destruct (decide (colliding n i j q)) as [Hc|Hc].
    + rewrite checkCollision_hit by assumption. discriminate.
    + rewrite checkCollision_miss by assumption. reflexivity.
Qed.

(** At [far_apart] no collision is reported and the state is unchanged. *)
Lemma checkCollision_detects_witness :
  (checkCollision 1 0 1 0.01 far_apart).1 = false /\
  (checkCollision 1 0 1 0.01 far_apart).2 = far_apart.
Proof.
  assert (H : (checkCollision 1 0 1 0.01 far_apart).1 = false).
  { rewrite checkCollision_miss; [reflexivity|apply far_apart_not_colliding]. }
  split; [exact H|].
  exact (proj2 (checkCollision_detects 1 0 1 0.01 far_apart) H).
Defined.

(** C2: for a pair [i < j] that [checkCollision] reports as colliding, the
    velocities it writes back have the momentum (componentwise) and the
    kinetic energy of the velocities before the collision, exactly over
    the reals, so that the three assertions of the source hold. *)
Theorem collision_conserves n i j dt q :
  (i < j <= n)%nat -> length q = numDimensions n ->
  (checkCollision n i j dt q).1 = true ->
  let q' := (checkCollision n i j dt q).2 in
  let m1 := getMass n i in
  let m2 := getMass n j in
  let v1 := (q !!! (4 * i + 2)%nat, q !!! (4 * i + 3)%nat) in
  let v2 := (q !!! (4 * j + 2)%nat, q !!! (4 * j + 3)%nat) in
  let v1' := (q' !!! (4 * i + 2)%nat, q' !!! (4 * i + 3)%nat) in
  let v2' := (q' !!! (4 * j + 2)%nat, q' !!! (4 * j + 3)%nat) in
  (m1 * v1.1 + m2 * v2.1 = m1 * v1'.1 + m2 * v2'.1 /\
   m1 * v1.2 + m2 * v2.2 = m1 * v1'.2 + m2 * v2'.2 /\
   m1 * (v1.1 ^ 2 + v1.2 ^ 2) + m2 * (v2.1 ^ 2 + v2.2 ^ 2)
   = m1 * (v1'.1 ^ 2 + v1'.2 ^ 2) + m2 * (v2'.1 ^ 2 + v2'.2 ^ 2)) /\
  momentumPreserved m1 m2 v1 v2 v1' v2' /\
  kineticEnergyPreserved m1 m2 v1 v2 v1' v2'.
Proof.
  intros Hij Hlen Hhit. cbv zeta. apply checkCollision_fst in Hhit.
  pose proof (colliding_apart _ _ _ _ Hhit) as Hpos.
  rewrite checkCollision_hit by assumption. cbn [snd].
  unfold numDimensions in Hlen.
  assert (Hm : getMass n i + getMass n j <> 0).
  { pose proof (getMass_pos n i ltac:(lia)). pose proof (getMass_pos n j ltac:(lia)). lra. }
  pose proof (unit_normal _ _ Hpos) as Hunit. cbv zeta in Hunit.
  destruct (newVelocities n i j q) as [aNewVel bNewVel] eqn:E.
  vec_simpl.
  unfold newVelocities in E. rewrite !Nat.add_0_r in E. cbn [fst snd] in E.
  set (d := sqrt _) in *.
  set (nx := (q !!! (4 * i)%nat - q !!! (4 * j)%nat) / d) in *.
  set (ny := (q !!! (4 * i + 1)%nat - q !!! (4 * j + 1)%nat) / d) in *.
  pose proof (elastic_2d (getMass n i) (getMass n j) nx ny
                (q !!! (4 * i + 2)%nat) (q !!! (4 * i + 3)%nat)
                (q !!! (4 * j + 2)%nat) (q !!! (4 * j + 3)%nat) Hm Hunit) as He.
  cbv zeta in He. destruct He as (Hx & Hy & He).
  set (ax' := nx * _ + - ny * _) in Hx, He, E. set (ay' := ny * _ + nx * _) in Hy, He, E.
  set (bx' := nx * _ + - ny * _) in Hx, He, E. set (by' := ny * _ + nx * _) in Hy, He, E.
  clearbody ax' ay' bx' by'. injection E as <- <-.
  unfold momentumPreserved, kineticEnergyPreserved. cbn [fst snd].
  rewrite Hx, Hy, He, Rabs_R0.
  repeat split; try lra.
Qed.

(** At [head_on] the koule and the ship collide and the momentum along the
    line of the centers is kept. *)
Lemma collision_conserves_witness :
  (checkCollision 1 0 1 0.01 head_on).1 = true /\
  kouleMass * 1 + shipMass * 0
  = kouleMass * (checkCollision 1 0 1 0.01 head_on).2 !!! 2%nat
    + shipMass * (checkCollision 1 0 1 0.01 head_on).2 !!! 6%nat.
Proof.
  assert (H : (checkCollision 1 0 1 0.01 head_on).1 = true).
  { apply checkCollision_fst, head_on_colliding. }
  split; [exact H|].
  destruct (collision_conserves 1 0 1 0.01 head_on ltac:(lia) eq_refl H) as [[Hx _] _].
  rewrite (getMass_koule 1 0) in Hx by lia. rewrite (getMass_ship 1) in Hx.
  exact Hx.
Defined.

(** ** The bang-bang controller *)

Lemma shipDelta_pos : 0 < shipDelta.
Proof. unfold shipDelta, shipAcceleration, propagationStepSize. lra. Qed.

Lemma shipEps_pos : 0 < shipEps.
Proof.
  unfold shipEps, shipRotVel, propagationStepSize. pose proof PI_RGT_0. nra.
Qed.

Lemma magnitude_le (x d : R) : 0 <= x -> 0 <= d -> (sqrt x <= d <-> x <= d * d).
Proof.
  intros Hx Hd. rewrite <- (sqrt_square d) at 1 by assumption. split.
  - apply sqrt_le_0; nra.
  - apply sqrt_le_1; nra.
Qed.

(** C5, as amended: the command is exactly one of three cases, and thrust
    and torque are never applied together.  When the magnitude of the
    velocity error is at or below [shipDelta] the command is zero; else,
    when the absolute angular difference is below [shipEps], it is the
    thrust [shipAcceleration] along the heading with no torque; otherwise
    it is no thrust and the torque [shipRotVel] with the sign of the
    angular difference. *)
Theorem bangBang_cases numKoules cval q :
  commandCases Rle numKoules cval q /\
  (let '(thrustX, thrustY, torque) := bangBang numKoules cval q in
   (thrustX = 0 /\ thrustY = 0) \/ torque = 0).
Proof.
  unfold commandCases, bangBang. cbn [fst snd].
  set (v0 := cval.1 - _). set (v1 := cval.2 - _).
  set (dT := signedSO2Distance _ _). clearbody dT.
  assert (Hmag : sqrt (v0 * v0 + v1 * v1) <= shipDelta <->
                 v0 * v0 + v1 * v1 <= shipDelta * shipDelta).
  { apply magnitude_le; [nra|]. pose proof shipDelta_pos. lra. }
  pose proof shipEps_pos as Heps.
  destruct (decide (v0 * v0 + v1 * v1 > shipDelta * shipDelta)) as [Hfar|Hnear].
  - assert (Hnb : ~ sqrt (v0 * v0 + v1 * v1) <= shipDelta) by (rewrite Hmag; lra).
    destruct (decide (Rabs dT < shipEps)) as [Hal|Hal].
    + split; [|by right]. right; left. done.
    + destruct (decide (dT > 0)) as [Hs|Hs].
      * split; [|by left]. right; right. split; [done|]. split; [done|].
        left. split; [lra|done].
      * split; [|by left]. right; right. split; [done|]. split; [done|].
        right. split; [|done].
        destruct (Req_dec dT 0) as [E|E]; [|lra].
        rewrite E, Rabs_R0 in Hal. lra.
  - split; [|by left]. left. split; [apply Hmag; lra|done].
Qed.

Lemma atan2_pos_axis x : 0 < x -> atan2 0 x = 0.
Proof.
  intros Hx. unfold atan2. rewrite decide_True by assumption.
  replace (0 / x) with 0 by (field; lra). apply atan_0.
Qed.

Lemma signedSO2Distance_0 : signedSO2Distance 0 0 = 0.
Proof.
  pose proof PI_RGT_0. unfold signedSO2Distance.
  rewrite decide_False by lra. rewrite decide_False by lra. lra.
Qed.

Lemma bangBang_at_threshold : bangBang 0 (0.3, 0) at_threshold = (0, 0, 0).
Proof.
  unfold bangBang, at_threshold. vec_eval.
  rewrite decide_False; [reflexivity|].
  unfold shipDelta, shipAcceleration, propagationStepSize. lra.
Qed.

(** C5, as stated, fails at [at_threshold]: the velocity error is not below
    [shipDelta] and the ship is aligned, but the command is zero instead
    of the thrust. *)
Lemma commandCases_strict_fails : ~ commandCases Rlt 0 (0.3, 0) at_threshold.
Proof.
  unfold commandCases. rewrite bangBang_at_threshold.
  unfold at_threshold. vec_eval.
  replace (0.3 - 0.275) with shipDelta
    by (unfold shipDelta, shipAcceleration, propagationStepSize; lra).
  replace (0 - 0) with 0 by lra.
  replace (shipDelta * shipDelta + 0 * 0) with (shipDelta * shipDelta) by ring.
  pose proof shipDelta_pos as Hd. pose proof shipEps_pos as He. pose proof PI_RGT_0 as Hpi.
  rewrite sqrt_square by lra. rewrite atan2_pos_axis by assumption.
  rewrite signedSO2Distance_0, Rabs_R0, cos_0.
  intros [[Hlt _]|[(_ & _ & Hu)|(_ & Hal & _)]].
  - lra.
  - apply (f_equal (fun u => u.1.1)) in Hu. cbn [fst snd] in Hu.
    unfold shipAcceleration in Hu. lra.
  - apply Hal. assumption.
Qed.

(** ** Loops *)

Lemma foldl_invariant {A B} (P : A -> Prop) (f : A -> B -> A) (l : list B) (a : A) :
  P a -> (forall a x, x ∈ l -> P a -> P (f a x)) -> P (foldl f a l).
Proof.
  revert a. induction l as [|x l IH]; intros a Ha Hf; [exact Ha|].
  cbn. apply IH.
  - apply Hf; [left|exact Ha].
  - intros a' y Hy. apply Hf. by right.
Qed.

(** ** The heading under [update] *)

Section Frame.
Variable n : nat.

Lemma keeps_refl q0 k : keeps q0 k q0.
Proof. by split. Qed.

Lemma keeps_insert q0 k q k' x : k' <> k -> keeps q0 k q -> keeps q0 k (<[k' := x]> q).
Proof.
  intros Hk [Hl Hv]. split.
  - by rewrite length_insert.
  - by rewrite list_lookup_total_insert_ne.
Qed.

Lemma keeps_incr q0 k q k' d : k' <> k -> keeps q0 k q -> keeps q0 k (incr q k' d).
Proof. intros. by apply keeps_insert. Qed.

Lemma keeps_checkCollision q0 k i j dt q :
  (i <= n)%nat -> (j <= n)%nat -> (4 * n + 4 <= k)%nat ->
  keeps q0 k q -> keeps q0 k (checkCollision n i j dt q).2.
Proof.
  intros Hi Hj Hk Hq. unfold checkCollision.
  destruct (decide (colliding n i j q)); [|exact Hq].
  destruct (newVelocities n i j q) as [aNewVel bNewVel]. cbn [snd].
  repeat first [apply keeps_insert; [lia|] | apply keeps_incr; [lia|]]. exact Hq.
Qed.

Lemma keeps_collidePair q0 k i j dt st :
  (i <= n)%nat -> (j <= n)%nat -> (4 * n + 4 <= k)%nat ->
  keeps q0 k st.1 -> keeps q0 k (collidePair n dt i st j).1.
Proof.
  intros Hi Hj Hk Hq. destruct st as [q hc]. unfold collidePair.
  pose proof (keeps_checkCollision q0 k i j dt q Hi Hj Hk Hq) as Hc.
  destruct (checkCollision n i j dt q) as [[] q']; exact Hc.
Qed.

Lemma keeps_collideRow q0 k i dt st :
  (i < n)%nat -> (4 * n + 4 <= k)%nat ->
  keeps q0 k st.1 -> keeps q0 k (collideRow n dt st i).1.
Proof.
  intros Hi Hk Hq. unfold collideRow.
  apply (foldl_invariant (fun st => keeps q0 k st.1)); [exact Hq|].
  intros st' j Hj Hst'. apply elem_of_seq in Hj.
  apply keeps_collidePair; [lia|lia|exact Hk|exact Hst'].
Qed.

Lemma keeps_eulerBody q0 k qdot dt i width q :
  (4 * i + width <= k)%nat ->
  keeps q0 k q -> keeps q0 k (eulerBody qdot dt i width q).
Proof.
  intros Hk Hq. unfold eulerBody.
  apply (foldl_invariant (keeps q0 k)); [exact Hq|].
  intros q' j Hj Hq'. apply elem_of_seq in Hj. apply keeps_incr; [lia|exact Hq'].
Qed.

Lemma length_eulerBody qdot dt i width q :
  length (eulerBody qdot dt i width q) = length q.
Proof.
  unfold eulerBody.
  apply (foldl_invariant (fun q' => length q' = length q)); [reflexivity|].
  intros q' j _ Hq'. by rewrite length_incr.
Qed.

(** [update] in three stages. *)
Lemma update_unfold dt qdot q hc :
  update n dt qdot (q, hc) =
  let st := foldl (collideRow n dt) (q, replicate (length hc) false) (seq 0 n) in
  let q1 := foldl (fun q i => if negb (st.2 !!! i) then eulerBody qdot dt i 4 q else q)
                  st.1 (seq 0 n) in
  (if negb (st.2 !!! n) then eulerBody qdot dt n 5 q1 else q1, st.2).
Proof.
  unfold update.
  by destruct (foldl (collideRow n dt) (q, replicate (length hc) false) (seq 0 n)).
Qed.

Lemma update_length dt qdot st : length (update n dt qdot st).1 = length st.1.
Proof.
  destruct st as [q hc]. rewrite update_unfold. cbv zeta. cbn [fst snd].
  set (st := foldl (collideRow n dt) _ _).
  assert (H1 : keeps q (4 * n + 4) st.1).
  { apply (foldl_invariant (fun st => keeps q (4 * n + 4) st.1)); [apply keeps_refl|].
    intros st' i Hi Hst'. apply elem_of_seq in Hi.
    apply keeps_collideRow; [lia|lia|exact Hst']. }
  set (q1 := foldl _ st.1 _).
  assert (H2 : length q1 = length q).
  { apply (foldl_invariant (fun q' => length q' = length q)); [apply H1|].
    intros q' i _ Hq'. destruct (negb _); [|exact Hq'].
    by rewrite length_eulerBody. }
  destruct (negb _); [|exact H2]. by rewrite length_eulerBody.
Qed.

(** C10: in a sub-step in which the ship is flagged as having collided,
    [update] leaves the heading of the ship as it was, whatever the
    derivative vector holds; so does the whole sub-step [ode; update],
    whatever the command [u] is. *)
Theorem update_collided_ship_keeps_heading dt qdot q hasCollision :
  length hasCollision = (n + 1)%nat ->
  (update n dt qdot (q, hasCollision)).2 !!! n = true ->
  (update n dt qdot (q, hasCollision)).1 !!! (4 * n + 4)%nat = q !!! (4 * n + 4)%nat
  /\ forall u qdot0,
      (substep n u dt (q, qdot0, hasCollision)).1.1 !!! (4 * n + 4)%nat
      = q !!! (4 * n + 4)%nat.
Proof.
  assert (Hup : forall qd,
    (update n dt qd (q, hasCollision)).2 = (update n dt qdot (q, hasCollision)).2 /\
    ((update n dt qd (q, hasCollision)).2 !!! n = true ->
     (update n dt qd (q, hasCollision)).1 !!! (4 * n + 4)%nat = q !!! (4 * n + 4)%nat)).
  { intros qd. rewrite !update_unfold. cbv zeta. cbn [fst snd]. split; [reflexivity|].
    set (st := foldl (collideRow n dt) _ _). intros Hflag. rewrite Hflag. cbn [negb].
    assert (H1 : keeps q (4 * n + 4) st.1).
    { apply (foldl_invariant (fun st => keeps q (4 * n + 4) st.1)); [apply keeps_refl|].
      intros st' i Hi Hst'. apply elem_of_seq in Hi.
      apply keeps_collideRow; [lia|lia|exact Hst']. }
    apply (foldl_invariant (keeps q (4 * n + 4))); [exact H1|].
    intros q' i Hi Hq'. apply elem_of_seq in Hi. destruct (negb _); [|exact Hq'].
    apply keeps_eulerBody; [lia|exact Hq']. }
  intros _ Hflag. split; [by apply Hup|].
  intros u qdot0. unfold substep.
  destruct (Hup (ode n u q qdot0)) as [Hfl Hkeep].
  destruct (update n dt (ode n u q qdot0) (q, hasCollision)) as [q' hc'] eqn:E.
  cbn [fst snd] in *. apply Hkeep. by rewrite Hfl.
Qed.
End Frame.

Lemma head_on_flags qdot :
  (update 1 0.01 qdot (head_on, [false; false])).2 !!! 1%nat = true.
Proof.
  rewrite update_unfold. cbv zeta. cbn [snd].
  unfold collideRow, collidePair. cbn [length replicate seq foldl Nat.add Nat.sub].
  rewrite (checkCollision_hit 1 0 1 0.01 head_on head_on_colliding).
  reflexivity.
Qed.

(** At [head_on] the ship is flagged and its heading stays 0. *)
Lemma update_collided_ship_keeps_heading_witness :
  (update 1 0.01 (replicate 9 0) (head_on, [false; false])).1 !!! 8%nat = 0.
Proof.
  apply (update_collided_ship_keeps_heading 1 0.01 (replicate 9 0) head_on [false; false]).
  - reflexivity.
  - apply head_on_flags.
Defined.

(** ** Angles *)

Lemma truncate_bounds (x : R) :
  (0 <= x -> 0 <= x - IZR (truncate x) < 1) /\
  (x < 0 -> -1 < x - IZR (truncate x) <= 0).
Proof.
  unfold truncate. split; intros Hx.
  - rewrite decide_True by assumption. pose proof (base_Int_part x). lra.
  - rewrite decide_False by lra. rewrite opp_IZR.
    pose proof (base_Int_part (- x)). lra.
Qed.

Lemma fmod_bounds (x y : R) : 0 < y -> - y < fmod x y < y.
Proof.
  intros Hy. unfold fmod.
  replace (x - IZR (truncate (x / y)) * y) with ((x / y - IZR (truncate (x / y))) * y)
    by (field; lra).
  destruct (truncate_bounds (x / y)) as [Hpos Hneg].
  destruct (Rle_lt_dec 0 (x / y)) as [H|H].
  - specialize (Hpos H). nra.
  - specialize (Hneg H). nra.
Qed.

Lemma enforceBounds_range (value : R) : - PI < enforceBounds value <= PI.
Proof.
  unfold enforceBounds. pose proof PI_RGT_0 as Hpi.
  pose proof (fmod_bounds value (2 * PI) ltac:(lra)) as Hf.
  set (v := fmod value (2 * PI)) in *. clearbody v.
  repeat case_decide; lra.
Qed.

Lemma enforceBounds_id (value : R) : - PI < value <= PI -> enforceBounds value = value.
Proof.
  intros Hv. unfold enforceBounds, fmod. pose proof PI_RGT_0 as Hpi.
  assert (Ht : truncate (value / (2 * PI)) = 0%Z).
  { assert (Hq : -1 < value / (2 * PI) < 1).
    { split.
      - apply Rmult_lt_reg_r with (2 * PI); [lra|]. field_simplify; lra.
      - apply Rmult_lt_reg_r with (2 * PI); [lra|]. field_simplify; lra. }
    destruct (truncate_bounds (value / (2 * PI))) as [Hpos Hneg].
    destruct (Rle_lt_dec 0 (value / (2 * PI))) as [H|H].
    - specialize (Hpos H).
      assert (-1 < IZR (truncate (value / (2 * PI))) < 1) by lra.
      destruct H0 as [Ha Hb]. apply lt_IZR in Ha, Hb. lia.
    - specialize (Hneg H).
      assert (-1 < IZR (truncate (value / (2 * PI))) < 1) by lra.
      destruct H0 as [Ha Hb]. apply lt_IZR in Ha, Hb. lia. }
  rewrite Ht. replace (value - 0 * (2 * PI)) with value by ring.
  repeat case_decide; lra.
Qed.

(** ** The heading after [propagate] *)

Lemma substep_length n u dt sc : length (substep n u dt sc).1.1 = length sc.1.1.
Proof.
  destruct sc as [[q qdot] hc]. unfold substep.
  pose proof (update_length n dt (ode n u q qdot) (q, hc)) as Hl.
  destruct (update n dt (ode n u q qdot) (q, hc)) as [q' hc']. exact Hl.
Qed.

Lemma iter_substep_length n u dt k sc :
  length (Nat.iter k (substep n u dt) sc).1.1 = length sc.1.1.
Proof.
  induction k as [|k IH]; [reflexivity|].
  rewrite Nat.iter_succ, substep_length. exact IH.
Qed.

Lemma propagate_unfold n start control duration :
  propagate n start control duration =
  let numSteps := Z.to_nat (ceil (duration / timeStep_)) in
  let q := (Nat.iter numSteps
              (substep n (bangBang n control start) (duration / INR numSteps))
              (start, replicate (numDimensions n) 0, replicate (n + 1) false)).1.1 in
  <[(4 * n + 4)%nat := enforceBounds (q !!! (4 * n + 4)%nat)]> q.
Proof.
  unfold propagate. cbv zeta.
  by destruct (Nat.iter _ _ _) as [[q qdot] hc].
Qed.

Lemma propagate_length n start control duration :
  length (propagate n start control duration) = length start.
Proof.
  rewrite propagate_unfold. cbv zeta.
  by rewrite length_insert, iter_substep_length.
Qed.

(** C4: after [propagate], from a state of the space, for any control and
    positive duration, the heading of the ship lies in (-pi, pi]. *)
Theorem propagate_heading_normalized n start control duration :
  length start = numDimensions n -> 0 < duration ->
  - PI < propagate n start control duration !!! (4 * n + 4)%nat <= PI.
Proof.
  intros Hlen _. rewrite propagate_unfold. cbv zeta.
  rewrite list_lookup_total_insert_eq.
  - apply enforceBounds_range.
  - rewrite iter_substep_length. cbn [fst]. rewrite Hlen. unfold numDimensions. lia.
Qed.

(** One propagation step from [p0]. *)
Lemma propagate_heading_normalized_witness :
  - PI < propagate 1 (cruise p0) (0.05, 0) 0.05 !!! 8%nat <= PI.
Proof.
  apply (propagate_heading_normalized 1 (cruise p0) (0.05, 0) 0.05).
  - reflexivity.
  - lra.
Defined.

(** ** distanceGoal *)

Lemma edgeDistance_below_side v i : edgeDistance v i < sideLength.
Proof.
  unfold edgeDistance, sideLength, kouleRadius, threshold_. cbv zeta.
  set (x := v !!! (4 * i)%nat). set (y := v !!! (4 * i + 1)%nat).
  pose proof (Rmin_l (Rmin x (1 - x)) (Rmin y (1 - y))).
  pose proof (Rmin_l x (1 - x)). pose proof (Rmin_r x (1 - x)). lra.
Qed.

(** The running minimum of the loop of [distanceGoal]. *)
Lemma running_min (f : nat -> R) (l : list nat) (a : R) :
  let r := foldl (fun minDist i => Rmin minDist (f i)) a l in
  r <= a /\ (forall i, i ∈ l -> r <= f i) /\ (r = a \/ exists i, i ∈ l /\ r = f i).
Proof.
  revert a. induction l as [|x l IH]; intros a; cbv zeta; cbn [foldl].
  - split; [lra|]. split; [|by left]. intros i Hi. inversion Hi.
  - destruct (IH (Rmin a (f x))) as (H1 & H2 & H3).
    pose proof (Rmin_l a (f x)). pose proof (Rmin_r a (f x)).
    split; [lra|]. split.
    + intros i Hi. apply elem_of_cons in Hi as [->|Hi]; [lra|by apply H2].
    + destruct H3 as [H3|(i & Hi & H3)].
      * assert (Hb : Rmin a (f x) = a \/ Rmin a (f x) = f x)
          by (unfold Rmin; destruct (Rle_dec a (f x)); auto).
        destruct Hb as [E|E].
        -- left. rewrite H3. exact E.
        -- right. exists x. split; [left|]. rewrite H3. exact E.
      * right. exists i. split; [by right|exact H3].
Qed.

Lemma distanceGoal_unfold n st :
  distanceGoal n st =
  let minDist := foldl (fun minDist i => Rmin minDist (edgeDistance st i))
                       sideLength (seq 0 n) in
  if decide (minDist < 0) then 0 else minDist.
Proof. reflexivity. Qed.

(** C7: [distanceGoal] is never negative and, when there is a koule, it is
    the minimum over the koules of [edgeDistance], replaced by zero when
    that minimum is negative. *)
Theorem distanceGoal_is_clamped_minimum n st :
  0 <= distanceGoal n st /\
  ((1 <= n)%nat ->
   exists m,
     (exists i, (i < n)%nat /\ m = edgeDistance st i) /\
     (forall i, (i < n)%nat -> m <= edgeDistance st i) /\
     distanceGoal n st = (if decide (m < 0) then 0 else m)).
Proof.
  rewrite distanceGoal_unfold. cbv zeta.
  destruct (running_min (edgeDistance st) (seq 0 n) sideLength) as (H1 & H2 & H3).
  cbv zeta in H1, H2, H3. set (m := foldl _ _ _) in *. split.
  - case_decide; lra.
  - intros Hn. exists m. split; [|split; [|reflexivity]].
    + destruct H3 as [H3|(i & Hi & H3)].
      * assert (H0 : m <= edgeDistance st 0) by (apply H2, elem_of_seq; lia).
        pose proof (edgeDistance_below_side st 0). lra.
      * exists i. apply elem_of_seq in Hi. split; [lia|exact H3].
    + intros i Hi. apply H2, elem_of_seq. lia.
Qed.

(** One koule: the minimum is its own distance. *)
Lemma distanceGoal_is_clamped_minimum_witness :
  exists m,
    (exists i, (i < 1)%nat /\ m = edgeDistance (cruise p0) i) /\
    (forall i, (i < 1)%nat -> m <= edgeDistance (cruise p0) i) /\
    distanceGoal 1 (cruise p0) = (if decide (m < 0) then 0 else m).
Proof.
  apply (proj2 (distanceGoal_is_clamped_minimum 1 (cruise p0))). lia.
Defined.

(** ** The next level *)

Lemma isSatisfied_some_koule_at_edge n st :
  isSatisfied n st = true ->
  exists i, (i < n)%nat /\ edgeDistance st i <= threshold_.
Proof.
  unfold isSatisfied. intros Hs. apply bool_decide_eq_true in Hs.
  rewrite distanceGoal_unfold in Hs. cbv zeta in Hs.
  destruct (running_min (edgeDistance st) (seq 0 n) sideLength) as (_ & _ & Hmin).
  cbv zeta in Hmin. set (r := foldl _ _ _) in *.
  assert (Hr : r <= threshold_) by (case_decide; unfold threshold_ in *; lra).
  destruct Hmin as [Hside|(i & Hi & Ei)].
  - unfold sideLength, threshold_ in *. lra.
  - exists i. apply elem_of_seq in Hi. split; [lia|]. by rewrite <- Ei.
Qed.

Lemma at_edge_not_withinWorkspace st i :
  edgeDistance st i <= threshold_ -> ~ withinWorkspace st (4 * i).
Proof.
  unfold edgeDistance, withinWorkspace, sideLength, kouleRadius. cbv zeta.
  set (x := st !!! (4 * i)%nat). set (y := st !!! (4 * i + 1)%nat).
  intros He [Hmin Hmax].
  unfold Rmin, Rmax in *. repeat destruct (Rle_dec _ _); lra.
Qed.

Lemma push_length {A} (f : nat -> A) (acc : list A) (l : list nat) :
  length (foldl (fun acc k => acc ++ [f k]) acc l) = (length acc + length l)%nat.
Proof.
  revert acc. induction l as [|x l IH]; intros acc; cbn; [lia|].
  rewrite IH, length_app. cbn. lia.
Qed.

Lemma keep_koules_length (s : list R) (acc : list R) (l : list nat) :
  length
    (foldl (fun nextStart i =>
              let j := (4 * i)%nat in
              if decide (withinWorkspace s j) then
                foldl (fun nextStart k => nextStart ++ [s !!! (j + k)%nat]) nextStart (seq 0 4)
              else nextStart) acc l)
  = (length acc + 4 * length (filter (fun i => withinWorkspace s (4 * i)) l))%nat.
Proof.
  revert acc. induction l as [|x l IH]; intros acc; [cbn; lia|].
  cbn [foldl]. rewrite IH. cbv zeta.
  destruct (decide (withinWorkspace s (4 * x))) as [Hw|Hw].
  - rewrite filter_cons_True by exact Hw.
    rewrite (push_length (fun k => s !!! (4 * x + k)%nat)). cbn [length seq]. lia.
  - rewrite filter_cons_False by exact Hw. lia.
Qed.

Lemma nextStart_length n s :
  length s = numDimensions n ->
  length (nextStart s)
  = (4 * length (filter (fun i => withinWorkspace s (4 * i)) (seq 0 n)) + 5)%nat.
Proof.
  intros Hlen. unfold nextStart.
  rewrite (push_length (fun j => s !!! j)), keep_koules_length.
  rewrite Hlen. unfold numDimensions.
  replace ((4 * (n + 1) + 1 - 5 + 3) / 4)%nat with n.
  - rewrite length_seq. cbn [length]. lia.
  - apply Nat.div_unique with 3%nat; lia.
Qed.

(** C3: when the final state [s] of a level with [n] koules satisfies the
    goal, the start vector derived for the next level has strictly fewer
    koules. *)
Theorem next_level_has_fewer_koules n s :
  length s = numDimensions n -> isSatisfied n s = true ->
  numKoulesOf s = n /\ (numKoulesOf (nextStart s) < numKoulesOf s)%nat.
Proof.
  intros Hlen Hgoal.
  assert (Hn : numKoulesOf s = n).
  { unfold numKoulesOf. rewrite Hlen. unfold numDimensions.
    symmetry. apply Nat.div_unique with 0%nat; lia. }
  split; [exact Hn|]. rewrite Hn.
  destruct (isSatisfied_some_koule_at_edge n s Hgoal) as (i & Hi & Hedge).
  apply at_edge_not_withinWorkspace in Hedge.
  assert (Hdrop : (length (filter (fun i => withinWorkspace s (4 * i)) (seq 0 n)) < n)%nat).
  { pose proof (length_filter_lt (fun i => withinWorkspace s (4 * i)) (seq 0 n) i) as Hlt.
    rewrite length_seq in Hlt. apply Hlt; [|exact Hedge].
    apply elem_of_seq. lia. }
  unfold numKoulesOf. rewrite (nextStart_length n s Hlen).
  set (c := length (filter _ _)) in *.
  replace ((4 * c + 5 - 5) / 4)%nat with c; [exact Hdrop|].
  apply Nat.div_unique with 0%nat; lia.
Qed.

(** ** Random draws *)

Lemma uniformReal_range lo hi g :
  lo <= hi -> rng_ok g -> lo <= (uniformReal lo hi g).1 <= hi.
Proof.
  intros Hlh Hg. unfold uniformReal, uniform01. cbn [fst].
  specialize (Hg 0%nat). nra.
Qed.

Lemma uniformReal_rng_ok lo hi g : rng_ok g -> rng_ok (uniformReal lo hi g).2.
Proof. intros Hg k. unfold uniformReal, uniform01. cbn [snd]. apply Hg. Qed.

Lemma float_epsilon_pos : 0 < float_epsilon.
Proof. unfold float_epsilon. apply Rinv_0_lt_compat. lra. Qed.

Lemma float_epsilon_small : float_epsilon < 1e-6.
Proof. unfold float_epsilon. lra. Qed.

Lemma shipVmin_pos : 0 < shipVmin.
Proof. unfold shipVmin, shipVmax, shipAcceleration. lra. Qed.

Lemma shipVmin_le_shipVmax : shipVmin <= shipVmax.
Proof. unfold shipVmin, shipVmax, shipAcceleration. lra. Qed.

(** ** steer *)

Lemma steer_directed dim state x y cs :
  let dx := x - state !!! (dim - 5)%nat in
  let dy := y - state !!! (dim - 4)%nat in
  dx * dx + dy * dy > float_epsilon ->
  steer dim state x y cs =
  let m := (uniformReal shipVmin shipVmax (rng_ cs)).1 in
  ((m / sqrt (dx * dx + dy * dy) * dx, m / sqrt (dx * dx + dy * dy) * dy),
   mkControlSampler (base_rng_ cs) (uniformReal shipVmin shipVmax (rng_ cs)).2).
Proof.
  intros dx dy Hfar. unfold steer. fold dx dy. rewrite decide_True by exact Hfar.
  unfold cbounds_low, cbounds_high.
  by destruct (uniformReal shipVmin shipVmax (rng_ cs)).
Qed.

Lemma steer_undirected dim state x y cs :
  let dx := x - state !!! (dim - 5)%nat in
  let dy := y - state !!! (dim - 4)%nat in
  ~ dx * dx + dy * dy > float_epsilon ->
  steer dim state x y cs = sample cs.
Proof. intros dx dy Hnear. unfold steer. fold dx dy. by rewrite decide_False. Qed.

Lemma norm2_scale k w : 0 <= k -> norm2 (k * w.1, k * w.2) = k * norm2 w.
Proof.
  intros Hk. unfold norm2. cbn [fst snd].
  replace (k * w.1 * (k * w.1) + k * w.2 * (k * w.2))
    with ((k * k) * (w.1 * w.1 + w.2 * w.2)) by ring.
  rewrite sqrt_mult by nra. by rewrite sqrt_square.
Qed.

(** C8: when the squared distance from the ship to the target exceeds the
    noise threshold, the control [steer] returns is a positive multiple of
    the vector to the target, has its direction, and has the magnitude
    drawn from [[shipVmin, shipVmax]]; otherwise [steer] is [sample]. *)
Theorem steer_toward_target dim state x y cs :
  rng_ok (rng_ cs) ->
  let d := (x - state !!! (dim - 5)%nat, y - state !!! (dim - 4)%nat) in
  let control := (steer dim state x y cs).1 in
  let m := (uniformReal shipVmin shipVmax (rng_ cs)).1 in
  (d.1 * d.1 + d.2 * d.2 > float_epsilon ->
   shipVmin <= m <= shipVmax /\
   (exists k, 0 < k /\ control = (k * d.1, k * d.2)) /\
   normalized control = normalized d /\
   norm2 control = m) /\
  (~ d.1 * d.1 + d.2 * d.2 > float_epsilon ->
   steer dim state x y cs = sample cs).
Proof.
  intros Hg d control m. subst d control m. cbn [fst snd].
  set (dx := x - state !!! (dim - 5)%nat). set (dy := y - state !!! (dim - 4)%nat).
  split.
  - intros Hfar. rewrite steer_directed by exact Hfar. cbn [fst snd]. fold dx dy.
    set (m := (uniformReal shipVmin shipVmax (rng_ cs)).1).
    pose proof float_epsilon_pos as He. pose proof shipVmin_pos as Hv.
    assert (Hm : shipVmin <= m <= shipVmax)
      by (apply uniformReal_range; [apply shipVmin_le_shipVmax|exact Hg]).
    change (sqrt (dx * dx + dy * dy)) with (norm2 (dx, dy)).
    set (len := norm2 (dx, dy)).
    assert (Hn : 0 < len) by (apply sqrt_lt_R0; cbn [fst snd]; lra).
    assert (Hk : 0 < m / len) by (apply Rdiv_lt_0_compat; lra).
    assert (Hc : norm2 (m / len * dx, m / len * dy) = m).
    { pose proof (norm2_scale (m / len) (dx, dy) ltac:(lra)) as Hs.
      cbn [fst snd] in Hs. rewrite Hs. fold len. field. lra. }
    split; [exact Hm|]. split; [by exists (m / len)|]. split; [|exact Hc].
    unfold normalized. rewrite Hc. fold len. cbn [fst snd]. f_equal; field; lra.
  - intros Hnear. by apply steer_undirected.
Qed.

(** ** The heap *)

Lemma load_store_eq hp p s : load (store hp p s) p = s.
Proof. unfold load, store. cbn [cells]. apply fn_lookup_insert. Qed.

Lemma load_store_ne hp p p' s : p <> p' -> load (store hp p s) p' = load hp p'.
Proof. intros Hp. unfold load, store. cbn [cells]. by apply fn_lookup_insert_ne. Qed.

Lemma load_allocState dim hp p :
  p <> next hp -> load (allocState dim hp).2 p = load hp p.
Proof.
  intros Hp. unfold load, allocState. cbn [snd cells]. by apply fn_lookup_insert_ne.
Qed.

Lemma load_copyState_eq hp p p' : load (copyState hp p p') p = load hp p'.
Proof. unfold copyState. apply load_store_eq. Qed.

Lemma load_copyState_ne hp p p' p'' : p <> p'' -> load (copyState hp p p') p'' = load hp p''.
Proof. unfold copyState. apply load_store_ne. Qed.

(** ** The loop of sampleTo *)

Section EarlyExit.
Variable stepSize : R.
Variable propagate : list R -> R * R -> R -> list R.
Variable isSatisfied : list R -> bool.
Variable isValid : list R -> bool.

Variable control : R * R.
Variable x0 : list R.
Variable steps : nat.
Variable dest temp : nat.
Hypothesis dest_temp : dest <> temp.

(** The goal is first satisfied after the odd step [2 * m + 1], and the
    states before it are valid. *)
Variable m : nat.
Hypothesis within_budget : (2 * m + 1 <= steps)%nat.
Hypothesis before :
  forall j, (1 <= j < 2 * m + 1)%nat ->
    isSatisfied (stateAfter stepSize propagate control x0 j) = false /\
    isValid (stateAfter stepSize propagate control x0 j) = true.
Hypothesis reached :
  isSatisfied (stateAfter stepSize propagate control x0 (2 * m + 1)) = true.

#[local] Abbreviation loop :=
  (sampleTo_loop propagate isSatisfied isValid control stepSize steps dest).

Lemma stateAfter_S k :
  propagate (stateAfter stepSize propagate control x0 k) control stepSize
  = stateAfter stepSize propagate control x0 (S k).
Proof. reflexivity. Qed.

Lemma sampleTo_loop_exits_at_odd_step fuel :
  forall a hp, (a < m)%nat ->
    ((2 * a + 1 + fuel = steps)%nat ->
     load hp dest = stateAfter stepSize propagate control x0 (2 * a + 1) ->
     (loop fuel (2 * a + 1)%nat dest temp hp).1 = (2 * m + 1)%nat /\
     load (loop fuel (2 * a + 1)%nat dest temp hp).2 dest
     = stateAfter stepSize propagate control x0 (2 * m + 1)) /\
    ((2 * a + 2 + fuel = steps)%nat ->
     load hp temp = stateAfter stepSize propagate control x0 (2 * a + 2) ->
     load hp dest = stateAfter stepSize propagate control x0 (2 * a + 1) ->
     (loop fuel (2 * a + 2)%nat temp dest hp).1 = (2 * m + 1)%nat /\
     load (loop fuel (2 * a + 2)%nat temp dest hp).2 dest
     = stateAfter stepSize propagate control x0 (2 * m + 1)).
Proof.
  induction fuel as [|fuel IH]; intros a hp Ha.
  - split; intros; lia.
  - split.
    + intros Hfuel Hd. cbn [sampleTo_loop].
      rewrite load_store_ne by done. rewrite load_store_eq, Hd, stateAfter_S.
      destruct (before (2 * a + 1)%nat ltac:(lia)) as [Hg _]. rewrite Hg.
      destruct (before (S (2 * a + 1)) ltac:(lia)) as [_ Hv]. rewrite Hv.
      replace (S (2 * a + 1)) with (2 * a + 2)%nat by lia.
      apply (IH a); [exact Ha|lia|apply load_store_eq|].
      by rewrite load_store_ne.
    + intros Hfuel Ht Hd. cbn [sampleTo_loop].
      rewrite !load_store_eq, Ht, stateAfter_S.
      destruct (decide (S a = m)) as [Em|Em].
      * replace (S (2 * a + 2)) with (2 * m + 1)%nat by lia. rewrite reached.
        cbn [fst snd]. split; [lia|]. by rewrite load_copyState_eq, load_store_eq.
      * destruct (before (S (2 * a + 2)) ltac:(lia)) as [Hg Hv]. rewrite Hg, Hv.
        replace (S (2 * a + 2)) with (2 * S a + 1)%nat by lia.
        apply (IH (S a)); [lia|lia|apply load_store_eq].
Qed.
End EarlyExit.

(** ** sampleTo *)

Section SampleTo.
Variable dim : nat.
Variable stepSize : R.
Variable minDuration maxDuration : nat.
Variable propagate : list R -> R * R -> R -> list R.
Variable isSatisfied : list R -> bool.
Variable isValid : list R -> bool.
Variable propagateMax : bool.

#[local] Abbreviation stepBudget' := (stepBudget minDuration maxDuration propagateMax).
#[local] Abbreviation steeredControl' :=
  (steeredControl dim minDuration maxDuration propagateMax).
#[local] Abbreviation sampleTo' :=
  (sampleTo dim stepSize minDuration maxDuration propagate isSatisfied isValid propagateMax).

Lemma sampleTo_unfold cs hp source dest :
  sampleTo' cs hp source dest =
  let steps := (stepBudget' cs).1 in
  let control := (steeredControl' cs hp source dest).1 in
  let cs' := (steeredControl' cs hp source dest).2 in
  let hp1 := store hp dest (propagate (load hp source) control stepSize) in
  if isSatisfied (load hp1 dest) then (1%nat, control, hp1, cs')
  else if isValid (load hp1 dest) then
    let hp2 := (allocState dim hp1).2 in
    let res := sampleTo_loop propagate isSatisfied isValid control stepSize steps dest
                 (steps - 1) 1 dest (next hp1) hp2 in
    (res.1, control, res.2, cs')
  else
    (0%nat, control, if decide (dest <> source) then copyState hp1 dest source else hp1, cs').
Proof.
  unfold sampleTo, steeredControl, stepBudget.
  destruct (if propagateMax then _ else _) as [steps cs1]. cbn [fst snd].
  destruct (steer _ _ _ _ _) as [control cs2]. cbn [fst snd].
  destruct (isSatisfied _); [reflexivity|].
  destruct (isValid _); [|reflexivity].
  unfold allocState. cbn [fst snd].
  by destruct (sampleTo_loop _ _ _ _ _ _ _ _ _ _ _ _).
Qed.

Lemma sampleTo_control cs hp source dest :
  (sampleTo' cs hp source dest).1.1.2 = (steeredControl' cs hp source dest).1.
Proof.
  rewrite sampleTo_unfold. cbv zeta.
  destruct (isSatisfied _); [reflexivity|]. by destruct (isValid _).
Qed.

(** The exit of lines 341-348: when the state the first propagation step
    produces neither satisfies the goal nor is valid, [sampleTo] returns 0
    and [dest] holds the state [source] holds; when they are distinct
    objects that state is the source state of the call, unchanged. *)
Theorem sampleTo_first_step_invalid cs hp source dest :
  let res := sampleTo' cs hp source dest in
  let r := res.1.1.1 in
  let control := res.1.1.2 in
  let hp' := res.1.2 in
  let first := propagate (load hp source) control stepSize in
  isSatisfied first = false -> isValid first = false ->
  r = 0%nat /\
  load hp' dest = load hp' source /\
  (dest <> source -> load hp' dest = load hp source /\ load hp' source = load hp source).
Proof.
  cbv zeta. rewrite sampleTo_control, sampleTo_unfold. cbv zeta.
  set (control := (steeredControl' cs hp source dest).1).
  rewrite load_store_eq.
  set (first := propagate (load hp source) control stepSize).
  intros Hg Hv. rewrite Hg, Hv. cbn [fst snd].
  split; [reflexivity|].
  destruct (decide (dest <> source)) as [Hne|Heq].
  - rewrite load_copyState_eq, load_copyState_ne by exact Hne.
    rewrite load_store_ne by exact Hne. auto.
  - apply dec_stable in Heq. subst dest. split; [reflexivity|]. intros Hne. by destruct Hne.
Qed.

(** The same exit when [dest] and [source] are one object: the first
    propagation step (line 307) has overwritten it, the guard of line 345
    skips the copy, and the object is left with the invalid state. *)
Lemma sampleTo_first_step_invalid_aliased cs hp source :
  let res := sampleTo' cs hp source source in
  let first := propagate (load hp source) res.1.1.2 stepSize in
  isSatisfied first = false -> isValid first = false ->
  res.1.1.1 = 0%nat /\ load res.1.2 source = first.
Proof.
  cbv zeta. rewrite sampleTo_control, sampleTo_unfold. cbv zeta.
  set (control := (steeredControl' cs hp source source).1).
  rewrite load_store_eq.
  set (first := propagate (load hp source) control stepSize).
  intros Hg Hv. rewrite Hg, Hv. cbn [fst snd].
  split; [reflexivity|].
  rewrite decide_False by (intros Hne; by apply Hne).
  apply load_store_eq.
Qed.

(** The test of the loop reads [dest], which in the first pass still holds
    the state after step 1: a goal reached by step 2 goes unnoticed and
    the propagation runs on to step 3. *)
Lemma sampleTo_misses_goal_at_step_2 cs hp source dest :
  let res := sampleTo' cs hp source dest in
  let r := res.1.1.1 in
  let control := res.1.1.2 in
  let hp' := res.1.2 in
  let x1 := propagate (load hp source) control stepSize in
  let x2 := propagate x1 control stepSize in
  let x3 := propagate x2 control stepSize in
  (dest < next hp)%nat -> (3 <= (stepBudget' cs).1)%nat ->
  isSatisfied x1 = false -> isValid x1 = true ->
  isValid x2 = true ->
  isSatisfied x3 = true ->
  r = 3%nat /\ load hp' dest = x3.
Proof.
  cbv zeta. rewrite sampleTo_control, sampleTo_unfold. cbv zeta.
  set (control := (steeredControl' cs hp source dest).1).
  rewrite load_store_eq.
  set (x1 := propagate (load hp source) control stepSize).
  set (x2 := propagate x1 control stepSize).
  set (x3 := propagate x2 control stepSize).
  intros Hd Hsteps Hg1 Hv1 Hv2 Hg3. rewrite Hg1, Hv1. cbn [fst snd].
  destruct (stepBudget' cs).1 as [|[|[|steps]]]; [lia|lia|lia|].
  assert (Hnd : dest <> next hp) by lia.
  set (hp1 := store hp dest x1).
  assert (E1 : load (allocState dim hp1).2 dest = x1).
  { rewrite load_allocState by exact Hnd. apply load_store_eq. }
  cbn [Nat.sub sampleTo_loop]. change (next hp1) with (next hp).
  rewrite (load_store_ne _ (next hp) dest) by done.
  rewrite E1, Hg1, !load_store_eq. fold x2. rewrite Hv2.
  fold x3. rewrite Hg3.
  cbn [fst snd]. split; [reflexivity|].
  by rewrite load_copyState_eq, load_store_eq.
Qed.

(** What holds of the early exit: a goal first reached after an odd
    number of steps stops the propagation there. *)
Lemma sampleTo_exits_at_odd_step cs hp source dest m :
  let res := sampleTo' cs hp source dest in
  let x := stateAfter stepSize propagate res.1.1.2 (load hp source) in
  (dest < next hp)%nat ->
  (2 * m + 1 <= (stepBudget' cs).1)%nat ->
  (forall j, (1 <= j < 2 * m + 1)%nat -> isSatisfied (x j) = false /\ isValid (x j) = true) ->
  isSatisfied (x (2 * m + 1)%nat) = true ->
  res.1.1.1 = (2 * m + 1)%nat /\ load res.1.2 dest = x (2 * m + 1)%nat.
Proof.
  cbv zeta. rewrite sampleTo_control, sampleTo_unfold. cbv zeta.
  set (control := (steeredControl _ _ _ _ _ _ _ _).1).
  set (x := stateAfter stepSize propagate control (load hp source)).
  rewrite load_store_eq. change (propagate (load hp source) control stepSize) with (x 1%nat).
  intros Hd Hsteps Hbefore Hreached.
  destruct m as [|m].
  - cbn [Nat.mul Nat.add] in Hreached. rewrite Hreached. cbn [fst snd].
    split; [reflexivity|apply load_store_eq].
  - destruct (Hbefore 1%nat ltac:(lia)) as [Hg Hv]. rewrite Hg, Hv. cbn [fst snd].
    assert (Hnd : dest <> next hp) by lia.
    set (steps := (stepBudget' cs).1) in *.
    apply (sampleTo_loop_exits_at_odd_step stepSize propagate isSatisfied isValid
             control (load hp source) steps dest (next hp) Hnd (S m) Hsteps Hbefore Hreached
             (steps - 1) 0); [lia|lia|].
    rewrite load_allocState by exact Hnd. apply load_store_eq.
Qed.
End SampleTo.

(** ** One koule in free flight *)

Lemma cruise_not_colliding p : apart p -> ~ colliding 1 0 1 (cruise p).
Proof.
  destruct p as [[x v] s]. unfold apart, colliding, cruise. cbn [fst snd].
  rewrite (getRadius_koule 1 0) by lia. rewrite (getRadius_ship 1).
  unfold kouleRadius, shipRadius, delta. vec_eval. intros Hsep [Hd _]. nra.
Qed.

Lemma substep_cruise p d0 d1 d2 d3 d4 d5 d6 d7 d8 hc :
  apart p -> length hc = 2%nat ->
  exists e0 e1 e2 e3 e4 e5 e6 e7 e8 hc',
    substep 1 (0, 0, 0) 0.01 (cruise p, [d0; d1; d2; d3; d4; d5; d6; d7; d8], hc)
    = (cruise (flight p), [e0; e1; e2; e3; e4; e5; e6; e7; e8], hc')
    /\ length hc' = 2%nat.
Proof.
  intros Hsep Hhc. pose proof (cruise_not_colliding p Hsep) as Hnc.
  unfold substep, ode, update, collideRow, collidePair. cbn [seq foldl Nat.add Nat.sub].
  rewrite (checkCollision_miss 1 0 1 0.01 (cruise p) Hnc).
  destruct p as [[x v] s]. unfold cruise, flight, eulerBody, ode_koule. cbn [fst snd].
  rewrite Hhc. vec_eval. cbn [negb]. vec_eval.
  do 10 eexists.
  split.
  - apply (f_equal2 pair); [apply (f_equal2 pair)|]; [|reflexivity|reflexivity].
    unfold sideLength, lambda_c, h. repeat (f_equal; try lra).
  - reflexivity.
Qed.

Lemma iter_substep_cruise k p sc :
  scratch1 sc -> sc.1.1 = cruise p ->
  (forall j, (j < k)%nat -> apart (Nat.iter j flight p)) ->
  scratch1 (Nat.iter k (substep 1 (0, 0, 0) 0.01) sc) /\
  (Nat.iter k (substep 1 (0, 0, 0) 0.01) sc).1.1 = cruise (Nat.iter k flight p).
Proof.
  intros Hsc Hq. induction k as [|k IH]; intros Hsep; [by split|].
  destruct IH as [Hsc' Hq']; [intros j Hj; apply Hsep; lia|].
  rewrite !Nat.iter_succ.
  destruct (Nat.iter k (substep 1 (0, 0, 0) 0.01) sc) as [[q qdot] hc].
  destruct Hsc' as [Hqd Hhc]. cbn [fst snd] in Hqd, Hhc, Hq'. subst q.
  destruct qdot as [|d0 [|d1 [|d2 [|d3 [|d4 [|d5 [|d6 [|d7 [|d8 [|? ?]]]]]]]]]];
    try discriminate. clear Hqd.
  destruct (substep_cruise (Nat.iter k flight p) d0 d1 d2 d3 d4 d5 d6 d7 d8 hc)
    as (e0 & e1 & e2 & e3 & e4 & e5 & e6 & e7 & e8 & hc' & E & Hhc').
  - apply Hsep. lia.
  - exact Hhc.
  - rewrite E. by split.
Qed.

Lemma ceil_IZR (z : Z) : ceil (IZR z) = z.
Proof.
  unfold ceil. rewrite <- opp_IZR.
  assert (E : up (IZR (- z)) = (- z + 1)%Z).
  { symmetry. apply tech_up; rewrite plus_IZR; lra. }
  rewrite E. lia.
Qed.

Lemma numSteps_of_propagationStepSize :
  Z.to_nat (ceil (propagationStepSize / timeStep_)) = 5%nat.
Proof.
  replace (propagationStepSize / timeStep_) with (IZR 5)
    by (unfold propagationStepSize, timeStep_, integrationStepSize; lra).
  by rewrite ceil_IZR.
Qed.

Lemma bangBang_cruise p : bangBang 1 (0.05, 0) (cruise p) = (0, 0, 0).
Proof.
  unfold bangBang, cruise. vec_eval. rewrite decide_False; [reflexivity|].
  unfold shipDelta, shipAcceleration, propagationStepSize. lra.
Qed.

Lemma propagate_cruise p :
  (forall j, (j < 5)%nat -> apart (Nat.iter j flight p)) ->
  propagate 1 (cruise p) (0.05, 0) propagationStepSize = cruise (leg p).
Proof.
  intros Hsep. rewrite propagate_unfold. cbv zeta.
  rewrite numSteps_of_propagationStepSize, bangBang_cruise.
  replace (INR 5) with 5 by (simpl INR; lra).
  replace (propagationStepSize / 5) with 0.01 by (unfold propagationStepSize; lra).
  destruct (iter_substep_cruise 5 p
              (cruise p, replicate (numDimensions 1) 0, replicate (1 + 1) false))
    as [_ E]; [by split|reflexivity|exact Hsep|].
  rewrite E. fold (leg p). unfold cruise. vec_eval.
  rewrite enforceBounds_id by (pose proof PI_RGT_0; lra).
  reflexivity.
Qed.

Lemma isSatisfied_cruise_false p :
  0.015 < p.1.1 < 0.985 -> isSatisfied 1 (cruise p) = false.
Proof.
  destruct p as [[x v] s]. cbn [fst snd]. intros Hx.
  unfold isSatisfied. apply bool_decide_eq_false.
  rewrite distanceGoal_unfold. unfold cruise, edgeDistance. vec_eval. cbv zeta.
  unfold sideLength, kouleRadius, threshold_.
  unfold Rmin. repeat destruct (Rle_dec _ _); repeat case_decide; lra.
Qed.

Lemma isSatisfied_cruise_true p :
  0.985 <= p.1.1 -> isSatisfied 1 (cruise p) = true.
Proof.
  destruct p as [[x v] s]. cbn [fst snd]. intros Hx.
  unfold isSatisfied. apply bool_decide_eq_true.
  rewrite distanceGoal_unfold. unfold cruise, edgeDistance. vec_eval. cbv zeta.
  unfold sideLength, kouleRadius, threshold_.
  unfold Rmin. repeat destruct (Rle_dec _ _); repeat case_decide; lra.
Qed.

Lemma distanceGoal_cruise_zero p :
  0.995 <= p.1.1 -> distanceGoal 1 (cruise p) = 0.
Proof.
  destruct p as [[x v] s]. cbn [fst snd]. intros Hx.
  rewrite distanceGoal_unfold. unfold cruise, edgeDistance. vec_eval. cbv zeta.
  unfold sideLength, kouleRadius, threshold_.
  unfold Rmin. repeat destruct (Rle_dec _ _); repeat case_decide; lra.
Qed.

Lemma isStateValid_cruise_true p :
  - 0.015 <= p.1.1 <= 1.015 -> - 10 <= p.1.2 <= 10 -> 0.03 <= p.2 <= 0.97 ->
  isStateValid 1 (cruise p) = true.
Proof.
  destruct p as [[x v] s]. cbn [fst snd]. intros Hx Hv Hs.
  unfold isStateValid. apply bool_decide_eq_true.
  unfold cruise, bounds, kouleBounds, shipBounds, sideLength, kouleRadius, shipRadius.
  cbn [fst snd Nat.mul Nat.add take replicate mjoin list_join app].
  repeat (apply Forall2_cons; [cbn [fst snd]; lra|]). apply Forall2_nil.
Qed.

Lemma isStateValid_cruise_false p :
  p.1.2 < - 10 -> isStateValid 1 (cruise p) = false.
Proof.
  destruct p as [[x v] s]. cbn [fst snd]. intros Hs.
  unfold isStateValid. apply bool_decide_eq_false.
  unfold cruise, bounds, kouleBounds, shipBounds, sideLength, kouleRadius, shipRadius.
  cbn [fst snd Nat.mul Nat.add take replicate mjoin list_join app].
  intros HF. do 2 (apply Forall2_cons_1 in HF as [_ HF]).
  apply Forall2_cons_1 in HF as [HF _]. cbn [fst snd] in HF. lra.
Qed.

(** ** A run of sampleTo *)

Lemma apart_5 p :
  apart p /\ apart (flight p) /\ apart (flight (flight p)) /\
  apart (flight (flight (flight p))) /\ apart (flight (flight (flight (flight p)))) ->
  forall j, (j < 5)%nat -> apart (Nat.iter j flight p).
Proof.
  intros (H0 & H1 & H2 & H3 & H4) j Hj.
  destruct j as [|[|[|[|[|j]]]]]; try assumption. lia.
Qed.

Lemma cruise_trajectory :
  let p1 := leg p0 in
  let p2 := leg p1 in
  let p3 := leg p2 in
  ((forall j, (j < 5)%nat -> apart (Nat.iter j flight p0)) /\
   (forall j, (j < 5)%nat -> apart (Nat.iter j flight p1)) /\
   (forall j, (j < 5)%nat -> apart (Nat.iter j flight p2))) /\
  (0.5 <= p1.1.1 < 0.985 /\ - 10 <= p1.1.2 <= 10 /\ 0.03 <= p1.2 <= 0.97) /\
  (0.995 <= p2.1.1 <= 1.015 /\ - 10 <= p2.1.2 <= 10 /\ 0.03 <= p2.2 <= 0.97) /\
  (0.995 <= p3.1.1 /\ p3.2 <> p2.2).
Proof.
  cbv zeta.
  split; [split; [|split]; apply apart_5|];
    unfold leg, p0, apart; cbv [Nat.iter nat_rect]; fly; cbn [fst snd].
  all: repeat split; try lra.
Qed.

Lemma sqrt_009 : sqrt (0.3 * 0.3) = 0.3.
Proof. apply sqrt_square. lra. Qed.

Lemma steeredControl_cruise p propagateMax :
  p.2 = 0.2 ->
  (steeredControl (numDimensions 1) propagationMinSteps propagationMaxSteps propagateMax
                  cs0 (heapOf (cruise p)) 0 1).1 = (0.05, 0).
Proof.
  destruct p as [[x v] s]. cbn [snd]. intros ->.
  unfold steeredControl, heapOf.
  rewrite load_store_ne by done. rewrite !load_store_eq.
  assert (Ers : rng_ (stepBudget propagationMinSteps propagationMaxSteps propagateMax cs0).2
                = fun _ => 0).
  { unfold stepBudget. destruct propagateMax; reflexivity. }
  rewrite steer_directed.
  - cbv zeta. cbn [fst]. rewrite Ers.
    unfold cruise, target, numDimensions. vec_eval.
    unfold uniformReal, uniform01. cbn [fst].
    replace ((0.5 - 0.2) * (0.5 - 0.2) + (0.5 - 0.5) * (0.5 - 0.5)) with (0.3 * 0.3) by lra.
    rewrite sqrt_009. unfold shipVmin, shipVmax, shipAcceleration. f_equal; lra.
  - unfold cruise, target, numDimensions. vec_eval.
    pose proof float_epsilon_small. lra.
Qed.

(** C1, at a failing input: one koule at 0.96 moving right at speed 0.5.
    The goal is first satisfied by the state after step 2 (its distance to
    the goal is 0), which is valid, and the budget is 100 steps, but
    [sampleTo] returns 3 and the state after step 3. *)
Theorem koulesSampleTo_misses_goal_at_step_2 :
  let source := cruise p0 in
  let res := koulesSampleTo 1 true cs0 (heapOf source) 0 1 in
  let steps := res.1.1.1 in
  let control := res.1.1.2 in
  let dest := load res.1.2 1 in
  let x1 := propagate 1 source control propagationStepSize in
  let x2 := propagate 1 x1 control propagationStepSize in
  let x3 := propagate 1 x2 control propagationStepSize in
  (isSatisfied 1 x1 = false /\ isStateValid 1 x1 = true /\
   isSatisfied 1 x2 = true /\ distanceGoal 1 x2 = 0 /\ isStateValid 1 x2 = true) /\
  (steps = 3%nat /\ dest = x3) /\
  (steps <> 2%nat /\ dest <> x2).
Proof.
  cbv zeta. unfold koulesSampleTo.
  pose proof (sampleTo_misses_goal_at_step_2 (numDimensions 1) propagationStepSize
                propagationMinSteps propagationMaxSteps (propagate 1) (isSatisfied 1)
                (isStateValid 1) true cs0 (heapOf (cruise p0)) 0 1) as Hrun.
  cbv zeta in Hrun.
  pose proof (sampleTo_control (numDimensions 1) propagationStepSize
                propagationMinSteps propagationMaxSteps (propagate 1) (isSatisfied 1)
                (isStateValid 1) true cs0 (heapOf (cruise p0)) 0 1) as Hc.
  rewrite steeredControl_cruise in Hc by reflexivity.
  set (res := sampleTo _ _ _ _ _ _ _ _ _ _ _ _) in *. rewrite Hc in *.
  assert (Hsrc : load (heapOf (cruise p0)) 0 = cruise p0).
  { unfold heapOf. rewrite load_store_ne by done. apply load_store_eq. }
  rewrite Hsrc in Hrun.
  destruct cruise_trajectory
    as ((Ha0 & Ha1 & Ha2) & (Hx1 & Hv1 & Hs1) & (Hx2 & Hv2 & Hs2) & Hx3 & Hne).
  rewrite (propagate_cruise p0 Ha0) in *.
  rewrite (propagate_cruise (leg p0) Ha1) in *.
  rewrite (propagate_cruise (leg (leg p0)) Ha2) in *.
  assert (G1 : isSatisfied 1 (cruise (leg p0)) = false)
    by (apply isSatisfied_cruise_false; lra).
  assert (V1 : isStateValid 1 (cruise (leg p0)) = true)
    by (apply isStateValid_cruise_true; lra).
  assert (G2 : isSatisfied 1 (cruise (leg (leg p0))) = true)
    by (apply isSatisfied_cruise_true; lra).
  assert (V2 : isStateValid 1 (cruise (leg (leg p0))) = true)
    by (apply isStateValid_cruise_true; lra).
  assert (G3 : isSatisfied 1 (cruise (leg (leg (leg p0)))) = true)
    by (apply isSatisfied_cruise_true; lra).
  destruct Hrun as [Hr Hd]; try assumption.
  { cbn. lia. }
  { cbn. unfold propagationMaxSteps. lia. }
  assert (D2 : distanceGoal 1 (cruise (leg (leg p0))) = 0)
    by (apply distanceGoal_cruise_zero; lra).
  split; [by repeat split|]. split; [by split|].
  split; [by rewrite Hr|].
  rewrite Hd. intros E. apply Hne.
  apply (f_equal (fun st => st !!! 4%nat)) in E. exact E.
Qed.

Lemma speeding_first_step :
  (forall j, (j < 5)%nat -> apart (Nat.iter j flight speeding)) /\
  0.015 < (leg speeding).1.1 < 0.985 /\ (leg speeding).1.2 < - 10.
Proof.
  split; [apply apart_5|];
    unfold leg, speeding, apart; cbv [Nat.iter nat_rect]; fly; cbn [fst snd].
  all: repeat split; try lra.
Qed.

(** At [speeding] the first step is invalid: 0 steps, and [dest] is the
    source state. *)
Lemma sampleTo_first_step_invalid_witness :
  let res := koulesSampleTo 1 false cs0 (heapOf (cruise speeding)) 0 1 in
  res.1.1.1 = 0%nat /\ load res.1.2 1 = cruise speeding.
Proof.
  cbv zeta. unfold koulesSampleTo.
  pose proof (sampleTo_first_step_invalid (numDimensions 1) propagationStepSize
                propagationMinSteps propagationMaxSteps (propagate 1) (isSatisfied 1)
                (isStateValid 1) false cs0 (heapOf (cruise speeding)) 0 1) as Hrun.
  cbv zeta in Hrun.
  pose proof (sampleTo_control (numDimensions 1) propagationStepSize
                propagationMinSteps propagationMaxSteps (propagate 1) (isSatisfied 1)
                (isStateValid 1) false cs0 (heapOf (cruise speeding)) 0 1) as Hc.
  rewrite steeredControl_cruise in Hc by reflexivity.
  set (res := sampleTo _ _ _ _ _ _ _ _ _ _ _ _) in *. rewrite Hc in Hrun.
  assert (Hsrc : load (heapOf (cruise speeding)) 0 = cruise speeding).
  { unfold heapOf. rewrite load_store_ne by done. apply load_store_eq. }
  rewrite Hsrc in Hrun.
  destruct speeding_first_step as (Ha & Hx & Hv).
  rewrite (propagate_cruise speeding Ha) in Hrun.
  destruct Hrun as (Hr & _ & Hd).
  - apply isSatisfied_cruise_false. exact Hx.
  - apply isStateValid_cruise_false. exact Hv.
  - split; [exact Hr|]. apply Hd. done.
Defined.

(** Steering from a state to its own ship position: the distance is
    zero, [steer] falls back on [sample], and with the variate 0 the
    control is [shipVmin] along the x axis. *)
Lemma steeredControl_aliased p propagateMax :
  (steeredControl (numDimensions 1) propagationMinSteps propagationMaxSteps propagateMax
                  cs0 (heapOf (cruise p)) 0 0).1 = (0.05, 0).
Proof.
  destruct p as [[x v] s]. unfold steeredControl, heapOf.
  rewrite load_store_ne by done. rewrite !load_store_eq.
  assert (Ers : rng_ (stepBudget propagationMinSteps propagationMaxSteps propagateMax cs0).2
                = fun _ => 0).
  { unfold stepBudget. destruct propagateMax; reflexivity. }
  rewrite steer_undirected.
  - unfold sample. rewrite Ers. unfold uniformReal, uniform01, cbounds_low, cbounds_high.
    cbn [fst snd].
    replace ((2 * PI - 0) * 0 + 0) with 0 by lra. rewrite cos_0, sin_0.
    unfold shipVmin, shipVmax, shipAcceleration. f_equal; lra.
  - unfold cruise, numDimensions. vec_eval. cbn [fst snd].
    pose proof float_epsilon_pos. lra.
Qed.

(** C9, at a failing input: [sampleTo] called with one state object as
    [source] and as [dest], a valid state whose koule crosses the arena at
    the largest speed the bounds allow.  The first propagation step
    produces a state that neither satisfies the goal nor is valid;
    [sampleTo] returns 0, but the object holds that invalid state, not
    the source state of the call. *)
Theorem koulesSampleTo_aliased_keeps_invalid_state :
  let source := cruise speeding in
  let res := koulesSampleTo 1 false cs0 (heapOf source) 0 0 in
  let control := res.1.1.2 in
  let dest := load res.1.2 0 in
  let first := propagate 1 source control propagationStepSize in
  (isStateValid 1 source = true /\
   isSatisfied 1 first = false /\ isStateValid 1 first = false) /\
  (res.1.1.1 = 0%nat /\ dest = first) /\
  dest <> source.
Proof.
  cbv zeta. unfold koulesSampleTo.
  pose proof (sampleTo_first_step_invalid_aliased (numDimensions 1) propagationStepSize
                propagationMinSteps propagationMaxSteps (propagate 1) (isSatisfied 1)
                (isStateValid 1) false cs0 (heapOf (cruise speeding)) 0) as Hrun.
  cbv zeta in Hrun.
  pose proof (sampleTo_control (numDimensions 1) propagationStepSize
                propagationMinSteps propagationMaxSteps (propagate 1) (isSatisfied 1)
                (isStateValid 1) false cs0 (heapOf (cruise speeding)) 0 0) as Hc.
  rewrite steeredControl_aliased in Hc.
  set (res := sampleTo _ _ _ _ _ _ _ _ _ _ _ _) in *. rewrite Hc in *.
  assert (Hsrc : load (heapOf (cruise speeding)) 0 = cruise speeding).
  { unfold heapOf. rewrite load_store_ne by done. apply load_store_eq. }
  rewrite Hsrc in Hrun.
  destruct speeding_first_step as (Ha & Hx & Hv).
  rewrite (propagate_cruise speeding Ha) in *.
  assert (V0 : isStateValid 1 (cruise speeding) = true)
    by (apply isStateValid_cruise_true; unfold speeding; cbn [fst snd]; lra).
  assert (G1 : isSatisfied 1 (cruise (leg speeding)) = false)
    by (apply isSatisfied_cruise_false; exact Hx).
  assert (V1 : isStateValid 1 (cruise (leg speeding)) = false)
    by (apply isStateValid_cruise_false; exact Hv).
  destruct (Hrun G1 V1) as [Hr Hd].
  split; [by repeat split|]. split; [by split|].
  rewrite Hd. intros E.
  apply (f_equal (fun st => st !!! 2%nat)) in E.
  unfold cruise, speeding in E. cbn [lookup_total list_lookup_total fst snd] in E.
  unfold speeding in Hv. lra.
Qed.

(** ** Further instances *)

(** At [escaped] the only koule is dropped. *)
Lemma next_level_has_fewer_koules_witness :
  numKoulesOf (cruise escaped) = 1%nat /\
  (numKoulesOf (nextStart (cruise escaped)) < numKoulesOf (cruise escaped))%nat.
Proof.
  apply (next_level_has_fewer_koules 1 (cruise escaped)).
  - reflexivity.
  - apply isSatisfied_cruise_true. unfold escaped. cbn [fst snd]. lra.
Defined.

Lemma rng_ok_cs0 : rng_ok (rng_ cs0).
Proof. intros k. cbn. lra. Qed.

(** From [p0] toward the center, with the draw [shipVmin]. *)
Lemma steer_toward_target_witness :
  norm2 (steer 9 (cruise p0) 0.5 0.5 cs0).1 = shipVmin /\
  normalized (steer 9 (cruise p0) 0.5 0.5 cs0).1 = normalized (0.5 - 0.2, 0.5 - 0.5).
Proof.
  destruct (steer_toward_target 9 (cruise p0) 0.5 0.5 cs0 rng_ok_cs0) as [Hdir _].
  cbv zeta in Hdir. unfold cruise, p0 in Hdir. unfold cruise, p0.
  cbn [lookup_total list_lookup_total Nat.sub fst snd] in Hdir |- *.
  destruct Hdir as (_ & _ & Hn & Hm).
  - pose proof float_epsilon_small. lra.
  - split; [|exact Hn]. rewrite Hm. unfold uniformReal, uniform01. cbn. lra.
Defined.

(** ** Loops over an index range *)

Lemma foldl_seq_ind {A} (P : nat -> A -> Prop) (f : A -> nat -> A) (a : A) (n : nat) :
  P 0%nat a ->
  (forall k a, (k < n)%nat -> P k a -> P (S k) (f a k)) ->
  P n (foldl f a (seq 0 n)).
Proof.
  intros H0 Hstep. induction n as [|n IH]; [exact H0|].
  rewrite seq_S, foldl_app. cbn [foldl Nat.add]. apply Hstep; [lia|].
  apply IH. intros k b Hk. apply Hstep. lia.
Qed.

(** ** signedSO2Distance *)

(** X1: the signed distance is antisymmetric; for two angles in [-pi, pi]
    it lies in [-pi, pi] and is their difference up to one full turn. *)
Theorem signedSO2Distance_wraps x y :
  signedSO2Distance y x = - signedSO2Distance x y /\
  (- PI <= x <= PI -> - PI <= y <= PI ->
   - PI <= signedSO2Distance x y <= PI /\
   (signedSO2Distance x y = x - y \/
    signedSO2Distance x y = x - y + 2 * PI \/
    signedSO2Distance x y = x - y - 2 * PI)).
Proof.
  pose proof PI_RGT_0 as Hpi. unfold signedSO2Distance. split.
  - repeat case_decide; lra.
  - intros Hx Hy. repeat case_decide; split; auto; lra.
Qed.

Lemma signedSO2Distance_wraps_witness :
  - PI <= signedSO2Distance PI (- PI) <= PI.
Proof.
  pose proof PI_RGT_0 as Hpi.
  apply (proj2 (signedSO2Distance_wraps PI (- PI))); lra.
Defined.

(** ** KoulesProjection *)

Lemma KoulesProjection_koules n requested :
  let d := KoulesProjection (numDimensions n) requested in
  (3 <= d <= 2 * n + 3)%nat /\
  ((3 <= requested <= 2 * n + 3)%nat -> d = requested) /\
  KoulesProjection (numDimensions n) d = d.
Proof.
  assert (E : ((numDimensions n - 1) / 2 + 1 = 2 * n + 3)%nat).
  { unfold numDimensions.
    replace (4 * (n + 1) + 1 - 1)%nat with ((2 * n + 2) * 2)%nat by lia.
    rewrite Nat.div_mul by lia. lia. }
  cbv zeta. unfold KoulesProjection. rewrite E.
  repeat case_decide; repeat split; try lia; intros; lia.
Qed.

Lemma pdstDimension_koules n : pdstDimension (numDimensions n) = (2 * n + 3)%nat.
Proof.
  unfold pdstDimension, numDimensions.
  replace (4 * (n + 1) + 1 - 1)%nat with ((2 * n + 2) * 2)%nat by lia.
  rewrite Nat.div_mul by lia. lia.
Qed.

Lemma project_entries n k state projection :
  length projection = (2 * k + 3)%nat ->
  let p := project (numDimensions n) (2 * k + 3) state projection in
  length p = (2 * k + 3)%nat /\
  p !!! 0%nat = state !!! (4 * k)%nat /\
  p !!! 1%nat = state !!! (4 * k + 1)%nat /\
  p !!! 2%nat = state !!! (4 * n + 4)%nat /\
  forall i, (i < k)%nat ->
    p !!! (2 * i + 3)%nat = state !!! (4 * i)%nat /\
    p !!! (2 * i + 4)%nat = state !!! (4 * i + 1)%nat.
Proof.
  intros Hlen. cbv zeta. unfold project.
  replace ((2 * k + 3 - 3) / 2)%nat with k
    by (replace (2 * k + 3 - 3)%nat with (k * 2)%nat by lia; by rewrite Nat.div_mul).
  replace (numDimensions n - 1)%nat with (4 * n + 4)%nat by (unfold numDimensions; lia).
  set (p0 := <[2%nat := _]> _).
  apply (foldl_seq_ind
           (fun j p => length p = (2 * k + 3)%nat /\
                       p !!! 0%nat = state !!! (4 * k)%nat /\
                       p !!! 1%nat = state !!! (4 * k + 1)%nat /\
                       p !!! 2%nat = state !!! (4 * n + 4)%nat /\
                       forall i, (i < j)%nat ->
                         p !!! (2 * i + 3)%nat = state !!! (4 * i)%nat /\
                         p !!! (2 * i + 4)%nat = state !!! (4 * i + 1)%nat)).
  - subst p0. rewrite !length_insert. split; [exact Hlen|].
    rewrite !list_lookup_total_insert_ne by lia.
    rewrite list_lookup_total_insert_eq by (rewrite ?length_insert; lia).
    rewrite !list_lookup_total_insert_ne by lia.
    rewrite list_lookup_total_insert_eq by (rewrite ?length_insert; lia).
    rewrite list_lookup_total_insert_eq by (rewrite ?length_insert; lia).
    repeat split; try reflexivity; lia.
  - intros j p Hj (Hl & H0 & H1 & H2 & Hk). rewrite !length_insert.
    rewrite !list_lookup_total_insert_ne by lia.
    split; [exact Hl|]. split; [exact H0|]. split; [exact H1|]. split; [exact H2|].
    intros i Hi. destruct (decide (i = j)) as [->|Hne].
    + rewrite list_lookup_total_insert_ne by lia.
      rewrite !list_lookup_total_insert_eq by (rewrite ?length_insert; lia). done.
    + rewrite !list_lookup_total_insert_ne by lia. apply Hk. lia.
Qed.

(** X2: the two projections [registerProjections] registers, on a state of
    a space with [n] koules.  The projection registered for PDST has
    [2 * n + 3] coordinates: the position of the ship, its heading, then
    the position of every koule in order.  The default projection has 3
    coordinates; they are the first two reals of the state, the position
    of koule 0 when there is one, and the heading of the ship. *)
Theorem project_registered n state projection :
  length state = numDimensions n ->
  (length projection = KoulesProjection (numDimensions n) (pdstDimension (numDimensions n)) ->
   let p := project (numDimensions n)
              (KoulesProjection (numDimensions n) (pdstDimension (numDimensions n)))
              state projection in
   length p = (2 * n + 3)%nat /\
   p !!! 0%nat = state !!! (4 * n)%nat /\
   p !!! 1%nat = state !!! (4 * n + 1)%nat /\
   p !!! 2%nat = state !!! (4 * n + 4)%nat /\
   forall i, (i < n)%nat ->
     p !!! (2 * i + 3)%nat = state !!! (4 * i)%nat /\
     p !!! (2 * i + 4)%nat = state !!! (4 * i + 1)%nat) /\
  (length projection = KoulesProjection (numDimensions n) 3 ->
   project (numDimensions n) (KoulesProjection (numDimensions n) 3) state projection
   = [state !!! 0%nat; state !!! 1%nat; state !!! (4 * n + 4)%nat]).
Proof.
  intros _. rewrite pdstDimension_koules.
  pose proof (KoulesProjection_koules n (2 * n + 3)) as (_ & Ep & _).
  pose proof (KoulesProjection_koules n 3) as (_ & Ed & _).
  rewrite Ep, Ed by lia. clear Ep Ed.
  split.
  - intros Hlen. exact (project_entries n n state projection Hlen).
  - intros Hlen. destruct (project_entries n 0 state projection Hlen) as (Hl & H0 & H1 & H2 & _).
    cbv zeta in *. set (p := project _ _ _ _) in *.
    destruct p as [|a [|b [|c [|? ?]]]]; try discriminate.
    cbn in H0, H1, H2. by rewrite H0, H1, H2.
Qed.

Lemma project_registered_witness :
  project 9 3 (cruise p0) [0; 0; 0] = [0.96; 0.5; 0].
Proof.
  exact (proj2 (project_registered 1 (cruise p0) [0; 0; 0] eq_refl) eq_refl).
Defined.

(** ** checkCollision: what it writes *)

(** X3: [checkCollision] keeps the length of the state and writes nothing
    but the position and velocity of the two bodies it is called for. *)
Theorem checkCollision_frame n i j dt q k :
  length (checkCollision n i j dt q).2 = length q /\
  (~ (4 * i <= k < 4 * i + 4)%nat -> ~ (4 * j <= k < 4 * j + 4)%nat ->
   (checkCollision n i j dt q).2 !!! k = q !!! k).
Proof.
  destruct (decide (colliding n i j q)) as [Hc|Hc].
  - rewrite checkCollision_hit by exact Hc. cbn [snd].
    destruct (newVelocities n i j q) as [aNewVel bNewVel].
    split; [by vec_simpl|]. intros Hi Hj. by vec_simpl.
  - rewrite checkCollision_miss by exact Hc. done.
Qed.

Lemma checkCollision_frame_witness :
  (checkCollision 1 0 1 0.01 head_on).2 !!! 8%nat = 0.
Proof.
  apply (proj2 (checkCollision_frame 1 0 1 0.01 head_on 8)); lia.
Defined.

(** The entries of the two bodies after a reported collision. *)
Lemma checkCollision_hit_entries n i j dt q :
  (i < j <= n)%nat -> length q = numDimensions n -> colliding n i j q ->
  let q' := (checkCollision n i j dt q).2 in
  let a' := (newVelocities n i j q).1 in
  let b' := (newVelocities n i j q).2 in
  (q' !!! (4 * i)%nat = q !!! (4 * i)%nat + a'.1 * dt /\
   q' !!! (4 * i + 1)%nat = q !!! (4 * i + 1)%nat + a'.2 * dt /\
   q' !!! (4 * i + 2)%nat = a'.1 /\
   q' !!! (4 * i + 3)%nat = a'.2) /\
  (q' !!! (4 * j)%nat = q !!! (4 * j)%nat + b'.1 * dt /\
   q' !!! (4 * j + 1)%nat = q !!! (4 * j + 1)%nat + b'.2 * dt /\
   q' !!! (4 * j + 2)%nat = b'.1 /\
   q' !!! (4 * j + 3)%nat = b'.2).
Proof.
  intros Hij Hlen Hc. cbv zeta. unfold numDimensions in Hlen.
  rewrite checkCollision_hit by exact Hc. cbn [snd].
  destruct (newVelocities n i j q) as [aNewVel bNewVel]. cbn [fst snd].
  repeat split; by vec_simpl.
Qed.

(** X4: when [checkCollision] reports a collision, each of the two bodies
    has moved for [dt] with the velocity it leaves the collision with. *)
Theorem collision_moves_with_new_velocity n i j dt q :
  (i < j <= n)%nat -> length q = numDimensions n ->
  (checkCollision n i j dt q).1 = true ->
  let q' := (checkCollision n i j dt q).2 in
  forall b, b = i \/ b = j ->
    q' !!! (4 * b)%nat = q !!! (4 * b)%nat + q' !!! (4 * b + 2)%nat * dt /\
    q' !!! (4 * b + 1)%nat = q !!! (4 * b + 1)%nat + q' !!! (4 * b + 3)%nat * dt.
Proof.
  intros Hij Hlen Hhit. apply checkCollision_fst in Hhit. cbv zeta.
  destruct (checkCollision_hit_entries n i j dt q Hij Hlen Hhit)
    as ((A0 & A1 & A2 & A3) & (B0 & B1 & B2 & B3)).
  intros b [->| ->].
  - by rewrite A0, A1, A2, A3.
  - by rewrite B0, B1, B2, B3.
Qed.

Lemma collision_moves_with_new_velocity_witness :
  (checkCollision 1 0 1 0.01 head_on).2 !!! 4%nat
  = 0.54 + (checkCollision 1 0 1 0.01 head_on).2 !!! 6%nat * 0.01.
Proof.
  assert (H : (checkCollision 1 0 1 0.01 head_on).1 = true)
    by (apply checkCollision_fst, head_on_colliding).
  exact (proj1 (collision_moves_with_new_velocity 1 0 1 0.01 head_on
                  ltac:(lia) eq_refl H 1%nat (or_intror eq_refl))).
Defined.

(** The exchange along the normal reverses the relative velocity. *)
Lemma elastic_1d_reverses (mA mB aN bN : R) :
  mA + mB <> 0 ->
  (aN * (mA - mB) + 2 * mB * bN) / (mA + mB)
  - (bN * (mB - mA) + 2 * mA * aN) / (mA + mB) = - (aN - bN).
Proof. intros Hm. field. exact Hm. Qed.

Lemma newVelocities_reverse n i j q :
  (i < j <= n)%nat -> colliding n i j q ->
  let dx := q !!! (4 * i)%nat - q !!! (4 * j)%nat in
  let dy := q !!! (4 * i + 1)%nat - q !!! (4 * j + 1)%nat in
  let a' := (newVelocities n i j q).1 in
  let b' := (newVelocities n i j q).2 in
  (a'.1 - b'.1) * dx + (a'.2 - b'.2) * dy
  = - ((q !!! (4 * i + 2)%nat - q !!! (4 * j + 2)%nat) * dx
       + (q !!! (4 * i + 3)%nat - q !!! (4 * j + 3)%nat) * dy).
Proof.
  intros Hij Hc. pose proof (colliding_apart _ _ _ _ Hc) as Hpos. cbv zeta.
  assert (Hm : getMass n i + getMass n j <> 0).
  { pose proof (getMass_pos n i ltac:(lia)). pose proof (getMass_pos n j ltac:(lia)). lra. }
  pose proof (unit_normal _ _ Hpos) as Hunit. cbv zeta in Hunit.
  unfold newVelocities. rewrite !Nat.add_0_r. cbn [fst snd].
  set (dx := q !!! (4 * i)%nat - q !!! (4 * j)%nat) in *.
  set (dy := q !!! (4 * i + 1)%nat - q !!! (4 * j + 1)%nat) in *.
  set (d := sqrt _) in *.
  assert (Hd : 0 < d) by (apply sqrt_lt_R0; exact Hpos).
  set (nx := dx / d) in *. set (ny := dy / d) in *.
  assert (Ex : dx = d * nx) by (subst nx; field; lra).
  assert (Ey : dy = d * ny) by (subst ny; field; lra).
  set (ax := q !!! (4 * i + 2)%nat). set (ay := q !!! (4 * i + 3)%nat).
  set (bx := q !!! (4 * j + 2)%nat). set (by_ := q !!! (4 * j + 3)%nat).
  pose proof (elastic_1d_reverses (getMass n i) (getMass n j)
                (nx * ax + ny * ay) (nx * bx + ny * by_) Hm) as Hrev.
  set (aN' := (_ * (getMass n i - getMass n j) + _) / _) in *.
  set (bN' := (_ * (getMass n j - getMass n i) + _) / _) in *.
  clearbody aN' bN' nx ny.
  rewrite Ex, Ey.
  transitivity (d * ((nx * nx + ny * ny) * (aN' - bN'))); [ring|].
  rewrite Hunit, Hrev. ring.
Qed.

(** X5: after a reported collision the two bodies move apart: called again
    on the state it left, for a step [dt] that was not negative,
    [checkCollision] reports no collision of the same pair. *)
Theorem collision_separates n i j dt dt' q :
  (i < j <= n)%nat -> length q = numDimensions n -> 0 <= dt ->
  (checkCollision n i j dt q).1 = true ->
  (checkCollision n i j dt' (checkCollision n i j dt q).2).1 = false.
Proof.
  intros Hij Hlen Hdt Hhit. apply checkCollision_fst in Hhit.
  destruct (checkCollision_hit_entries n i j dt q Hij Hlen Hhit)
    as ((A0 & A1 & A2 & A3) & (B0 & B1 & B2 & B3)).
  pose proof (newVelocities_reverse n i j q Hij Hhit) as Hrev. cbv zeta in *.
  destruct Hhit as [_ Hclosing]. rewrite !Nat.add_0_r in Hclosing.
  set (q' := (checkCollision n i j dt q).2) in *.
  rewrite checkCollision_miss; [reflexivity|].
  unfold colliding. rewrite !Nat.add_0_r. intros [_ Hagain].
  rewrite A0, A1, A2, A3, B0, B1, B2, B3 in Hagain.
  set (a' := (newVelocities n i j q).1) in *. set (b' := (newVelocities n i j q).2) in *.
  assert (Hsq : 0 <= dt * ((a'.1 - b'.1) * (a'.1 - b'.1) + (a'.2 - b'.2) * (a'.2 - b'.2))).
  { apply Rmult_le_pos; [exact Hdt|].
    apply Rplus_le_le_0_compat; apply Rle_0_sqr. }
  clearbody a' b' q'. lra.
Qed.

Lemma collision_separates_witness :
  (checkCollision 1 0 1 0.01 (checkCollision 1 0 1 0.01 head_on).2).1 = false.
Proof.
  apply (collision_separates 1 0 1 0.01 0.01 head_on); [lia|reflexivity|lra|].
  apply checkCollision_fst, head_on_colliding.
Defined.

(** ** The magnitude of a sampled control *)

Lemma norm2_polar r theta : 0 <= r -> norm2 (r * cos theta, r * sin theta) = r.
Proof.
  intros Hr. pose proof (norm2_scale r (cos theta, sin theta) Hr) as Hs.
  cbn [fst snd] in Hs. rewrite Hs. unfold norm2. cbn [fst snd].
  pose proof (sin2_cos2 theta) as Hu. unfold Rsqr in Hu.
  replace (cos theta * cos theta + sin theta * sin theta) with 1 by lra.
  rewrite sqrt_1. ring.
Qed.

Lemma sample_speed cs : rng_ok (rng_ cs) -> speedWithinLimits cs (sample cs).
Proof.
  intros Hg. unfold speedWithinLimits, sample, cbounds_low, cbounds_high.
  pose proof (uniformReal_range shipVmin shipVmax (rng_ cs) shipVmin_le_shipVmax Hg) as Hr.
  pose proof (uniformReal_rng_ok shipVmin shipVmax (rng_ cs) Hg) as Hg1.
  destruct (uniformReal shipVmin shipVmax (rng_ cs)) as [r g1]. cbn [fst snd] in *.
  pose proof (uniformReal_rng_ok 0 (2 * PI) g1 Hg1) as Hg2.
  destruct (uniformReal 0 (2 * PI) g1) as [theta g2]. cbn [fst snd] in *.
  pose proof shipVmin_pos. rewrite norm2_polar by lra. done.
Qed.

Lemma steer_speed dim state x y cs :
  rng_ok (rng_ cs) -> speedWithinLimits cs (steer dim state x y cs).
Proof.
  intros Hg.
  destruct (decide ((x - state !!! (dim - 5)%nat) * (x - state !!! (dim - 5)%nat)
                    + (y - state !!! (dim - 4)%nat) * (y - state !!! (dim - 4)%nat)
                    > float_epsilon)) as [Hfar|Hnear].
  - rewrite steer_directed by exact Hfar. cbv zeta.
    set (dx := x - state !!! (dim - 5)%nat) in *.
    set (dy := y - state !!! (dim - 4)%nat) in *.
    pose proof (uniformReal_range shipVmin shipVmax (rng_ cs) shipVmin_le_shipVmax Hg) as Hr.
    pose proof (uniformReal_rng_ok shipVmin shipVmax (rng_ cs) Hg) as Hg1.
    set (m := (uniformReal shipVmin shipVmax (rng_ cs)).1) in *.
    pose proof float_epsilon_pos as He. pose proof shipVmin_pos as Hv.
    unfold speedWithinLimits. cbn [fst snd rng_ base_rng_].
    split; [|done].
    change (sqrt (dx * dx + dy * dy)) with (norm2 (dx, dy)).
    set (len := norm2 (dx, dy)).
    assert (Hn : 0 < len) by (apply sqrt_lt_R0; cbn [fst snd]; lra).
    assert (Hk : 0 < m / len) by (apply Rdiv_lt_0_compat; lra).
    pose proof (norm2_scale (m / len) (dx, dy) ltac:(lra)) as Hs.
    cbn [fst snd] in Hs. rewrite Hs. fold len.
    replace (m / len * len) with m by (field; lra). exact Hr.
  - rewrite steer_undirected by exact Hnear. by apply sample_speed.
Qed.

(** X6: every control the sampler hands out has a magnitude within the speed
    limits of the ship: [sample] by its polar form, [steer] by scaling
    the vector to the target (or by falling back on [sample]), and the
    state-based [sample] by steering to a random point of the workspace.
    Each of them draws from [rng_] only and leaves a generator behind
    that is as good as before. *)
Theorem sampled_control_within_speed_limits dim state x y xFirst cs :
  rng_ok (rng_ cs) ->
  speedWithinLimits cs (sample cs) /\
  speedWithinLimits cs (steer dim state x y cs) /\
  speedWithinLimits cs (sampleFrom dim xFirst state cs).
Proof.
  intros Hg. split; [by apply sample_speed|]. split; [by apply steer_speed|].
  unfold sampleFrom.
  pose proof (uniformReal_rng_ok 0 sideLength (rng_ cs) Hg) as Hg1.
  destruct (uniformReal 0 sideLength (rng_ cs)) as [a g1]. cbn [snd] in Hg1.
  pose proof (uniformReal_rng_ok 0 sideLength g1 Hg1) as Hg2.
  destruct (uniformReal 0 sideLength g1) as [b g2]. cbn [snd] in Hg2.
  set (cs' := mkControlSampler (base_rng_ cs) g2).
  assert (H : forall x' y', speedWithinLimits cs (steer dim state x' y' cs')).
  { intros x' y'. apply (steer_speed dim state x' y' cs' Hg2). }
  destruct xFirst; apply H.
Qed.

Lemma sampled_control_within_speed_limits_witness :
  shipVmin <= norm2 (steer 9 (cruise p0) 0.5 0.5 cs0).1 <= shipVmax.
Proof.
  apply (sampled_control_within_speed_limits 9 (cruise p0) 0.5 0.5 true cs0 rng_ok_cs0).
Defined.

(** ** What the loop of sampleTo keeps *)

Section LoopInvariant.
Variable stepSize : R.
Variable propagate : list R -> R * R -> R -> list R.
Variable isSatisfied : list R -> bool.
Variable isValid : list R -> bool.

Variable control : R * R.
Variable x0 : list R.
Variable steps : nat.
Variable dest temp : nat.
Hypothesis dest_temp : dest <> temp.

#[local] Abbreviation x := (stateAfter stepSize propagate control x0).
#[local] Abbreviation loop' :=
  (sampleTo_loop propagate isSatisfied isValid control stepSize steps dest).
#[local] Abbreviation loopResult' := (loopResult isSatisfied isValid x steps dest temp).

(** The loop is entered with the newest state [x i] in [temp1]; [dest] is
    either [temp1], or [temp2] and then holds the state before. *)
Lemma sampleTo_loop_result fuel :
  forall i temp1 temp2 hp,
    (1 <= i)%nat -> (i + fuel = steps)%nat ->
    (temp1 = dest /\ temp2 = temp) \/ (temp1 = temp /\ temp2 = dest) ->
    load hp temp1 = x i ->
    (forall j, (1 <= j <= i)%nat -> isValid (x j) = true) ->
    loopResult' i hp (loop' fuel i temp1 temp2 hp).
Proof.
  induction fuel as [|fuel IH]; intros i temp1 temp2 hp Hi Hfuel Hptr H1 Hvalid.
  - cbn [sampleTo_loop]. unfold sampleTo_finish, loopResult. cbn [fst snd].
    replace steps with i by lia.
    split; [lia|]. split; [|split; [|split]].
    + destruct (decide (dest <> temp1)) as [Hne|Heq].
      * by rewrite load_copyState_eq.
      * apply dec_stable in Heq. by subst temp1.
    + intros j Hj. apply Hvalid. lia.
    + intros p Hpd Hpt. destruct (decide (dest <> temp1)); [|reflexivity].
      by rewrite load_copyState_ne.
    + intros _. split; [apply Hvalid; lia|lia].
  - cbn [sampleTo_loop].
    set (hp1 := store hp temp2 (propagate (load hp temp1) control stepSize)).
    assert (Ht12 : temp1 <> temp2) by (destruct Hptr as [[-> ->]|[-> ->]]; auto).
    assert (E2 : load hp1 temp2 = x (S i)).
    { subst hp1. rewrite load_store_eq, H1. reflexivity. }
    assert (E1 : load hp1 temp1 = x i).
    { subst hp1. by rewrite load_store_ne. }
    assert (Eframe : forall p, p <> dest -> p <> temp -> load hp1 p = load hp p).
    { intros p Hpd Hpt. subst hp1. apply load_store_ne.
      destruct Hptr as [[_ ->]|[_ ->]]; auto. }
    assert (Ed : exists k, (i <= k <= S i)%nat /\ load hp1 dest = x k).
    { destruct Hptr as [[-> ->]|[-> ->]].
      - exists i. split; [lia|exact E1].
      - exists (S i). split; [lia|exact E2]. }
    destruct (isSatisfied (load hp1 dest)) eqn:Hgoal.
    + unfold loopResult. cbn [fst snd].
      replace (i + 1)%nat with (S i) by lia.
      split; [lia|]. split; [|split; [|split]].
      * by rewrite load_copyState_eq.
      * intros j Hj. apply Hvalid. lia.
      * intros p Hpd Hpt. rewrite load_copyState_ne by auto. by apply Eframe.
      * intros Hnever. destruct Ed as (k & Hk & Ek).
        rewrite Ek, (Hnever k) in Hgoal; [discriminate|lia|].
        intros j Hj. apply Hvalid. lia.
    + rewrite E2. destruct (isValid (x (S i))) eqn:Hv.
      * assert (Hnext : loopResult' (S i) hp1 (loop' fuel (S i) temp2 temp1 hp1)).
        { apply IH; [lia|lia| |exact E2|].
          - destruct Hptr as [[-> ->]|[-> ->]]; [by right|by left].
          - intros j Hj. destruct (decide (j = S i)) as [->|]; [exact Hv|].
            apply Hvalid. lia. }
        destruct Hnext as (Hr & Hd & Hbefore & Hfr & Hnogoal).
        split; [lia|]. split; [exact Hd|]. split; [exact Hbefore|].
        split; [|exact Hnogoal].
        intros p Hpd Hpt. rewrite Hfr by assumption. by apply Eframe.
      * unfold sampleTo_finish, loopResult. cbn [fst snd].
        split; [lia|]. split; [|split; [|split]].
        -- destruct (decide (dest <> temp1)) as [Hne|Heq].
           ++ by rewrite load_copyState_eq.
           ++ apply dec_stable in Heq. by subst temp1.
        -- intros j Hj. apply Hvalid. lia.
        -- intros p Hpd Hpt. destruct (decide (dest <> temp1)).
           ++ rewrite load_copyState_ne by auto. by apply Eframe.
           ++ by apply Eframe.
        -- intros _. split; [apply Hvalid; lia|]. intros _. exact Hv.
Qed.
End LoopInvariant.

Section PropagateWhileValid.
Variable dim : nat.
Variable stepSize : R.
Variable minDuration maxDuration : nat.
Variable propagate : list R -> R * R -> R -> list R.
Variable isSatisfied : list R -> bool.
Variable isValid : list R -> bool.
Variable propagateMax : bool.

#[local] Abbreviation budget := (stepBudget minDuration maxDuration propagateMax).
#[local] Abbreviation steered := (steeredControl dim minDuration maxDuration propagateMax).
#[local] Abbreviation run :=
  (sampleTo dim stepSize minDuration maxDuration propagate isSatisfied isValid propagateMax).

(** The three exits of [sampleTo], in the terms of the loop. *)
Lemma sampleTo_result cs hp source dest :
  let res := run cs hp source dest in
  let x := stateAfter stepSize propagate res.1.1.2 (load hp source) in
  let steps := (budget cs).1 in
  (dest < next hp)%nat -> (1 <= steps)%nat ->
  (res.1.1.1 = 0%nat /\ isSatisfied (x 1%nat) = false /\ isValid (x 1%nat) = false /\
   res.1.2 = let hp1 := store hp dest (x 1%nat) in
             if decide (dest <> source) then copyState hp1 dest source else hp1) \/
  ((isSatisfied (x 1%nat) = true \/ isValid (x 1%nat) = true) /\
   loopResult isSatisfied isValid x steps dest (next hp) 1 (store hp dest (x 1%nat))
              (res.1.1.1, res.1.2)).
Proof.
  cbv zeta. rewrite sampleTo_control, sampleTo_unfold. cbv zeta.
  set (control := (steered cs hp source dest).1).
  set (x := stateAfter stepSize propagate control (load hp source)).
  set (steps := (budget cs).1).
  rewrite load_store_eq. change (propagate (load hp source) control stepSize) with (x 1%nat).
  intros Hd Hsteps.
  assert (Hnd : dest <> next hp) by lia.
  destruct (isSatisfied (x 1%nat)) eqn:Hg; cbn [fst snd].
  - right. split; [by left|]. unfold loopResult. cbn [fst snd].
    split; [lia|]. split; [apply load_store_eq|]. split; [intros j Hj; lia|].
    split; [reflexivity|].
    intros Hfree. rewrite (Hfree 1%nat) in Hg; [discriminate|lia|]. intros k Hk. lia.
  - destruct (isValid (x 1%nat)) eqn:Hv; cbn [fst snd].
    + right. split; [by right|].
      set (hp1 := store hp dest (x 1%nat)).
      pose proof (sampleTo_loop_result stepSize propagate isSatisfied isValid control
                    (load hp source) steps dest (next hp) Hnd (steps - 1) 1 dest (next hp)
                    (allocState dim hp1).2) as Hloop.
      destruct Hloop as (Hr & Hdest & Hbefore & Hframe & Hfree).
      * lia.
      * lia.
      * by left.
      * rewrite load_allocState by exact Hnd. apply load_store_eq.
      * intros j Hj. replace j with 1%nat by lia. exact Hv.
      * change (next hp1) with (next hp).
        split; [exact Hr|]. split; [exact Hdest|]. split; [exact Hbefore|].
        split; [|exact Hfree].
        intros p Hpd Hpt. rewrite Hframe by assumption.
        by rewrite load_allocState.
    + left. done.
Qed.

(** X7: whichever way [sampleTo] ends: with a step budget of at least one it
    returns a count [r] within the budget; [dest] then holds the state
    after [r] propagation steps from the source state under the returned
    control (for [r = 0], the source state itself, when [dest] is another
    object); every state on the way, before the last, was valid; and no
    other state that existed before the call is written, the source
    included. *)
Theorem sampleTo_returns_state_after_r_steps cs hp source dest :
  let res := run cs hp source dest in
  let r := res.1.1.1 in
  let hp' := res.1.2 in
  let x := stateAfter stepSize propagate res.1.1.2 (load hp source) in
  (dest < next hp)%nat -> (1 <= (budget cs).1)%nat ->
  (r <= (budget cs).1)%nat /\
  ((1 <= r)%nat \/ dest <> source -> load hp' dest = x r) /\
  (forall j, (1 <= j < r)%nat -> isValid (x j) = true) /\
  (forall p, (p < next hp)%nat -> p <> dest -> load hp' p = load hp p).
Proof.
  cbv zeta. intros Hd Hsteps.
  destruct (sampleTo_result cs hp source dest Hd Hsteps)
    as [(Hr & _ & _ & Hhp)|[_ (Hr & Hdest & Hbefore & Hframe & _)]]; cbv zeta in *.
  - rewrite Hr, Hhp. split; [lia|]. split; [|split; [intros j Hj; lia|]].
    + intros [H|Hne]; [lia|]. rewrite decide_True by exact Hne.
      rewrite load_copyState_eq. by rewrite load_store_ne.
    + intros p Hp Hpd. destruct (decide (dest <> source)).
      * rewrite load_copyState_ne by auto. by rewrite load_store_ne.
      * by rewrite load_store_ne.
  - cbn [fst snd] in *. split; [lia|]. split; [intros _; exact Hdest|].
    split; [exact Hbefore|].
    intros p Hp Hpd. rewrite Hframe by lia. by rewrite load_store_ne.
Qed.

(** X8: when no state reached through valid states satisfies the goal,
    [sampleTo] is [propagateWhileValid]: the count it returns is the
    number of leading valid states of the trajectory, cut at the budget. *)
Theorem sampleTo_without_goal_counts_valid_steps cs hp source dest :
  let res := run cs hp source dest in
  let r := res.1.1.1 in
  let x := stateAfter stepSize propagate res.1.1.2 (load hp source) in
  let steps := (budget cs).1 in
  (dest < next hp)%nat -> (1 <= steps)%nat ->
  goalFree isSatisfied isValid x steps ->
  (r <= steps)%nat /\
  (forall j, (1 <= j <= r)%nat -> isValid (x j) = true) /\
  (r < steps -> isValid (x (S r)) = false)%nat.
Proof.
  cbv zeta. intros Hd Hsteps Hfree.
  destruct (sampleTo_result cs hp source dest Hd Hsteps)
    as [(Hr & _ & Hv & _)|[_ (Hr & _ & Hbefore & _ & Hlast)]]; cbv zeta in *.
  - rewrite Hr. split; [lia|]. split; [intros j Hj; lia|]. intros _. exact Hv.
  - cbn [fst snd] in *. destruct (Hlast Hfree) as [Hvr Hstop].
    split; [lia|]. split; [|exact Hstop].
    intros j Hj. destruct (decide (j = (run cs hp source dest).1.1.1)) as [->|Hne].
    + exact Hvr.
    + apply Hbefore. lia.
Qed.
Lemma sampleTo_sampler cs hp source dest :
  (run cs hp source dest).2 = (steered cs hp source dest).2.
Proof.
  rewrite sampleTo_unfold. cbv zeta.
  destruct (isSatisfied _); [reflexivity|]. by destruct (isValid _).
Qed.

Lemma stepBudget_rng cs : rng_ (budget cs).2 = rng_ cs.
Proof.
  unfold stepBudget. destruct propagateMax; [reflexivity|].
  unfold sampleStepCount. by destruct (uniformInt _ _ _).
Qed.

(** X9: the control [sampleTo] returns is the one [steer] drew toward the
    ship position of [dest]: its magnitude is within the speed limits of
    the ship, and the sampler is left with a generator that is as good
    as before. *)
Theorem sampleTo_control_within_speed_limits cs hp source dest :
  rng_ok (rng_ cs) ->
  let res := run cs hp source dest in
  shipVmin <= norm2 res.1.1.2 <= shipVmax /\ rng_ok (rng_ res.2).
Proof.
  intros Hg. cbv zeta. rewrite sampleTo_control, sampleTo_sampler.
  unfold steeredControl.
  assert (Hg' : rng_ok (rng_ (budget cs).2)) by (by rewrite stepBudget_rng).
  destruct (steer_speed dim (load hp source) (load hp dest !!! (dim - 5)%nat)
              (load hp dest !!! (dim - 4)%nat) (budget cs).2 Hg') as (Hn & Hok & _).
  by split.
Qed.
End PropagateWhileValid.

(** From [p0], with the default budget of 100 steps: the count is within
    the budget and the source state is left alone. *)
Lemma sampleTo_returns_state_after_r_steps_witness :
  let res := koulesSampleTo 1 true cs0 (heapOf (cruise p0)) 0 1 in
  (res.1.1.1 <= 100)%nat /\ load res.1.2 0 = cruise p0.
Proof.
  cbv zeta. unfold koulesSampleTo.
  destruct (sampleTo_returns_state_after_r_steps (numDimensions 1) propagationStepSize
              propagationMinSteps propagationMaxSteps (propagate 1) (isSatisfied 1)
              (isStateValid 1) true cs0 (heapOf (cruise p0)) 0 1)
    as (Hr & _ & _ & Hframe).
  - cbn. lia.
  - cbn. unfold propagationMaxSteps. lia.
  - split; [exact Hr|]. rewrite Hframe; [|cbn; lia|lia].
    unfold heapOf. rewrite load_store_ne by done. apply load_store_eq.
Defined.

(** At [speeding] the first state is invalid and no state is reached
    through valid states: the count is 0. *)
Lemma sampleTo_without_goal_counts_valid_steps_witness :
  (koulesSampleTo 1 true cs0 (heapOf (cruise speeding)) 0 1).1.1.1 = 0%nat.
Proof.
  unfold koulesSampleTo.
  pose proof (sampleTo_without_goal_counts_valid_steps (numDimensions 1) propagationStepSize
                propagationMinSteps propagationMaxSteps (propagate 1) (isSatisfied 1)
                (isStateValid 1) true cs0 (heapOf (cruise speeding)) 0 1) as Hrun.
  cbv zeta in Hrun.
  pose proof (sampleTo_control (numDimensions 1) propagationStepSize
                propagationMinSteps propagationMaxSteps (propagate 1) (isSatisfied 1)
                (isStateValid 1) true cs0 (heapOf (cruise speeding)) 0 1) as Hc.
  rewrite steeredControl_cruise in Hc by reflexivity.
  set (res := sampleTo _ _ _ _ _ _ _ _ _ _ _ _) in *. rewrite Hc in Hrun.
  assert (Hsrc : load (heapOf (cruise speeding)) 0 = cruise speeding).
  { unfold heapOf. rewrite load_store_ne by done. apply load_store_eq. }
  rewrite Hsrc in Hrun.
  destruct speeding_first_step as (Ha & Hx & Hv).
  assert (E1 : stateAfter propagationStepSize (propagate 1) (0.05, 0) (cruise speeding) 1
               = cruise (leg speeding)).
  { unfold stateAfter. cbn [Nat.iter nat_rect]. apply (propagate_cruise speeding Ha). }
  assert (V1 : isStateValid 1 (cruise (leg speeding)) = false)
    by (apply isStateValid_cruise_false; exact Hv).
  destruct Hrun as (_ & Hvalid & _).
  - cbn. lia.
  - cbn. unfold propagationMaxSteps. lia.
  - intros j Hj Hbefore. destruct (decide (j = 1%nat)) as [->|Hne].
    + rewrite E1. apply isSatisfied_cruise_false. exact Hx.
    + specialize (Hbefore 1%nat ltac:(lia)). rewrite E1, V1 in Hbefore. discriminate.
  - destruct (res.1.1.1) as [|r]; [reflexivity|].
    specialize (Hvalid 1%nat ltac:(lia)). rewrite E1, V1 in Hvalid. discriminate.
Defined.

Lemma sampleTo_control_within_speed_limits_witness :
  shipVmin <= norm2 (koulesSampleTo 1 true cs0 (heapOf (cruise p0)) 0 1).1.1.2 <= shipVmax.
Proof.
  unfold koulesSampleTo.
  apply (sampleTo_control_within_speed_limits (numDimensions 1) propagationStepSize
           propagationMinSteps propagationMaxSteps (propagate 1) (isSatisfied 1)
           (isStateValid 1) true cs0 (heapOf (cruise p0)) 0 1 rng_ok_cs0).
Defined.

(** ** ode *)

Lemma length_ode_koule q qdot k : length (ode_koule q qdot k) = length qdot.
Proof. unfold ode_koule. by vec_simpl. Qed.

Lemma length_ode n u q qdot : length (ode n u q qdot) = length qdot.
Proof.
  unfold ode. vec_simpl.
  apply (foldl_invariant (fun qd => length qd = length qdot)); [reflexivity|].
  intros qd k _ Hqd. by rewrite length_ode_koule.
Qed.

Lemma ode_koules_entries q qdot n m :
  (4 * m <= length qdot)%nat -> (m <= n)%nat ->
  let qd := foldl (ode_koule q) qdot (seq 0 m) in
  length qd = length qdot /\ forall i, (i < m)%nat -> kouleDerivative q qd i.
Proof.
  intros Hlen Hm. cbv zeta.
  apply (foldl_seq_ind (fun k qd => (k <= m)%nat ->
           length qd = length qdot /\ forall i, (i < k)%nat -> kouleDerivative q qd i));
    [| |lia].
  - intros _. split; [reflexivity|]. intros i Hi. lia.
  - intros k qd Hk IH _. destruct IH as [Hl IH]; [lia|].
    split; [by rewrite length_ode_koule|].
    intros i Hi. unfold kouleDerivative, ode_koule.
    destruct (decide (i = k)) as [->|Hne].
    + repeat split; by vec_simpl.
    + destruct (IH i ltac:(lia)) as (E0 & E1 & E2 & E3).
      repeat split; by vec_simpl.
Qed.

Lemma ode_entries n u q qdot :
  length qdot = numDimensions n ->
  (forall i, (i < n)%nat -> kouleDerivative q (ode n u q qdot) i) /\
  shipDerivative n u q (ode n u q qdot).
Proof.
  unfold numDimensions. intros Hlen.
  destruct (ode_koules_entries q qdot n n ltac:(lia) ltac:(lia)) as [Hl Hk]. cbv zeta in *.
  unfold ode. set (qd := foldl (ode_koule q) qdot (seq 0 n)) in *.
  split.
  - intros i Hi. destruct (Hk i Hi) as (E0 & E1 & E2 & E3).
    unfold kouleDerivative. repeat split; by vec_simpl.
  - unfold shipDerivative. repeat split; by vec_simpl.
Qed.

(** [ode] writes every entry of [qdot]: what [qdot] held before does not
    matter. *)
Lemma ode_overwrites n u q qdot qdot' :
  length qdot = numDimensions n -> length qdot' = numDimensions n ->
  ode n u q qdot = ode n u q qdot'.
Proof.
  intros Hl Hl'.
  destruct (ode_entries n u q qdot Hl) as [Hk Hs].
  destruct (ode_entries n u q qdot' Hl') as [Hk' Hs'].
  apply list_eq_same_length with (numDimensions n);
    [by rewrite length_ode|by rewrite length_ode|].
  intros k a b Hkn Ha Hb.
  apply list_lookup_total_correct in Ha, Hb. subst a b.
  unfold numDimensions in Hkn.
  destruct (decide (k < 4 * n)%nat) as [Hlt|Hge].
  - pose proof (Nat.div_mod_eq k 4) as Hdm.
    pose proof (Nat.mod_upper_bound k 4 ltac:(lia)) as Hmod.
    set (i := (k / 4)%nat) in *. set (c := (k mod 4)%nat) in *.
    destruct (Hk i ltac:(lia)) as (E0 & E1 & E2 & E3).
    destruct (Hk' i ltac:(lia)) as (F0 & F1 & F2 & F3).
    assert (Hc : (c = 0 \/ c = 1 \/ c = 2 \/ c = 3)%nat) by lia.
    destruct Hc as [Hc|[Hc|[Hc|Hc]]]; rewrite Hc in Hdm; rewrite Hdm.
    + rewrite Nat.add_0_r. by rewrite E0, F0.
    + by rewrite E1, F1.
    + by rewrite E2, F2.
    + by rewrite E3, F3.
  - destruct Hs as (E0 & E1 & E2 & E3 & E4). destruct Hs' as (F0 & F1 & F2 & F3 & F4).
    assert (Hc : (k = 4 * n \/ k = 4 * n + 1 \/ k = 4 * n + 2 \/ k = 4 * n + 3
                  \/ k = 4 * n + 4)%nat) by lia.
    destruct Hc as [->|[->|[->|[->| ->]]]]; congruence.
Qed.

(** ** The scratch vectors of the propagator *)

Lemma collidePair_flags_length n dt i st j :
  length (collidePair n dt i st j).2 = length st.2.
Proof.
  destruct st as [q hc]. unfold collidePair.
  destruct (checkCollision n i j dt q) as [[] q']; cbn [snd]; [|reflexivity].
  by rewrite !length_insert.
Qed.

Lemma collideRow_flags_length n dt st i :
  length (collideRow n dt st i).2 = length st.2.
Proof.
  unfold collideRow.
  apply (foldl_invariant (fun st' => length st'.2 = length st.2)); [reflexivity|].
  intros st' j _ Hst'. by rewrite collidePair_flags_length.
Qed.

Lemma update_flags_length n dt qdot st :
  length (update n dt qdot st).2 = length st.2.
Proof.
  destruct st as [q hc]. rewrite update_unfold. cbv zeta. cbn [snd].
  transitivity (length (replicate (length hc) false)); [|apply length_replicate].
  apply (foldl_invariant
           (fun st' => length st'.2 = length (replicate (length hc) false))); [reflexivity|].
  intros st' i _ Hst'. by rewrite collideRow_flags_length.
Qed.

Lemma update_ignores_flags n dt qdot q hc hc' :
  length hc = length hc' -> update n dt qdot (q, hc) = update n dt qdot (q, hc').
Proof. intros Hl. rewrite !update_unfold. by rewrite Hl. Qed.

Lemma substep_ignores_scratch n u dt q qdot qdot' hc hc' :
  length qdot = numDimensions n -> length qdot' = numDimensions n ->
  length hc = length hc' ->
  substep n u dt (q, qdot, hc) = substep n u dt (q, qdot', hc').
Proof.
  intros Hl Hl' Hhc. unfold substep.
  rewrite (ode_overwrites n u q qdot qdot' Hl Hl').
  by rewrite (update_ignores_flags n dt _ q hc hc' Hhc).
Qed.

Lemma substep_scratch_sizes n u dt sc :
  length (substep n u dt sc).1.2 = length sc.1.2 /\
  length (substep n u dt sc).2 = length sc.2.
Proof.
  destruct sc as [[q qdot] hc]. unfold substep.
  pose proof (update_flags_length n dt (ode n u q qdot) (q, hc)) as Hf.
  destruct (update n dt (ode n u q qdot) (q, hc)) as [q' hc']. cbn [fst snd] in *.
  split; [apply length_ode|exact Hf].
Qed.

Lemma iter_substep_scratch_sizes n u dt k sc :
  length (Nat.iter k (substep n u dt) sc).1.2 = length sc.1.2 /\
  length (Nat.iter k (substep n u dt) sc).2 = length sc.2.
Proof.
  induction k as [|k [IH1 IH2]]; [by split|].
  rewrite Nat.iter_succ.
  destruct (substep_scratch_sizes n u dt (Nat.iter k (substep n u dt) sc)) as [H1 H2].
  split; congruence.
Qed.

(** X10: the scratch vectors [qdot] and [hasCollision] are members of the
    propagator that survive from call to call.  Whatever an earlier call
    left in them, [propagate] returns what it returns on fresh ones, and
    leaves them with the sizes the constructor gave them. *)
Theorem propagate_ignores_scratch n qdot hasCollision start control duration :
  length qdot = numDimensions n -> length hasCollision = (n + 1)%nat ->
  let res := propagateOn n qdot hasCollision start control duration in
  res.1 = propagate n start control duration /\
  length res.2.1.2 = numDimensions n /\ length res.2.2 = (n + 1)%nat.
Proof.
  intros Hqd Hhc. cbv zeta. unfold propagateOn. rewrite propagate_unfold. cbv zeta.
  cbn [fst snd].
  set (u := bangBang n control start).
  set (numSteps := Z.to_nat (ceil (duration / timeStep_))).
  set (dt := duration / INR numSteps).
  destruct (iter_substep_scratch_sizes n u dt numSteps (start, qdot, hasCollision))
    as [H1 H2]. cbn [fst snd] in H1, H2.
  split; [|split; congruence].
  assert (E : (Nat.iter numSteps (substep n u dt) (start, qdot, hasCollision)).1.1
              = (Nat.iter numSteps (substep n u dt)
                   (start, replicate (numDimensions n) 0, replicate (n + 1) false)).1.1).
  { destruct numSteps as [|k]; [reflexivity|].
    rewrite !Nat.iter_succ_r.
    rewrite (substep_ignores_scratch n u dt start qdot (replicate (numDimensions n) 0)
               hasCollision (replicate (n + 1) false));
      [reflexivity|exact Hqd|apply length_replicate|by rewrite length_replicate]. }
  by rewrite E.
Qed.

Lemma propagate_ignores_scratch_witness :
  (propagateOn 1 [1; 2; 3; 4; 5; 6; 7; 8; 9] [true; true] (cruise p0) (0.05, 0) 0.05).1
  = propagate 1 (cruise p0) (0.05, 0) 0.05.
Proof.
  apply (propagate_ignores_scratch 1 [1; 2; 3; 4; 5; 6; 7; 8; 9] [true; true]
           (cruise p0) (0.05, 0) 0.05); reflexivity.
Defined.

(** ** A sub-step without collisions *)

Lemma collideRow_none n dt q flags i :
  collisionFree n q -> (i < n)%nat -> collideRow n dt (q, flags) i = (q, flags).
Proof.
  intros Hfree Hi. unfold collideRow.
  apply (foldl_invariant (fun st => st = (q, flags))); [reflexivity|].
  intros st j Hj ->. apply elem_of_seq in Hj. unfold collidePair.
  rewrite checkCollision_miss; [reflexivity|]. apply Hfree. lia.
Qed.

Lemma collide_none n dt q flags :
  collisionFree n q -> foldl (collideRow n dt) (q, flags) (seq 0 n) = (q, flags).
Proof.
  intros Hfree.
  apply (foldl_invariant (fun st => st = (q, flags))); [reflexivity|].
  intros st i Hi ->. apply elem_of_seq in Hi. apply collideRow_none; [exact Hfree|lia].
Qed.

Lemma eulerBody_entries qdot dt i width q :
  (4 * i + width <= length q)%nat ->
  length (eulerBody qdot dt i width q) = length q /\
  forall k, eulerBody qdot dt i width q !!! k
            = if decide (4 * i <= k < 4 * i + width)%nat
              then q !!! k + qdot !!! k * dt else q !!! k.
Proof.
  intros Hlen. unfold eulerBody.
  pose proof (foldl_seq_ind (fun w q' => (w <= width)%nat ->
           length q' = length q /\
           forall k, q' !!! k = if decide (4 * i <= k < 4 * i + w)%nat
                                then q !!! k + qdot !!! k * dt else q !!! k)) as Hind.
  apply Hind; [| |lia]; clear Hind.
  - intros _. split; [reflexivity|]. intros k. rewrite decide_False by lia. reflexivity.
  - intros w q' Hw IH _. destruct IH as [Hl IH]; [lia|].
    split; [by rewrite length_incr|]. intros k.
    destruct (decide (k = 4 * i + w)%nat) as [->|Hne].
    + rewrite lookup_incr_eq by lia. rewrite IH.
      rewrite decide_False by lia. rewrite decide_True by lia. reflexivity.
    + rewrite lookup_incr_ne by lia. rewrite IH.
      destruct (decide (4 * i <= k < 4 * i + w)%nat);
        [rewrite decide_True by lia|rewrite decide_False by lia]; reflexivity.
Qed.

Lemma euler_koules_entries qdot dt (flags : list bool) n m q :
  (4 * n <= length q)%nat -> (m <= n)%nat ->
  (forall i, (i < m)%nat -> flags !!! i = false) ->
  let q' := foldl (fun q i => if negb (flags !!! i) then eulerBody qdot dt i 4 q else q)
                  q (seq 0 m) in
  length q' = length q /\
  forall k, q' !!! k = if decide (k < 4 * m)%nat then q !!! k + qdot !!! k * dt else q !!! k.
Proof.
  intros Hlen Hm Hflags. cbv zeta.
  pose proof (foldl_seq_ind (fun w q' => (w <= m)%nat ->
           length q' = length q /\
           forall k, q' !!! k = if decide (k < 4 * w)%nat
                                then q !!! k + qdot !!! k * dt else q !!! k)) as Hind.
  apply Hind; [| |lia]; clear Hind.
  - intros _. split; [reflexivity|]. intros k. rewrite decide_False by lia. reflexivity.
  - intros w q' Hw IH _. destruct IH as [Hl IH]; [lia|].
    rewrite Hflags by lia. cbn [negb].
    destruct (eulerBody_entries qdot dt w 4 q' ltac:(lia)) as [Hl' He].
    split; [congruence|]. intros k. rewrite He, IH.
    destruct (decide (4 * w <= k < 4 * w + 4)%nat).
    + rewrite decide_False by lia. rewrite decide_True by lia. reflexivity.
    + destruct (decide (k < 4 * w)%nat);
        [rewrite decide_True by lia|rewrite decide_False by lia]; reflexivity.
Qed.

Lemma update_free n dt qdot q hc :
  length q = numDimensions n -> length hc = (n + 1)%nat -> collisionFree n q ->
  (update n dt qdot (q, hc)).2 = replicate (n + 1) false /\
  forall k, (k < numDimensions n)%nat ->
    (update n dt qdot (q, hc)).1 !!! k = q !!! k + qdot !!! k * dt.
Proof.
  unfold numDimensions. intros Hlen Hhc Hfree.
  rewrite update_unfold. cbv zeta. rewrite Hhc, (collide_none n dt q _ Hfree).
  cbn [fst snd]. split; [reflexivity|].
  assert (Hflags : forall i, (i <= n)%nat -> replicate (n + 1) false !!! i = false).
  { intros i Hi. apply lookup_total_replicate_2. lia. }
  destruct (euler_koules_entries qdot dt (replicate (n + 1) false) n n q
              ltac:(lia) ltac:(lia)) as [Hl1 He1].
  { intros i Hi. apply Hflags. lia. }
  cbv zeta in Hl1, He1. set (q1 := foldl _ q (seq 0 n)) in *.
  rewrite Hflags by lia. cbn [negb].
  destruct (eulerBody_entries qdot dt n 5 q1 ltac:(lia)) as [_ He2].
  intros k Hk. rewrite He2, He1.
  destruct (decide (4 * n <= k < 4 * n + 5)%nat).
  - by rewrite decide_False by lia.
  - by rewrite decide_True by lia.
Qed.

(** X11: in a state in which no two bodies collide, one sub-step [ode; update]
    is one explicit Euler step of the equations of motion: a koule moves
    with its velocity and is pulled to the center with friction, the
    ship moves with its velocity and accelerates and turns as the
    command says; no body is flagged. *)
Theorem substep_without_collision_is_euler_step n u dt q qdot hasCollision :
  length q = numDimensions n -> length qdot = numDimensions n ->
  length hasCollision = (n + 1)%nat -> collisionFree n q ->
  let sc := substep n u dt (q, qdot, hasCollision) in
  (forall i, (i < n)%nat -> kouleDerivative q sc.1.2 i) /\
  shipDerivative n u q sc.1.2 /\
  (forall k, (k < numDimensions n)%nat -> sc.1.1 !!! k = q !!! k + sc.1.2 !!! k * dt) /\
  sc.2 = replicate (n + 1) false.
Proof.
  intros Hq Hqd Hhc Hfree. cbv zeta. unfold substep.
  destruct (ode_entries n u q qdot Hqd) as [Hk Hs].
  destruct (update_free n dt (ode n u q qdot) q hasCollision Hq Hhc Hfree) as [Hfl He].
  destruct (update n dt (ode n u q qdot) (q, hasCollision)) as [q' hc'].
  cbn [fst snd] in *. done.
Qed.

Lemma cruise_collisionFree p : apart p -> collisionFree 1 (cruise p).
Proof.
  intros Hsep i j Hij. replace i with 0%nat by lia. replace j with 1%nat by lia.
  by apply cruise_not_colliding.
Qed.

Lemma substep_without_collision_is_euler_step_witness :
  let sc := substep 1 (0, 0, 0) 0.01 (cruise p0, replicate 9 0, [false; false]) in
  sc.1.1 !!! 0%nat = 0.96 + sc.1.2 !!! 0%nat * 0.01.
Proof.
  assert (Hsep : apart p0) by (unfold apart, p0; cbn [fst snd]; lra).
  destruct (substep_without_collision_is_euler_step 1 (0, 0, 0) 0.01 (cruise p0)
              (replicate 9 0) [false; false] eq_refl eq_refl eq_refl
              (cruise_collisionFree p0 Hsep)) as (_ & _ & He & _).
  apply (He 0%nat). unfold numDimensions. lia.
Defined.

(** ** Bodies that do not collide *)

Lemma checkCollision_other_entries n i j dt q k :
  ~ (4 * i <= k < 4 * i + 4)%nat -> ~ (4 * j <= k < 4 * j + 4)%nat ->
  (checkCollision n i j dt q).2 !!! k = q !!! k.
Proof.
  intros Hi Hj. destruct (decide (colliding n i j q)) as [Hc|Hc].
  - rewrite checkCollision_hit by exact Hc. cbn [snd].
    destruct (newVelocities n i j q) as [aNewVel bNewVel]. by vec_simpl.
  - by rewrite checkCollision_miss by exact Hc.
Qed.

Lemma checkCollision_length n i j dt q : length (checkCollision n i j dt q).2 = length q.
Proof.
  destruct (decide (colliding n i j q)) as [Hc|Hc].
  - rewrite checkCollision_hit by exact Hc. cbn [snd].
    destruct (newVelocities n i j q) as [aNewVel bNewVel]. by vec_simpl.
  - by rewrite checkCollision_miss by exact Hc.
Qed.

Section Untouched.
Variable n : nat.
Variable q : list R.

(** A body that is not flagged is as it was in [q]. *)
#[local] Abbreviation untouched := (unflaggedAsIn n q).

Lemma untouched_collidePair dt i j st :
  (i < j <= n)%nat -> untouched st -> untouched (collidePair n dt i st j).
Proof.
  intros Hij Hst. destruct st as [q1 hc]. unfold collidePair.
  destruct (decide (colliding n i j q1)) as [Hc|Hc];
    [|by rewrite checkCollision_miss by exact Hc].
  destruct Hst as (Hl & Hf & Hb). cbn [fst snd] in *.
  pose proof (checkCollision_length n i j dt q1) as Hlen.
  pose proof (fun k => checkCollision_other_entries n i j dt q1 k) as Hframe.
  assert (Hhit : (checkCollision n i j dt q1).1 = true) by (by rewrite checkCollision_hit).
  destruct (checkCollision n i j dt q1) as [hit q2]. cbn [fst snd] in *. subst hit.
  unfold unflaggedAsIn. cbn [fst snd].
  split; [congruence|]. split; [by rewrite !length_insert|].
  intros b Hbn Hflag c Hc'.
  destruct (decide (b = j)) as [->|Hbj].
  { rewrite list_lookup_total_insert_eq in Hflag by (rewrite length_insert; lia).
    discriminate. }
  rewrite list_lookup_total_insert_ne in Hflag by done.
  destruct (decide (b = i)) as [->|Hbi].
  { rewrite list_lookup_total_insert_eq in Hflag by lia. discriminate. }
  rewrite list_lookup_total_insert_ne in Hflag by done.
  rewrite Hframe by lia. by apply Hb.
Qed.

Lemma untouched_collideRow dt i st :
  (i < n)%nat -> untouched st -> untouched (collideRow n dt st i).
Proof.
  intros Hi Hst. unfold collideRow.
  apply (foldl_invariant untouched); [exact Hst|].
  intros st' j Hj Hst'. apply elem_of_seq in Hj. apply untouched_collidePair; [lia|exact Hst'].
Qed.

Lemma untouched_collisions dt :
  untouched (foldl (collideRow n dt) (q, replicate (n + 1) false) (seq 0 n)).
Proof.
  apply (foldl_invariant untouched).
  - unfold unflaggedAsIn. cbn [fst snd]. split; [reflexivity|].
    split; [apply length_replicate|]. done.
  - intros st i Hi Hst. apply elem_of_seq in Hi.
    apply untouched_collideRow; [lia|exact Hst].
Qed.
End Untouched.

Lemma euler_koules_flagged qdot dt (flags : list bool) m q :
  (4 * m <= length q)%nat ->
  let q' := foldl (fun q i => if negb (flags !!! i) then eulerBody qdot dt i 4 q else q)
                  q (seq 0 m) in
  length q' = length q /\
  forall b c, (c < 4)%nat ->
    q' !!! (4 * b + c)%nat
    = if decide ((b < m)%nat /\ flags !!! b = false)
      then q !!! (4 * b + c)%nat + qdot !!! (4 * b + c)%nat * dt
      else q !!! (4 * b + c)%nat.
Proof.
  intros Hlen. cbv zeta.
  pose proof (foldl_seq_ind (fun w q' => (w <= m)%nat ->
           length q' = length q /\
           forall b c, (c < 4)%nat ->
             q' !!! (4 * b + c)%nat
             = if decide ((b < w)%nat /\ flags !!! b = false)
               then q !!! (4 * b + c)%nat + qdot !!! (4 * b + c)%nat * dt
               else q !!! (4 * b + c)%nat)) as Hind.
  apply Hind; [| |lia]; clear Hind.
  - intros _. split; [reflexivity|]. intros b c Hc.
    rewrite decide_False by (intros [? _]; lia). reflexivity.
  - intros w q' Hw IH _. destruct IH as [Hl IH]; [lia|].
    destruct (flags !!! w) eqn:Hflag; cbn [negb].
    + split; [exact Hl|]. intros b c Hc. rewrite IH by exact Hc.
      destruct (decide ((b < w)%nat /\ flags !!! b = false)) as [[H1 H2]|Hn].
      * rewrite decide_True by (split; [lia|exact H2]). reflexivity.
      * rewrite decide_False; [reflexivity|]. intros [H1 H2].
        destruct (decide (b = w)) as [->|Hne]; [congruence|]. apply Hn. split; [lia|exact H2].
    + destruct (eulerBody_entries qdot dt w 4 q' ltac:(lia)) as [Hl' He].
      split; [congruence|]. intros b c Hc. rewrite He, IH by exact Hc.
      destruct (decide (b = w)) as [->|Hne].
      * rewrite decide_True by lia. rewrite decide_False by (intros [? _]; lia).
        rewrite decide_True by (split; [lia|exact Hflag]). reflexivity.
      * rewrite decide_False by lia.
        destruct (decide ((b < w)%nat /\ flags !!! b = false)) as [[H1 H2]|Hn].
        -- rewrite decide_True by (split; [lia|exact H2]). reflexivity.
        -- rewrite decide_False; [reflexivity|]. intros [H1 H2]. apply Hn. split; [lia|exact H2].
Qed.

(** X21: whatever the other bodies do, a body that [update] does not flag took
    part in no collision and makes one explicit Euler step with the
    derivative [qdot]: four entries for a koule, five for the ship. *)
Theorem update_advances_unflagged_bodies n dt qdot q hasCollision b :
  length q = numDimensions n -> length hasCollision = (n + 1)%nat -> (b <= n)%nat ->
  (update n dt qdot (q, hasCollision)).2 !!! b = false ->
  forall c, (c < if decide (b = n) then 5 else 4)%nat ->
    (update n dt qdot (q, hasCollision)).1 !!! (4 * b + c)%nat
    = q !!! (4 * b + c)%nat + qdot !!! (4 * b + c)%nat * dt.
Proof.
  unfold numDimensions. intros Hlen Hhc Hb.
  rewrite update_unfold. cbv zeta. cbn [fst snd]. rewrite Hhc.
  pose proof (untouched_collisions n q dt) as (Hl & Hfl & Hun).
  set (st := foldl (collideRow n dt) _ _) in *.
  assert (Hhead : keeps q (4 * n + 4) st.1).
  { apply (foldl_invariant (fun st => keeps q (4 * n + 4) st.1)); [apply keeps_refl|].
    intros st' i Hi Hst'. apply elem_of_seq in Hi.
    apply keeps_collideRow; [lia|lia|exact Hst']. }
  destruct (euler_koules_flagged qdot dt st.2 n st.1 ltac:(lia)) as [Hl1 He1].
  cbv zeta in Hl1, He1. set (q1 := foldl _ st.1 (seq 0 n)) in *.
  intros Hflag c Hc.
  destruct (decide (b = n)) as [->|Hne].
  - rewrite Hflag. cbn [negb].
    destruct (eulerBody_entries qdot dt n 5 q1 ltac:(lia)) as [_ He2].
    rewrite He2, decide_True by lia.
    destruct (decide (c = 4%nat)) as [->|Hc4].
    + pose proof (He1 (n + 1)%nat 0%nat ltac:(lia)) as E.
      rewrite decide_False in E by (intros [? _]; lia).
      replace (4 * (n + 1) + 0)%nat with (4 * n + 4)%nat in E by lia.
      rewrite E. destruct Hhead as [_ ->]. reflexivity.
    + rewrite He1 by lia. rewrite decide_False by (intros [? _]; lia).
      rewrite (Hun n) by (assumption || lia). reflexivity.
  - assert (Hkoule : q1 !!! (4 * b + c)%nat
                     = q !!! (4 * b + c)%nat + qdot !!! (4 * b + c)%nat * dt).
    { rewrite He1 by exact Hc. rewrite decide_True by (split; [lia|exact Hflag]).
      rewrite (Hun b) by (assumption || lia). reflexivity. }
    destruct (negb (st.2 !!! n)); [|exact Hkoule].
    destruct (eulerBody_entries qdot dt n 5 q1 ltac:(lia)) as [_ He2].
    rewrite He2, decide_False by lia. exact Hkoule.
Qed.

(** At [far_apart] the koule is not flagged. *)
Lemma update_advances_unflagged_bodies_witness :
  (update 1 0.01 (replicate 9 1) (far_apart, [false; false])).1 !!! 0%nat
  = 0.2 + 1 * 0.01.
Proof.
  assert (Hflag : (update 1 0.01 (replicate 9 1) (far_apart, [false; false])).2 !!! 0%nat
                  = false).
  { rewrite update_unfold. cbv zeta. cbn [snd].
    unfold collideRow, collidePair. cbn [length replicate seq foldl Nat.add Nat.sub].
    rewrite (checkCollision_miss 1 0 1 0.01 far_apart far_apart_not_colliding).
    reflexivity. }
  exact (update_advances_unflagged_bodies 1 0.01 (replicate 9 1) far_apart [false; false] 0
           eq_refl eq_refl (Nat.le_0_l 1) Hflag 0%nat (Nat.lt_0_succ 3)).
Defined.

(** ** How far the ship turns *)

Lemma update_heading_cases n dt qdot q hc :
  length q = numDimensions n ->
  let heading := (update n dt qdot (q, hc)).1 !!! (4 * n + 4)%nat in
  heading = q !!! (4 * n + 4)%nat \/
  heading = q !!! (4 * n + 4)%nat + qdot !!! (4 * n + 4)%nat * dt.
Proof.
  unfold numDimensions. intros Hlen. cbv zeta.
  rewrite update_unfold. cbv zeta. cbn [fst snd].
  set (st := foldl (collideRow n dt) _ _).
  assert (H1 : keeps q (4 * n + 4) st.1).
  { apply (foldl_invariant (fun st => keeps q (4 * n + 4) st.1)); [apply keeps_refl|].
    intros st' i Hi Hst'. apply elem_of_seq in Hi.
    apply keeps_collideRow; [lia|lia|exact Hst']. }
  set (q1 := foldl _ st.1 _).
  assert (H2 : keeps q (4 * n + 4) q1).
  { apply (foldl_invariant (keeps q (4 * n + 4))); [exact H1|].
    intros q' i Hi Hq'. apply elem_of_seq in Hi. destruct (negb _); [|exact Hq'].
    apply keeps_eulerBody; [lia|exact Hq']. }
  destruct H2 as [Hl2 Hh2].
  destruct (negb _).
  - right. destruct (eulerBody_entries qdot dt n 5 q1 ltac:(lia)) as [_ He].
    rewrite He, decide_True by lia. by rewrite Hh2.
  - left. exact Hh2.
Qed.

Lemma substep_heading_cases n u dt sc :
  length sc.1.1 = numDimensions n -> length sc.1.2 = numDimensions n ->
  let heading := (substep n u dt sc).1.1 !!! (4 * n + 4)%nat in
  heading = sc.1.1 !!! (4 * n + 4)%nat \/
  heading = sc.1.1 !!! (4 * n + 4)%nat + u.2 * dt.
Proof.
  destruct sc as [[q qdot] hc]. cbn [fst snd]. intros Hq Hqd. unfold substep.
  pose proof (update_heading_cases n dt (ode n u q qdot) q hc Hq) as Hc. cbv zeta in Hc.
  destruct (ode_entries n u q qdot Hqd) as [_ (_ & _ & _ & _ & Eu)]. rewrite Eu in Hc.
  by destruct (update n dt (ode n u q qdot) (q, hc)) as [q' hc'].
Qed.

Lemma iter_substep_heading n u dt k sc :
  length sc.1.1 = numDimensions n -> length sc.1.2 = numDimensions n ->
  exists j, (j <= k)%nat /\
    (Nat.iter k (substep n u dt) sc).1.1 !!! (4 * n + 4)%nat
    = sc.1.1 !!! (4 * n + 4)%nat + INR j * (u.2 * dt).
Proof.
  intros Hq Hqd. induction k as [|k (j & Hj & IH)].
  - exists 0%nat. split; [lia|]. cbn [Nat.iter nat_rect INR]. lra.
  - rewrite Nat.iter_succ.
    destruct (substep_heading_cases n u dt (Nat.iter k (substep n u dt) sc)) as [E|E].
    + by rewrite iter_substep_length.
    + destruct (iter_substep_scratch_sizes n u dt k sc) as [-> _]. exact Hqd.
    + exists j. split; [lia|]. by rewrite E.
    + exists (S j). split; [lia|]. rewrite E, IH, S_INR. ring.
Qed.

Lemma bangBang_torque n control q : Rabs (bangBang n control q).2 <= shipRotVel.
Proof.
  pose proof PI_RGT_0 as Hpi. unfold bangBang, shipRotVel.
  repeat case_decide; cbn [snd]; unfold Rabs; destruct (Rcase_abs _); lra.
Qed.

(** X12: the ship turns at the rate [shipRotVel] at most: over a call of
    [propagate] the heading changes by an angle of at most
    [shipRotVel * duration], before it is brought back into range. *)
Theorem propagate_turns_at_most n start control duration :
  length start = numDimensions n -> 0 <= duration ->
  exists turn, Rabs turn <= shipRotVel * duration /\
    propagate n start control duration !!! (4 * n + 4)%nat
    = enforceBounds (start !!! (4 * n + 4)%nat + turn).
Proof.
  intros Hlen Hdur. rewrite propagate_unfold. cbv zeta.
  set (u := bangBang n control start).
  set (numSteps := Z.to_nat (ceil (duration / timeStep_))).
  set (dt := duration / INR numSteps).
  destruct (iter_substep_heading n u dt numSteps
              (start, replicate (numDimensions n) 0, replicate (n + 1) false))
    as (j & Hj & E); [exact Hlen|apply length_replicate|]. cbn [fst snd] in E.
  exists (INR j * (u.2 * dt)). split.
  - pose proof (bangBang_torque n control start) as Hu. fold u in Hu.
    assert (Hrot : 0 <= shipRotVel) by (unfold shipRotVel; pose proof PI_RGT_0; lra).
    destruct (decide (j = 0%nat)) as [->|Hj0].
    + cbn [INR]. rewrite Rmult_0_l, Rabs_R0. by apply Rmult_le_pos.
    + assert (Hn : 0 < INR numSteps) by (apply lt_0_INR; lia).
      assert (Hjn : INR j <= INR numSteps) by (apply le_INR; exact Hj).
      assert (Hj' : 0 <= INR j) by apply pos_INR.
      assert (Hdt : 0 <= dt).
      { unfold dt, Rdiv. apply Rmult_le_pos; [exact Hdur|].
        apply Rlt_le, Rinv_0_lt_compat, Hn. }
      assert (Hjdt : INR j * dt <= duration).
      { assert (Ed : INR numSteps * dt = duration) by (unfold dt; field; lra).
        apply Rle_trans with (INR numSteps * dt); [by apply Rmult_le_compat_r|lra]. }
      replace (INR j * (u.2 * dt)) with (u.2 * (INR j * dt)) by ring.
      rewrite Rabs_mult, (Rabs_pos_eq (INR j * dt)) by (by apply Rmult_le_pos).
      apply Rmult_le_compat; [apply Rabs_pos|by apply Rmult_le_pos|exact Hu|exact Hjdt].
  - rewrite list_lookup_total_insert_eq; [by rewrite E|].
    rewrite iter_substep_length. cbn [fst]. rewrite Hlen. unfold numDimensions. lia.
Qed.

Lemma propagate_turns_at_most_witness :
  exists turn, Rabs turn <= shipRotVel * 0.05 /\
    propagate 1 (cruise p0) (0.05, 0) 0.05 !!! 8%nat = enforceBounds (0 + turn).
Proof.
  apply (propagate_turns_at_most 1 (cruise p0) (0.05, 0) 0.05); [reflexivity|lra].
Defined.

(** ** No time *)

Lemma numSteps_of_zero : Z.to_nat (ceil (0 / timeStep_)) = 0%nat.
Proof.
  replace (0 / timeStep_) with (IZR 0)
    by (unfold timeStep_, integrationStepSize; lra).
  by rewrite ceil_IZR.
Qed.

(** X13: over a duration of zero the loop of [propagate] does not run (and the
    step [dt], a division by zero, is not used): the result is the start
    state with its heading brought into range, and a state of the space
    whose heading is in range is returned as it is. *)
Theorem propagate_zero_duration n start control :
  propagate n start control 0
  = <[(4 * n + 4)%nat := enforceBounds (start !!! (4 * n + 4)%nat)]> start /\
  (- PI < start !!! (4 * n + 4)%nat <= PI -> propagate n start control 0 = start).
Proof.
  rewrite propagate_unfold. cbv zeta. rewrite numSteps_of_zero.
  cbn [Nat.iter nat_rect fst]. split; [reflexivity|].
  intros Hh. rewrite enforceBounds_id by exact Hh.
  apply list_eq_same_length with (length start); [reflexivity|by rewrite length_insert|].
  intros k a b Hk Ha Hb. apply list_lookup_total_correct in Ha, Hb. subst a b.
  destruct (decide (k = 4 * n + 4)%nat) as [->|Hne].
  - by rewrite list_lookup_total_insert_eq.
  - by rewrite list_lookup_total_insert_ne.
Qed.

Lemma propagate_zero_duration_witness :
  propagate 1 (cruise p0) (0.05, 0) 0 = cruise p0.
Proof.
  apply (proj2 (propagate_zero_duration 1 (cruise p0) (0.05, 0))).
  unfold cruise. vec_eval. pose proof PI_RGT_0. lra.
Defined.

(** ** The start state of the next level *)

Lemma push_app {A} (f : nat -> A) (acc : list A) (l : list nat) :
  foldl (fun acc k => acc ++ [f k]) acc l = acc ++ map f l.
Proof.
  revert acc. induction l as [|x l IH]; intros acc; cbn [foldl map].
  - by rewrite app_nil_r.
  - rewrite IH, <- app_assoc. reflexivity.
Qed.

Lemma keep_koules_app (s : list R) (acc : list R) (l : list nat) :
  foldl (fun nextStart i =>
           let j := (4 * i)%nat in
           if decide (withinWorkspace s j) then
             foldl (fun nextStart k => nextStart ++ [s !!! (j + k)%nat]) nextStart (seq 0 4)
           else nextStart) acc l
  = acc ++ flat_map (block s) (filter (fun i => withinWorkspace s (4 * i)) l).
Proof.
  revert acc. induction l as [|x l IH]; intros acc; cbn [foldl].
  - by rewrite app_nil_r.
  - rewrite IH. cbv zeta.
    destruct (decide (withinWorkspace s (4 * x))) as [Hw|Hw].
    + rewrite filter_cons_True by exact Hw.
      rewrite (push_app (fun k => s !!! (4 * x + k)%nat)). cbn [seq map flat_map].
      rewrite <- app_assoc. unfold block. rewrite Nat.add_0_r. reflexivity.
    + by rewrite filter_cons_False by exact Hw.
Qed.

Lemma numKoulesOf_numDimensions n v : length v = numDimensions n -> numKoulesOf v = n.
Proof.
  intros Hlen. unfold numKoulesOf. rewrite Hlen. unfold numDimensions.
  symmetry. apply Nat.div_unique with 0%nat; lia.
Qed.

(** [nextStart] in closed form. *)
Lemma nextStart_unfold n s :
  length s = numDimensions n ->
  nextStart s = flat_map (block s) (kept n s)
                ++ [s !!! (4 * n)%nat; s !!! (4 * n + 1)%nat; s !!! (4 * n + 2)%nat;
                    s !!! (4 * n + 3)%nat; s !!! (4 * n + 4)%nat].
Proof.
  intros Hlen. unfold nextStart.
  rewrite (push_app (fun j => s !!! j)), keep_koules_app. rewrite Hlen.
  unfold numDimensions, kept.
  replace ((4 * (n + 1) + 1 - 5 + 3) / 4)%nat with n
    by (apply Nat.div_unique with 3%nat; lia).
  replace (4 * (n + 1) + 1 - 5)%nat with (4 * n)%nat by lia.
  cbn [seq map app].
  by replace (S (4 * n)) with (4 * n + 1)%nat by lia;
     replace (S (4 * n + 1)) with (4 * n + 2)%nat by lia;
     replace (S (4 * n + 2)) with (4 * n + 3)%nat by lia;
     replace (S (4 * n + 3)) with (4 * n + 4)%nat by lia.
Qed.

Lemma length_flat_map_block s l : length (flat_map (block s) l) = (4 * length l)%nat.
Proof.
  induction l as [|x l IH]; cbn [flat_map]; [reflexivity|].
  rewrite length_app, IH. cbn [block length]. lia.
Qed.

Lemma lookup_flat_map_block s l tail m c :
  (m < length l)%nat -> (c < 4)%nat ->
  (flat_map (block s) l ++ tail) !!! (4 * m + c)%nat = s !!! (4 * (l !!! m) + c)%nat.
Proof.
  revert m. induction l as [|x l IH]; intros m Hm Hc; cbn [length] in Hm; [lia|].
  destruct m as [|m].
  - cbn [flat_map block app Nat.mul Nat.add].
    destruct c as [|[|[|[|c]]]]; [| | |  |lia]; cbn [lookup_total list_lookup_total];
      (rewrite ?Nat.add_0_r; reflexivity).
  - replace (4 * S m + c)%nat with (S (S (S (S (4 * m + c))))) by lia.
    cbn [flat_map block app lookup_total list_lookup_total].
    apply IH; lia.
Qed.

Lemma lookup_after_flat_map_block s l tail c :
  (flat_map (block s) l ++ tail) !!! (4 * length l + c)%nat = tail !!! c.
Proof.
  rewrite lookup_total_app_r by (rewrite length_flat_map_block; lia).
  f_equal. rewrite length_flat_map_block. lia.
Qed.

Lemma kept_spec n s i : i ∈ kept n s <-> (i < n)%nat /\ withinWorkspace s (4 * i).
Proof.
  unfold kept. rewrite list_elem_of_filter, elem_of_seq. intuition lia.
Qed.

Lemma kept_length n s : (length (kept n s) <= n)%nat.
Proof.
  unfold kept. pose proof (length_filter (fun i => withinWorkspace s (4 * i)) (seq 0 n)) as H.
  by rewrite length_seq in H.
Qed.

Lemma within_workspace_far_from_edge s i :
  withinWorkspace s (4 * i) -> threshold_ < edgeDistance s i.
Proof.
  unfold edgeDistance, withinWorkspace, sideLength, kouleRadius, threshold_. cbv zeta.
  set (x := s !!! (4 * i)%nat). set (y := s !!! (4 * i + 1)%nat).
  intros [Hmin Hmax].
  unfold Rmin, Rmax in *. repeat destruct (Rle_dec _ _); lra.
Qed.

(** The goal is satisfied exactly when some koule is at an edge. *)
Lemma isSatisfied_iff n st :
  isSatisfied n st = true <-> exists i, (i < n)%nat /\ edgeDistance st i <= threshold_.
Proof.
  split; [apply isSatisfied_some_koule_at_edge|].
  intros (i & Hi & He). unfold isSatisfied. apply bool_decide_eq_true.
  rewrite distanceGoal_unfold. cbv zeta.
  destruct (running_min (edgeDistance st) (seq 0 n) sideLength) as (_ & Hle & _).
  cbv zeta in Hle. set (r := foldl _ _ _) in *.
  assert (Hr : r <= edgeDistance st i) by (apply Hle, elem_of_seq; lia).
  case_decide; unfold threshold_ in *; lra.
Qed.

(** X14: the start vector [planAllLevelsRecursive] hands to the next level is a
    state vector of a problem with as many koules as the final state has
    within the workspace: these koules in their order, entry by entry,
    then the ship as it was.  [koulesSetup] takes it as the start state,
    and that state does not satisfy the goal of the next level. *)
Theorem nextStart_is_start_of_next_level n s :
  length s = numDimensions n ->
  let s' := nextStart s in
  let n' := numKoulesOf s' in
  n' = length (kept n s) /\ (n' <= n)%nat /\
  length s' = numDimensions n' /\
  (forall m c, (m < n')%nat -> (c < 4)%nat ->
     s' !!! (4 * m + c)%nat = s !!! (4 * (kept n s !!! m) + c)%nat) /\
  (forall c, (c < 5)%nat -> s' !!! (4 * n' + c)%nat = s !!! (4 * n + c)%nat) /\
  startState n' s' = s' /\
  isSatisfied n' s' = false.
Proof.
  intros Hlen. cbv zeta.
  assert (Hl' : length (nextStart s) = numDimensions (length (kept n s))).
  { rewrite (nextStart_length n s Hlen). unfold kept, numDimensions. lia. }
  rewrite (numKoulesOf_numDimensions _ _ Hl').
  set (n' := length (kept n s)).
  assert (Hkoule : forall m c, (m < n')%nat -> (c < 4)%nat ->
            nextStart s !!! (4 * m + c)%nat = s !!! (4 * (kept n s !!! m) + c)%nat).
  { intros m c Hm Hc. rewrite (nextStart_unfold n s Hlen).
    by apply lookup_flat_map_block. }
  split; [reflexivity|]. split; [apply kept_length|]. split; [exact Hl'|].
  split; [exact Hkoule|]. split; [|split].
  - intros c Hc. rewrite (nextStart_unfold n s Hlen). unfold n'.
    rewrite lookup_after_flat_map_block.
    destruct c as [|[|[|[|[|c]]]]]; [| | | | |lia]; cbn [lookup_total list_lookup_total];
      (rewrite ?Nat.add_0_r; reflexivity).
  - unfold startState. by rewrite decide_True by exact Hl'.
  - destruct (isSatisfied n' (nextStart s)) eqn:Hsat; [|reflexivity].
    apply isSatisfied_iff in Hsat as (m & Hm & He).
    assert (Hin : kept n s !!! m ∈ kept n s).
    { apply list_elem_of_lookup_total_2. exact Hm. }
    apply kept_spec in Hin as [_ Hw]. apply within_workspace_far_from_edge in Hw.
    unfold edgeDistance in He, Hw. cbv zeta in He, Hw.
    pose proof (Hkoule m 0%nat Hm ltac:(lia)) as E0.
    pose proof (Hkoule m 1%nat Hm ltac:(lia)) as E1.
    rewrite !Nat.add_0_r in E0. rewrite E0, E1 in He. lra.
Qed.

Lemma nextStart_is_start_of_next_level_witness :
  length (nextStart (cruise p0)) = numDimensions (numKoulesOf (nextStart (cruise p0))) /\
  isSatisfied (numKoulesOf (nextStart (cruise p0))) (nextStart (cruise p0)) = false.
Proof.
  destruct (nextStart_is_start_of_next_level 1 (cruise p0) eq_refl)
    as (_ & _ & Hl & _ & _ & _ & Hs).
  split; [exact Hl|exact Hs].
Defined.

Lemma kept_all n s :
  (forall i, (i < n)%nat -> withinWorkspace s (4 * i)) -> kept n s = seq 0 n.
Proof.
  intros Hall. unfold kept.
  assert (H : forall l : list nat, (forall i, i ∈ l -> withinWorkspace s (4 * i)) ->
            filter (fun i => withinWorkspace s (4 * i)) l = l).
  { induction l as [|x l IH]; intros Hl; [reflexivity|].
    rewrite filter_cons_True by (apply Hl; left).
    f_equal. apply IH. intros i Hi. apply Hl. by right. }
  apply H. intros i Hi. apply elem_of_seq in Hi. apply Hall. lia.
Qed.

(** X15: the problem size decreases from one level to the next (the assertion
    of line 782) exactly when some koule of the final state is outside
    the workspace; when none is, the next start vector is the final state
    itself. *)
Theorem nextStart_shrinks_iff_koule_left n s :
  length s = numDimensions n ->
  ((length (nextStart s) < length s)%nat <->
   exists i, (i < n)%nat /\ ~ withinWorkspace s (4 * i)) /\
  ((forall i, (i < n)%nat -> withinWorkspace s (4 * i)) -> nextStart s = s).
Proof.
  intros Hlen.
  assert (Hsame : (forall i, (i < n)%nat -> withinWorkspace s (4 * i)) -> nextStart s = s).
  { intros Hall. rewrite (nextStart_unfold n s Hlen), (kept_all n s Hall).
    unfold numDimensions in Hlen.
    apply list_eq_same_length with (4 * n + 5)%nat; [lia| |].
    { rewrite length_app, length_flat_map_block, length_seq. cbn [length]. lia. }
    intros k a b Hk Ha Hb. apply list_lookup_total_correct in Ha, Hb. subst a b.
    destruct (decide (k < 4 * n)%nat) as [Hlt|Hge].
    - pose proof (Nat.div_mod_eq k 4) as Hdm.
      pose proof (Nat.mod_upper_bound k 4 ltac:(lia)) as Hmod.
      rewrite Hdm at 1.
      rewrite lookup_flat_map_block by (rewrite ?length_seq; lia).
      rewrite lookup_total_seq_lt by lia. cbn [Nat.add]. by rewrite <- Hdm.
    - replace k with (4 * length (seq 0 n) + (k - 4 * n))%nat at 1
        by (rewrite length_seq; lia).
      rewrite lookup_after_flat_map_block.
      assert (Hc : (k = 4 * n \/ k = 4 * n + 1 \/ k = 4 * n + 2 \/ k = 4 * n + 3
                    \/ k = 4 * n + 4)%nat) by lia.
      destruct Hc as [->|[->|[->|[->| ->]]]];
        [replace (4 * n - 4 * n)%nat with 0%nat by lia
        |replace (4 * n + 1 - 4 * n)%nat with 1%nat by lia
        |replace (4 * n + 2 - 4 * n)%nat with 2%nat by lia
        |replace (4 * n + 3 - 4 * n)%nat with 3%nat by lia
        |replace (4 * n + 4 - 4 * n)%nat with 4%nat by lia]; reflexivity. }
  split; [|exact Hsame]. split.
  - intros Hlt.
    destruct (decide (Exists (fun i => ~ withinWorkspace s (4 * i)) (seq 0 n))) as [Hex|Hno].
    + apply list.Exists_exists in Hex as (i & Hi & Hw). apply elem_of_seq in Hi.
      exists i. split; [lia|exact Hw].
    + rewrite Hsame in Hlt; [lia|].
      intros i Hi. apply dec_stable. intros Hw. apply Hno, list.Exists_exists.
      exists i. split; [apply elem_of_seq; lia|exact Hw].
  - intros (i & Hi & Hw). rewrite (nextStart_length n s Hlen), Hlen.
    pose proof (length_filter_lt (fun i => withinWorkspace s (4 * i)) (seq 0 n) i) as Hdrop.
    rewrite length_seq in Hdrop. unfold numDimensions.
    assert (i ∈ seq 0 n) by (apply elem_of_seq; lia). specialize (Hdrop H Hw). lia.
Qed.

Lemma cruise_p0_withinWorkspace : forall i, (i < 1)%nat -> withinWorkspace (cruise p0) (4 * i).
Proof.
  intros i Hi. replace i with 0%nat by lia.
  unfold withinWorkspace, cruise, p0, sideLength, kouleRadius. vec_eval.
  unfold Rmin, Rmax. repeat destruct (Rle_dec _ _); lra.
Qed.

Lemma nextStart_shrinks_iff_koule_left_witness : nextStart (cruise p0) = cruise p0.
Proof.
  apply (proj2 (nextStart_shrinks_iff_koule_left 1 (cruise p0) eq_refl)).
  apply cruise_p0_withinWorkspace.
Defined.

(** ** The goal *)

(** X16: the goal region in terms of the koules: the distance to the goal is
    within the threshold exactly when the center of some koule is within
    [kouleRadius] of an edge of the workspace (or beyond it).  With no
    koule the distance is [sideLength] and the goal cannot be reached. *)
Theorem distanceGoal_within_threshold_iff n st :
  (distanceGoal n st <= threshold_ <->
   exists i, (i < n)%nat /\
     let x := st !!! (4 * i)%nat in
     let y := st !!! (4 * i + 1)%nat in
     Rmin (Rmin x (sideLength - x)) (Rmin y (sideLength - y)) <= kouleRadius) /\
  (n = 0%nat -> distanceGoal n st = sideLength /\ isSatisfied n st = false).
Proof.
  split.
  - transitivity (isSatisfied n st = true).
    { unfold isSatisfied. symmetry. apply bool_decide_eq_true. }
    rewrite isSatisfied_iff. unfold edgeDistance. cbv zeta.
    split; intros (i & Hi & He); exists i; (split; [exact Hi|lra]).
  - intros ->. assert (E : distanceGoal 0 st = sideLength).
    { rewrite distanceGoal_unfold. cbn [seq foldl]. cbv zeta.
      rewrite decide_False by (unfold sideLength; lra). reflexivity. }
    split; [exact E|]. unfold isSatisfied. apply bool_decide_eq_false.
    rewrite E. unfold sideLength, threshold_. lra.
Qed.

(** ** The bounds of the state space *)

Lemma bounds_S n : bounds (S n) = kouleBounds ++ bounds n.
Proof. unfold bounds. cbn [replicate mjoin list_join]. by rewrite <- app_assoc. Qed.

Lemma lookup_total_skip4 (a b c d : R) (rest : list R) k :
  (a :: b :: c :: d :: rest) !!! (4 + k)%nat = rest !!! k.
Proof. reflexivity. Qed.

Lemma withinBounds_iff n : forall s,
  Forall2 (fun x b => b.1 <= x <= b.2) (take (4 * (n + 1)) s) (bounds n) <->
  (4 * (n + 1) <= length s)%nat /\ (forall i, (i < n)%nat -> kouleInBounds s i) /\
  shipInBounds n s.
Proof.
  induction n as [|n IH]; intros s.
  - unfold bounds, shipBounds, shipInBounds. cbn [replicate mjoin list_join app Nat.mul Nat.add].
    destruct s as [|a [|b [|c [|d rest]]]]; cbn [take length].
    1-4: split; [intros HF; repeat (apply Forall2_cons_1 in HF as [_ HF]); inversion HF
                |intros [Hl _]; lia].
    cbn [lookup_total list_lookup_total]. rewrite take_0. split.
    + intros HF.
      apply Forall2_cons_1 in HF as [Ha HF]. apply Forall2_cons_1 in HF as [Hb HF].
      apply Forall2_cons_1 in HF as [Hc HF]. apply Forall2_cons_1 in HF as [Hd HF].
      cbn [fst snd] in *. split; [lia|]. split; [intros i Hi; lia|]. done.
    + intros (_ & _ & (Ha & Hb) & Hc & Hd).
      repeat (apply Forall2_cons; [cbn [fst snd]; done|]). apply Forall2_nil.
  - rewrite bounds_S. unfold kouleBounds.
    replace (4 * (S n + 1))%nat with (S (S (S (S (4 * (n + 1)))))) by lia.
    destruct s as [|a [|b [|c [|d rest]]]]; cbn [take length app].
    1-4: split; [intros HF; repeat (apply Forall2_cons_1 in HF as [_ HF]); inversion HF
                |intros [Hl _]; lia].
    assert (Hshift : forall k, (a :: b :: c :: d :: rest) !!! (4 + k)%nat = rest !!! k)
      by reflexivity.
    split.
    + intros HF.
      apply Forall2_cons_1 in HF as [Ha HF]. apply Forall2_cons_1 in HF as [Hb HF].
      apply Forall2_cons_1 in HF as [Hc HF]. apply Forall2_cons_1 in HF as [Hd HF].
      cbn [fst snd] in *. apply IH in HF as (Hl & Hk & Hs).
      split; [lia|]. split.
      * intros i Hi. destruct i as [|i].
        -- unfold kouleInBounds. cbn [Nat.mul Nat.add lookup_total list_lookup_total]. done.
        -- specialize (Hk i ltac:(lia)). unfold kouleInBounds in *.
           replace (4 * S i)%nat with (4 + 4 * i)%nat by lia.
           rewrite <- !Nat.add_assoc, !Hshift. exact Hk.
      * unfold shipInBounds in *.
        replace (4 * S n)%nat with (4 + 4 * n)%nat by lia.
        rewrite <- !Nat.add_assoc, !Hshift. exact Hs.
    + intros (Hl & Hk & Hs).
      pose proof (Hk 0%nat ltac:(lia)) as H0. unfold kouleInBounds in H0.
      cbn [Nat.mul Nat.add lookup_total list_lookup_total] in H0.
      destruct H0 as ((Ha & Hb) & Hc & Hd).
      repeat (apply Forall2_cons; [cbn [fst snd]; done|]).
      apply IH. split; [lia|]. split.
      * intros i Hi. specialize (Hk (S i) ltac:(lia)). unfold kouleInBounds in *.
        replace (4 * S i)%nat with (4 + 4 * i)%nat in Hk by lia.
        rewrite <- !Nat.add_assoc, !Hshift in Hk. exact Hk.
      * unfold shipInBounds in *.
        replace (4 * S n)%nat with (4 + 4 * n)%nat in Hs by lia.
        rewrite <- !Nat.add_assoc, !Hshift in Hs. exact Hs.
Qed.

(** ** The default start state *)

Lemma defaultRadius_range n i : (i < n)%nat -> 0.1 <= defaultRadius n i < 0.2.
Proof.
  intros Hi. unfold defaultRadius.
  assert (Hn : 0 < INR n) by (apply lt_0_INR; lia).
  assert (Hi' : 0 <= INR i < INR n) by (split; [apply pos_INR|by apply lt_INR]).
  assert (Hq : 0 <= INR i * 0.1 / INR n < 0.1).
  { split.
    - apply Rmult_le_pos; [nra|]. apply Rlt_le, Rinv_0_lt_compat, Hn.
    - apply Rmult_lt_reg_r with (INR n); [exact Hn|].
      replace (INR i * 0.1 / INR n * INR n) with (INR i * 0.1) by (field; lra). nra. }
  lra.
Qed.

Lemma defaultStart_entries n :
  let v := defaultStart n in
  length v = numDimensions n /\
  (forall i, (i < n)%nat ->
     v !!! (4 * i)%nat = 0.5 * sideLength + defaultRadius n i * cos (defaultAngle n i) /\
     v !!! (4 * i + 1)%nat = 0.5 * sideLength + defaultRadius n i * sin (defaultAngle n i) /\
     v !!! (4 * i + 2)%nat = 0 /\ v !!! (4 * i + 3)%nat = 0) /\
  v !!! (4 * n)%nat = 0.5 * sideLength /\ v !!! (4 * n + 1)%nat = 0.5 * sideLength /\
  v !!! (4 * n + 2)%nat = 0 /\ v !!! (4 * n + 3)%nat = 0 /\
  v !!! (4 * n + 4)%nat = 0.5 * (2 * PI / INR n).
Proof.
  cbv zeta. unfold defaultStart. cbv zeta.
  set (D := numDimensions n). set (delta := 2 * PI / INR n).
  pose proof (foldl_seq_ind (fun k (a : list R * R) => (k <= n)%nat ->
      a.2 = PI + INR k * delta /\ length a.1 = D /\
      (forall i, (i < k)%nat ->
         a.1 !!! (4 * i)%nat = 0.5 * sideLength + defaultRadius n i * cos (defaultAngle n i) /\
         a.1 !!! (4 * i + 1)%nat
         = 0.5 * sideLength + defaultRadius n i * sin (defaultAngle n i)) /\
      (forall i c, (k <= i \/ 2 <= c < 4)%nat -> a.1 !!! (4 * i + c)%nat = 0))) as Hind.
  match goal with
  | |- context [foldl ?f ?a (seq 0 n)] => specialize (Hind f a n)
  end.
  destruct Hind as (Ht & Hl & Hk & Hz); [| |lia|].
  - intros _. cbn [fst snd INR]. split; [lra|]. split; [apply length_replicate|].
    split; [intros i Hi; lia|]. intros i c _.
    destruct (decide (4 * i + c < D)%nat).
    + by apply lookup_total_replicate_2.
    + rewrite list_lookup_total_alt, lookup_ge_None_2; [reflexivity|].
      rewrite length_replicate. lia.
  - intros k [v theta] Hkn IH _. destruct IH as (Ht & Hl & Hk & Hz); [lia|].
    cbn [fst snd] in *. subst D. unfold numDimensions in Hl.
    split; [rewrite Ht, S_INR; ring|]. split; [by vec_simpl|]. split.
    + intros i Hi. destruct (decide (i = k)) as [->|Hne].
      * vec_simpl. rewrite Ht. unfold defaultRadius, defaultAngle. fold delta. done.
      * destruct (Hk i ltac:(lia)) as [E0 E1]. by vec_simpl.
    + intros i c Hic. vec_simpl. apply Hz. lia.
  - destruct (foldl _ _ _) as [v theta]. cbn [fst snd] in *.
    subst D. unfold numDimensions in *.
    split; [by vec_simpl|]. split; [|repeat split].
    + intros i Hi. destruct (Hk i Hi) as [E0 E1].
      pose proof (Hz i 2%nat ltac:(lia)) as E2. pose proof (Hz i 3%nat ltac:(lia)) as E3.
      repeat split; by vec_simpl.
    + by vec_simpl.
    + by vec_simpl.
    + vec_simpl. apply (Hz n 2%nat). lia.
    + vec_simpl. apply (Hz n 3%nat). lia.
    + by vec_simpl.
Qed.

Lemma defaultStart_koule_near_center n i :
  (i < n)%nat ->
  0.3 < defaultStart n !!! (4 * i)%nat < 0.7 /\
  0.3 < defaultStart n !!! (4 * i + 1)%nat < 0.7.
Proof.
  intros Hi. destruct (defaultStart_entries n) as (_ & Hk & _). cbv zeta in Hk.
  destruct (Hk i Hi) as (E0 & E1 & _). rewrite E0, E1.
  pose proof (defaultRadius_range n i Hi) as Hr.
  pose proof (COS_bound (defaultAngle n i)) as Hc.
  pose proof (SIN_bound (defaultAngle n i)) as Hs.
  unfold sideLength. split; nra.
Qed.

(** X18: without a start vector of the size of the space, [koulesSetup] starts
    from its default state.  Koule [i] is at rest at the distance
    [0.1 + 0.1 * i / n] from the center of the workspace, in the direction
    [pi + i * 2 * pi / n]; the ship is at rest at the center, heading
    [pi / n].  That state is within the bounds of the space, does not
    satisfy the goal, and no two of its bodies collide. *)
Theorem default_start_state n stateVec :
  (1 <= n)%nat -> length stateVec <> numDimensions n ->
  let v := startState n stateVec in
  length v = numDimensions n /\
  (forall i, (i < n)%nat ->
     0.1 <= defaultRadius n i < 0.2 /\
     v !!! (4 * i)%nat = 0.5 * sideLength + defaultRadius n i * cos (defaultAngle n i) /\
     v !!! (4 * i + 1)%nat = 0.5 * sideLength + defaultRadius n i * sin (defaultAngle n i) /\
     v !!! (4 * i + 2)%nat = 0 /\ v !!! (4 * i + 3)%nat = 0) /\
  (v !!! (4 * n)%nat = 0.5 * sideLength /\ v !!! (4 * n + 1)%nat = 0.5 * sideLength /\
   v !!! (4 * n + 2)%nat = 0 /\ v !!! (4 * n + 3)%nat = 0 /\
   v !!! (4 * n + 4)%nat = PI / INR n) /\
  isStateValid n v = true /\ isSatisfied n v = false /\ collisionFree n v.
Proof.
  intros Hn Hsize. cbv zeta. unfold startState. rewrite decide_False by exact Hsize.
  destruct (defaultStart_entries n) as (Hl & Hk & S0 & S1 & S2 & S3 & S4).
  cbv zeta in *.
  split; [exact Hl|]. split; [|split; [|split; [|split]]].
  - intros i Hi. split; [by apply defaultRadius_range|]. by apply Hk.
  - repeat split; try assumption. rewrite S4.
    unfold Rdiv. lra.
  - unfold isStateValid. apply bool_decide_eq_true, withinBounds_iff.
    split; [rewrite Hl; unfold numDimensions; lia|]. split.
    + intros i Hi. destruct (defaultStart_koule_near_center n i Hi) as [Hx Hy].
      destruct (Hk i Hi) as (_ & _ & E2 & E3).
      unfold kouleInBounds. rewrite E2, E3. unfold kouleRadius, sideLength.
      repeat split; lra.
    + unfold shipInBounds. rewrite S0, S1, S2, S3. unfold shipRadius, sideLength.
      repeat split; lra.
  - destruct (isSatisfied n (defaultStart n)) eqn:Hsat; [|reflexivity].
    apply isSatisfied_iff in Hsat as (i & Hi & He).
    destruct (defaultStart_koule_near_center n i Hi) as [Hx Hy].
    unfold edgeDistance, sideLength, kouleRadius, threshold_ in He. cbv zeta in He.
    unfold Rmin in He. repeat destruct (Rle_dec _ _); lra.
  - intros i j Hij [_ Hclosing]. rewrite !Nat.add_0_r in Hclosing.
    assert (Hrest : forall b, (b <= n)%nat ->
              defaultStart n !!! (4 * b + 2)%nat = 0 /\ defaultStart n !!! (4 * b + 3)%nat = 0).
    { intros b Hb. destruct (decide (b = n)) as [->|Hne]; [by split|].
      destruct (Hk b ltac:(lia)) as (_ & _ & E2 & E3). by split. }
    destruct (Hrest i ltac:(lia)) as [Ei2 Ei3]. destruct (Hrest j ltac:(lia)) as [Ej2 Ej3].
    rewrite Ei2, Ei3, Ej2, Ej3 in Hclosing. lra.
Qed.

Lemma default_start_state_witness :
  isStateValid 1 (startState 1 []) = true /\ isSatisfied 1 (startState 1 []) = false.
Proof.
  destruct (default_start_state 1 [] ltac:(lia) ltac:(discriminate))
    as (_ & _ & _ & Hv & Hs & _).
  split; [exact Hv|exact Hs].
Defined.

Lemma norm2_polar_abs k theta : norm2 (k * cos theta, k * sin theta) = Rabs k.
Proof.
  unfold norm2. cbn [fst snd].
  pose proof (sin2_cos2 theta) as Hu. unfold Rsqr in Hu.
  replace (k * cos theta * (k * cos theta) + k * sin theta * (k * sin theta))
    with (Rsqr k) by (unfold Rsqr; nra).
  apply sqrt_Rsqr_abs.
Qed.

(** X19: with an initial velocity, [koulesSetup] gives every koule of the
    default state a velocity of magnitude [|kouleVel|] in a random
    direction, and changes nothing else. *)
Theorem start_with_velocity_sets_speed n kouleVel rng :
  let v := (startStateWithVelocity n kouleVel rng).1 in
  length v = length (startState n []) /\
  (forall i, (i < n)%nat ->
     norm2 (v !!! (4 * i + 2)%nat, v !!! (4 * i + 3)%nat) = Rabs kouleVel) /\
  (forall i c, (n <= i \/ c < 2)%nat ->
     v !!! (4 * i + c)%nat = startState n [] !!! (4 * i + c)%nat).
Proof.
  cbv zeta. unfold startStateWithVelocity.
  set (v0 := startState n []).
  pose proof (foldl_seq_ind (fun k (a : list R * RNG) =>
      length a.1 = length v0 /\
      (forall i, (i < k)%nat ->
         norm2 (a.1 !!! (4 * i + 2)%nat, a.1 !!! (4 * i + 3)%nat) = Rabs kouleVel) /\
      (forall i c, (k <= i \/ c < 2)%nat -> a.1 !!! (4 * i + c)%nat = v0 !!! (4 * i + c)%nat)))
    as Hind.
  match goal with
  | |- context [foldl ?f ?a (seq 0 n)] => specialize (Hind f a n)
  end.
  apply Hind; clear Hind.
  - cbn [fst snd]. split; [reflexivity|]. split; [intros i Hi; lia|]. reflexivity.
  - intros k [v g] Hk (Hl & Hs & Hf). cbn [fst snd] in *.
    unfold uniformReal, uniform01. cbn [fst snd].
    set (theta := (2 * PI - 0) * g 0%nat + 0).
    assert (Hv0 : length v0 = numDimensions n).
    { subst v0. unfold startState. rewrite decide_False by (unfold numDimensions; cbn; lia).
      apply defaultStart_entries. }
    unfold numDimensions in Hv0.
    split; [by vec_simpl|]. split.
    + intros i Hi. destruct (decide (i = k)) as [->|Hne].
      * vec_simpl. apply norm2_polar_abs.
      * vec_simpl. apply Hs. lia.
    + intros i c Hic. vec_simpl. apply Hf. lia.
Qed.

(** ** Sampling a goal state *)

Lemma uniformBool_rng_ok g : rng_ok g -> rng_ok (uniformBool g).2.
Proof. intros Hg k. unfold uniformBool, uniform01. cbn [snd]. apply Hg. Qed.

Lemma sampleGoal_entries n sampled g :
  rng_ok g ->
  let v := (sampleGoal n sampled g).1 in
  length v = length sampled /\
  ((4 * n <= length sampled)%nat -> forall i, (i < n)%nat -> onEdge v i) /\
  (forall i c, (n <= i \/ 2 <= c < 4)%nat ->
     v !!! (4 * i + c)%nat = sampled !!! (4 * i + c)%nat).
Proof.
  intros Hg. cbv zeta. unfold sampleGoal.
  pose proof (foldl_seq_ind (fun k (a : list R * RNG) =>
      rng_ok a.2 /\ length a.1 = length sampled /\
      ((4 * n <= length sampled)%nat -> (k <= n)%nat ->
       forall i, (i < k)%nat -> onEdge a.1 i) /\
      (forall i c, (k <= i \/ 2 <= c < 4)%nat ->
         a.1 !!! (4 * i + c)%nat = sampled !!! (4 * i + c)%nat))) as Hind.
  match goal with
  | |- context [foldl ?f ?a (seq 0 n)] => specialize (Hind f a n)
  end.
  destruct Hind as (_ & Hl & He & Hf).
  - cbn [fst snd]. split; [exact Hg|]. split; [reflexivity|].
    split; [intros _ _ i Hi; lia|]. reflexivity.
  - intros k [v g'] Hk (Hg' & Hl & He & Hf). cbn [fst snd] in *.
    pose proof (uniformBool_rng_ok g' Hg') as Hg1.
    destruct (uniformBool g') as [b g1]. cbn [snd] in Hg1.
    assert (Hside : 0 <= sideLength) by (unfold sideLength; lra).
    destruct b.
    + pose proof (uniformBool_rng_ok g1 Hg1) as Hg2.
      destruct (uniformBool g1) as [c g2]. cbn [snd] in Hg2.
      pose proof (uniformReal_range 0 sideLength g2 Hside Hg2) as Hy.
      pose proof (uniformReal_rng_ok 0 sideLength g2 Hg2) as Hg3.
      destruct (uniformReal 0 sideLength g2) as [y g3]. cbn [fst snd] in *.
      split; [exact Hg3|]. split; [by vec_simpl|]. split.
      * intros Hlen Hkn i Hi. unfold onEdge. cbv zeta.
        destruct (decide (i = k)) as [->|Hne].
        -- vec_simpl. left. split; [destruct c; auto|exact Hy].
        -- vec_simpl. apply (He Hlen ltac:(lia) i). lia.
      * intros i c' Hic. vec_simpl. apply Hf. lia.
    + pose proof (uniformReal_range 0 sideLength g1 Hside Hg1) as Hx.
      pose proof (uniformReal_rng_ok 0 sideLength g1 Hg1) as Hg2.
      destruct (uniformReal 0 sideLength g1) as [x g2]. cbn [fst snd] in *.
      pose proof (uniformBool_rng_ok g2 Hg2) as Hg3.
      destruct (uniformBool g2) as [c g3]. cbn [fst snd] in *.
      split; [exact Hg3|]. split; [by vec_simpl|]. split.
      * intros Hlen Hkn i Hi. unfold onEdge. cbv zeta.
        destruct (decide (i = k)) as [->|Hne].
        -- vec_simpl. right. split; [exact Hx|destruct c; auto].
        -- vec_simpl. apply (He Hlen ltac:(lia) i). lia.
      * intros i c' Hic. vec_simpl. apply Hf. lia.
  - cbn [fst snd] in *. split; [exact Hl|]. split; [|exact Hf].
    intros Hlen i Hi. by apply He.
Qed.

Lemma onEdge_edgeDistance v i : onEdge v i -> edgeDistance v i < 0.
Proof.
  unfold onEdge, edgeDistance, sideLength, kouleRadius, threshold_. cbv zeta.
  set (x := v !!! (4 * i)%nat). set (y := v !!! (4 * i + 1)%nat).
  intros He. unfold Rmin. repeat destruct (Rle_dec _ _); lra.
Qed.

(** X20: [sampleGoal] overwrites the position of every koule of the sampled
    state with a point on an edge of the workspace and leaves the
    velocities of the koules and the ship as sampled.  With at least one
    koule the result is at distance 0 from the goal, so it satisfies the
    goal; a sampled state that is within the bounds stays within them. *)
Theorem sampleGoal_samples_goal_states n sampled g :
  rng_ok g -> length sampled = numDimensions n ->
  let v := (sampleGoal n sampled g).1 in
  length v = numDimensions n /\
  (forall i, (i < n)%nat -> onEdge v i) /\
  (forall i c, (n <= i \/ 2 <= c < 4)%nat ->
     v !!! (4 * i + c)%nat = sampled !!! (4 * i + c)%nat) /\
  ((1 <= n)%nat -> distanceGoal n v = 0 /\ isSatisfied n v = true) /\
  (isStateValid n sampled = true -> isStateValid n v = true).
Proof.
  intros Hg Hlen. cbv zeta.
  destruct (sampleGoal_entries n sampled g Hg) as (Hl & He & Hf). cbv zeta in *.
  set (v := (sampleGoal n sampled g).1) in *.
  assert (Hedge : forall i, (i < n)%nat -> onEdge v i).
  { apply He. rewrite Hlen. unfold numDimensions. lia. }
  split; [congruence|]. split; [exact Hedge|]. split; [exact Hf|]. split.
  - intros Hn.
    assert (Hd : distanceGoal n v = 0).
    { rewrite distanceGoal_unfold. cbv zeta.
      destruct (running_min (edgeDistance v) (seq 0 n) sideLength) as (_ & Hle & _).
      cbv zeta in Hle. set (r := foldl _ _ _) in *.
      assert (Hr : r <= edgeDistance v 0) by (apply Hle, elem_of_seq; lia).
      pose proof (onEdge_edgeDistance v 0 (Hedge 0%nat ltac:(lia))).
      rewrite decide_True by lra. reflexivity. }
    split; [exact Hd|]. unfold isSatisfied. apply bool_decide_eq_true.
    rewrite Hd. unfold threshold_. lra.
  - unfold isStateValid. rewrite !bool_decide_eq_true, !withinBounds_iff.
    intros (Hs & Hk & Hship).
    split; [rewrite Hl; exact Hs|]. split.
    + intros i Hi. specialize (Hk i Hi). unfold kouleInBounds in *.
      rewrite (Hf i 2%nat), (Hf i 3%nat) by lia.
      split; [|apply Hk].
      specialize (Hedge i Hi). unfold onEdge in Hedge. cbv zeta in Hedge.
      unfold sideLength, kouleRadius in *. split; lra.
    + unfold shipInBounds in *.
      pose proof (Hf n 0%nat ltac:(lia)) as E0. rewrite Nat.add_0_r in E0.
      pose proof (Hf n 1%nat ltac:(lia)) as E1.
      pose proof (Hf n 2%nat ltac:(lia)) as E2.
      pose proof (Hf n 3%nat ltac:(lia)) as E3.
      by rewrite E0, E1, E2, E3.
Qed.

Lemma sampleGoal_samples_goal_states_witness :
  isSatisfied 1 (sampleGoal 1 (cruise p0) (fun _ => 0)).1 = true.
Proof.
  destruct (sampleGoal_samples_goal_states 1 (cruise p0) (fun _ => 0)) as (_ & _ & _ & Hs & _).
  - intros k. lra.
  - reflexivity.
  - apply Hs. lia.
Defined.
